(** * A shallow embedding of [file_parser.py] (01_Python_Basics/Mini_Projects)

    The module [file_parser.py] turns a file (path or open stream) into a
    sequence of Python dicts.  This development models:
    - the Python string operations it relies on ([str.lower], [str.strip],
      [str.rstrip("\n")], [str.ljust], slicing, [os.path.splitext]);
    - Python dicts as insertion-ordered association lists;
    - the open file handles as an explicit store (a list indexed by the
      handle number) with a [closed] flag, so that the aliasing between
      the dispatcher and the generators it returns is visible;
    - Python generators as suspended states advanced by [gen_next], and
      [list(gen)] as [drain];
    - the library decoders the parsers call ([csv.DictReader],
      [json.load]/[json.loads], [xml.etree.ElementTree.parse],
      [configparser.ConfigParser]) on the subset of their input language
      that the parsers exercise. *)

From stdpp Require Import base list strings gmap.
From Stdlib Require Import Ascii String ZArith Lia.
Import ListNotations.
Open Scope string_scope.
Open Scope nat_scope.
Set Warnings "-register-all".

(* ------------------------------------------------------------------ *)
(** ** Characters and Python string methods                            *)
(* ------------------------------------------------------------------ *)

Module PyStr.

(** Characters are code points 0..255 (Latin-1), which is what Rocq's
    [ascii] holds. *)
Definition code (c : ascii) : nat := nat_of_ascii c.

(** [str.isspace] restricted to code points 0..255:
    \t \n \x0b \x0c \r, \x1c..\x1f, space, \x85, \xa0. *)
Definition is_space (c : ascii) : bool :=
  let n := code c in
  (((9 <=? n) && (n <=? 13)) || ((28 <=? n) && (n <=? 32))
  || (n =? 133) || (n =? 160))%nat.

(** [str.lower] on code points 0..255: A..Z and the Latin-1 capitals
    (except the multiplication sign) move up by 32. *)
Definition lower_char (c : ascii) : ascii :=
  let n := code c in
  if (((65 <=? n) && (n <=? 90)) || ((192 <=? n) && (n <=? 222) && negb (n =? 215)))%nat
  then ascii_of_nat (n + 32)%nat else c.

Fixpoint lower (s : string) : string :=
  match s with
  | EmptyString => EmptyString
  | String c s' => String (lower_char c) (lower s')
  end.

Fixpoint lstrip_by (p : ascii -> bool) (s : string) : string :=
  match s with
  | EmptyString => EmptyString
  | String c s' => if p c then lstrip_by p s' else s
  end.

Definition rev_str (s : string) : string :=
  string_of_list_ascii (List.rev (list_ascii_of_string s)).

Definition rstrip_by (p : ascii -> bool) (s : string) : string :=
  rev_str (lstrip_by p (rev_str s)).

(** [s.strip()] *)
Definition strip (s : string) : string := rstrip_by is_space (lstrip_by is_space s).

Definition is_nl (c : ascii) : bool := Ascii.eqb c "010"%char.

(** [s.rstrip("\n")] *)
Definition rstrip_nl (s : string) : string := rstrip_by is_nl s.

(** [s.ljust(n)]: pad on the right with spaces up to length [n]. *)
Definition ljust (s : string) (n : nat) : string :=
  s ++ string_of_list_ascii (repeat " "%char (n - String.length s)).

(** [s[a:a+w]]: Python slicing clamps to the string, as [substring] does. *)
Definition slice (s : string) (a w : nat) : string := substring a w s.

(** [s.rfind(c)], [-1] when absent. *)
Fixpoint rfind_from (c : ascii) (s : string) (i : Z) (acc : Z) : Z :=
  match s with
  | EmptyString => acc
  | String a s' => rfind_from c s' (i + 1)%Z (if Ascii.eqb a c then i else acc)
  end.

Definition rfind (c : ascii) (s : string) : Z := rfind_from c s 0%Z (-1)%Z.

Definition char_at (s : string) (i : nat) : option ascii := String.get i s.

(** The leading-dots loop of [posixpath._splitext]:
    [while filenameIndex < dotIndex: if p[fi] != '.': return split]. *)
Fixpoint skip_leading_dots (p : string) (fi : nat) (k : nat) (dot : nat)
  : string * string :=
  match k with
  | 0 => (p, "")
  | S k' =>
      if negb (bool_decide (char_at p fi = Some "."%char))
      then (substring 0 dot p, substring dot (String.length p - dot) p)
      else skip_leading_dots p (S fi) k' dot
  end.

(** [os.path.splitext] (POSIX: separator '/', extension separator '.'). *)
Definition splitext (p : string) : string * string :=
  let sepIndex := rfind "/"%char p in
  let dotIndex := rfind "."%char p in
  if Z.ltb sepIndex dotIndex then
    let fi := Z.to_nat (sepIndex + 1)%Z in
    let dot := Z.to_nat dotIndex in
    skip_leading_dots p fi (dot - fi) dot
  else (p, "").

(** Lines of a text stream as [for line in f] produces them: each line
    keeps its terminating "\n"; a last line without one is kept as is. *)
Fixpoint split_lines_aux (cur : list ascii) (s : list ascii) : list string :=
  match s with
  | [] => match cur with [] => [] | _ => [string_of_list_ascii (List.rev cur)] end
  | c :: s' =>
      if is_nl c then string_of_list_ascii (List.rev (c :: cur)) :: split_lines_aux [] s'
      else split_lines_aux (c :: cur) s'
  end.

Definition split_lines (s : string) : list string :=
  split_lines_aux [] (list_ascii_of_string s).

(** What a file opened in text mode with [newline=None] (universal
    newlines, as [open] does by default) returns when read: "\r\n" and
    a lone "\r" are both read as "\n". *)
Fixpoint universal_newlines (s : string) : string :=
  match s with
  | EmptyString => EmptyString
  | String c rest =>
      if Ascii.eqb c "013"%char then
        match rest with
        | String d rest' =>
            if Ascii.eqb d "010"%char then String "010"%char (universal_newlines rest')
            else String "010"%char (universal_newlines rest)
        | EmptyString => String "010"%char EmptyString
        end
      else String c (universal_newlines rest)
  end.

Definition concat_str (l : list string) : string := String.concat "" l.

End PyStr.

Import PyStr.

(* ------------------------------------------------------------------ *)
(** ** Python values and dicts                                           *)
(* ------------------------------------------------------------------ *)

(** Dict keys met in the parsers: strings, and [None] (the [restkey] of
    [csv.DictReader]). *)
Inductive pykey := KStr (s : string) | KNone.

(** Values: [None], booleans, ints, JSON numbers kept as their text,
    strings, lists and dicts. *)
Inductive pyval :=
| PNone
| PBool (b : bool)
| PInt (z : Z)
| PNum (s : string)
| PStr (s : string)
| PList (l : list pyval)
| PDict (d : list (pykey * pyval)).

(** A record is a Python dict: keys in insertion order. *)
Definition record := list (pykey * pyval).

Definition pykey_eqb (a b : pykey) : bool :=
  match a, b with
  | KStr x, KStr y => String.eqb x y
  | KNone, KNone => true
  | _, _ => false
  end.

(** [d[k] = v]: an existing key keeps its position, a new key goes last. *)
Fixpoint dict_set (d : record) (k : pykey) (v : pyval) : record :=
  match d with
  | [] => [(k, v)]
  | (k', v') :: d' =>
      if pykey_eqb k k' then (k', v) :: d' else (k', v') :: dict_set d' k v
  end.

Fixpoint dict_get (d : record) (k : pykey) : option pyval :=
  match d with
  | [] => None
  | (k', v) :: d' => if pykey_eqb k k' then Some v else dict_get d' k
  end.

(** [dict(pairs)] / successive assignments. *)
Definition dict_of (l : list (pykey * pyval)) : record :=
  fold_left (fun d kv => dict_set d (fst kv) (snd kv)) l [].

Definition keys (d : record) : list pykey := map fst d.

(* ------------------------------------------------------------------ *)
(** ** Exceptions raised along the paths of [FileParser.parse]          *)
(* ------------------------------------------------------------------ *)

Inductive pyexc :=
| ValueError (msg : string)
| JSONDecodeError
| XMLParseError
| ConfigParserError (kind : string)
| TypeError (msg : string)
| CsvError (msg : string)
| FileNotFoundError (path : string).

Definition closed_file_msg : string := "I/O operation on closed file.".

(* ------------------------------------------------------------------ *)
(** ** [json.loads]: RFC 8259 plus Python's NaN / Infinity literals     *)
(* ------------------------------------------------------------------ *)

Module Json.

Definition is_ws (c : ascii) : bool :=
  Ascii.eqb c " "%char || Ascii.eqb c "009"%char || Ascii.eqb c "010"%char
  || Ascii.eqb c "013"%char.

Fixpoint skip_ws (l : list ascii) : list ascii :=
  match l with
  | c :: r => if is_ws c then skip_ws r else l
  | [] => []
  end.

Definition is_digit (c : ascii) : bool := (48 <=? code c) && (code c <=? 57).

Fixpoint span_digits (l : list ascii) : list ascii * list ascii :=
  match l with
  | c :: r => if is_digit c then let '(ds, r') := span_digits r in (c :: ds, r') else ([], l)
  | [] => ([], [])
  end.

Definition hex_val (c : ascii) : option nat :=
  let n := code c in
  if (48 <=? n) && (n <=? 57) then Some (n - 48)
  else if (97 <=? n) && (n <=? 102) then Some (n - 87)
  else if (65 <=? n) && (n <=? 70) then Some (n - 55)
  else None.

(** Python's [NUMBER_RE]: an optional minus, then 0 or a non-zero digit
    followed by digits, an optional fraction (a dot and at least one
    digit) and an optional exponent (e or E, a sign, at least one digit). *)
Definition pnumber (l : list ascii) : option (pyval * list ascii) :=
  let '(sign, l1) := match l with "-"%char :: r => (["-"%char], r) | _ => ([], l) end in
  let int_part :=
    match l1 with
    | "0"%char :: r => Some (["0"%char], r)
    | c :: _ => if is_digit c then Some (span_digits l1) else None
    | [] => None
    end in
  match int_part with
  | None => None
  | Some (ip, l2) =>
      let '(fp, l3) :=
        match l2 with
        | "."%char :: r =>
            match span_digits r with
            | ([], _) => ([], l2)
            | (ds, r') => ("."%char :: ds, r')
            end
        | _ => ([], l2)
        end in
      let '(ep, l4) :=
        match l3 with
        | e :: r =>
            if Ascii.eqb e "e"%char || Ascii.eqb e "E"%char then
              let '(sg, r1) :=
                match r with
                | s :: r1 => if Ascii.eqb s "+"%char || Ascii.eqb s "-"%char
                             then ([s], r1) else ([], r)
                | [] => ([], r)
                end in
              match span_digits r1 with
              | ([], _) => ([], l3)
              | (ds, r2) => (e :: sg ++ ds, r2)
              end
            else ([], l3)
        | [] => ([], l3)
        end in
      Some (PNum (string_of_list_ascii (sign ++ ip ++ fp ++ ep)), l4)
  end.

(** A string body after the opening quote; strict mode refuses control
    characters.  [\u] escapes are decoded for code points below 256, the
    character range of this model, and refused above it. *)
Fixpoint pstring (l : list ascii) (acc : list ascii) : option (string * list ascii) :=
  match l with
  | [] => None
  | c :: r =>
      if Ascii.eqb c "034"%char then Some (string_of_list_ascii (List.rev acc), r)
      else if code c <? 32 then None
      else if Ascii.eqb c "\"%char then
        match r with
        | e :: r' =>
            if Ascii.eqb e "034"%char then pstring r' ("034"%char :: acc)
            else if Ascii.eqb e "\"%char then pstring r' ("\"%char :: acc)
            else if Ascii.eqb e "/"%char then pstring r' ("/"%char :: acc)
            else if Ascii.eqb e "b"%char then pstring r' ("008"%char :: acc)
            else if Ascii.eqb e "f"%char then pstring r' ("012"%char :: acc)
            else if Ascii.eqb e "n"%char then pstring r' ("010"%char :: acc)
            else if Ascii.eqb e "r"%char then pstring r' ("013"%char :: acc)
            else if Ascii.eqb e "t"%char then pstring r' ("009"%char :: acc)
            else if Ascii.eqb e "u"%char then
              match r' with
              | h1 :: h2 :: h3 :: h4 :: r'' =>
                  match hex_val h1, hex_val h2, hex_val h3, hex_val h4 with
                  | Some a, Some b, Some c', Some d =>
                      let v := a * 4096 + b * 256 + c' * 16 + d in
                      if v <? 256 then pstring r'' (ascii_of_nat v :: acc) else None
                  | _, _, _, _ => None
                  end
              | _ => None
              end
            else None
        | [] => None
        end
      else pstring r (c :: acc)
  end.

Fixpoint pvalue (n : nat) (l : list ascii) {struct n} : option (pyval * list ascii) :=
  match n with
  | 0 => None
  | S n' =>
      match l with
      | "{"%char :: r =>
          match skip_ws r with
          | "}"%char :: r' => Some (PDict [], r')
          | l' => pobj n' l' []
          end
      | "["%char :: r =>
          match skip_ws r with
          | "]"%char :: r' => Some (PList [], r')
          | l' => parr n' l' []
          end
      | "034"%char :: r =>
          match pstring r [] with Some (s, r') => Some (PStr s, r') | None => None end
      | "n"%char :: "u"%char :: "l"%char :: "l"%char :: r => Some (PNone, r)
      | "t"%char :: "r"%char :: "u"%char :: "e"%char :: r => Some (PBool true, r)
      | "f"%char :: "a"%char :: "l"%char :: "s"%char :: "e"%char :: r => Some (PBool false, r)
      | _ =>
          match pnumber l with
          | Some res => Some res
          | None =>
              match l with
              | "N"%char :: "a"%char :: "N"%char :: r => Some (PNum "NaN", r)
              | "I"%char :: "n"%char :: "f"%char :: "i"%char :: "n"%char :: "i"%char
                  :: "t"%char :: "y"%char :: r => Some (PNum "Infinity", r)
              | "-"%char :: "I"%char :: "n"%char :: "f"%char :: "i"%char :: "n"%char
                  :: "i"%char :: "t"%char :: "y"%char :: r => Some (PNum "-Infinity", r)
              | _ => None
              end
          end
      end
  end
with parr (n : nat) (l : list ascii) (acc : list pyval) {struct n}
  : option (pyval * list ascii) :=
  match n with
  | 0 => None
  | S n' =>
      match pvalue n' l with
      | None => None
      | Some (v, r) =>
          match skip_ws r with
          | "]"%char :: r' => Some (PList (List.rev (v :: acc)), r')
          | ","%char :: r' => parr n' (skip_ws r') (v :: acc)
          | _ => None
          end
      end
  end
with pobj (n : nat) (l : list ascii) (acc : record) {struct n}
  : option (pyval * list ascii) :=
  match n with
  | 0 => None
  | S n' =>
      match l with
      | "034"%char :: r =>
          match pstring r [] with
          | None => None
          | Some (k, r1) =>
              match skip_ws r1 with
              | ":"%char :: r2 =>
                  match pvalue n' (skip_ws r2) with
                  | None => None
                  | Some (v, r3) =>
                      let acc' := dict_set acc (KStr k) v in
                      match skip_ws r3 with
                      | "}"%char :: r4 => Some (PDict acc', r4)
                      | ","%char :: r4 => pobj n' (skip_ws r4) acc'
                      | _ => None
                      end
                  end
              | _ => None
              end
          end
      | _ => None
      end
  end.

(** [json.loads(s)]: one value, surrounded by whitespace only; every
    recursive call consumes input, so twice the length bounds the depth. *)
Definition loads (s : string) : option pyval :=
  let l := list_ascii_of_string s in
  match pvalue (2 * List.length l + 2) (skip_ws l) with
  | Some (v, r) => match skip_ws r with [] => Some v | _ => None end
  | None => None
  end.

End Json.

(* ------------------------------------------------------------------ *)
(** ** [xml.etree.ElementTree.parse]                                    *)
(* ------------------------------------------------------------------ *)

(** The part of XML 1.0 that the model accepts: elements, attributes in
    single or double quotes (tabs and newlines normalised to spaces, as
    expat does), character data, the five predefined entities and
    character references below 256, comments and processing instructions
    (dropped, as [TreeBuilder] drops them).  Namespaces (names with a
    colon, [xmlns] attributes), DOCTYPE and CDATA sections are outside
    the model and refused. *)
Module Xml.

(** An [Element]: tag, [attrib] in document order, [text] (character data
    before the first child, [None] when there is none) and children. *)
Inductive element :=
| Element (tag : string) (attrib : list (string * string)) (text : option string)
          (children : list element).

Definition is_S (c : ascii) : bool :=
  Ascii.eqb c " "%char || Ascii.eqb c "009"%char || Ascii.eqb c "010"%char
  || Ascii.eqb c "013"%char.

Fixpoint skip_S (l : list ascii) : list ascii :=
  match l with
  | c :: r => if is_S c then skip_S r else l
  | [] => []
  end.

Definition is_letter (c : ascii) : bool :=
  let n := code c in
  ((65 <=? n) && (n <=? 90)) || ((97 <=? n) && (n <=? 122))
  || ((192 <=? n) && negb (n =? 215) && negb (n =? 247)).

Definition is_name_start (c : ascii) : bool := is_letter c || Ascii.eqb c "_"%char.

Definition is_name_char (c : ascii) : bool :=
  is_name_start c || Json.is_digit c || Ascii.eqb c "-"%char
  || Ascii.eqb c "."%char || (code c =? 183).

Fixpoint span_name (l : list ascii) : list ascii * list ascii :=
  match l with
  | c :: r => if is_name_char c then let '(n, r') := span_name r in (c :: n, r') else ([], l)
  | [] => ([], [])
  end.

Definition pname (l : list ascii) : option (string * list ascii) :=
  match l with
  | c :: _ => if is_name_start c then
                let '(n, r) := span_name l in Some (string_of_list_ascii n, r)
              else None
  | [] => None
  end.

Fixpoint span_until_semi (l : list ascii) : option (list ascii * list ascii) :=
  match l with
  | [] => None
  | c :: r => if Ascii.eqb c ";"%char then Some ([], r)
              else match span_until_semi r with
                   | Some (a, r') => Some (c :: a, r')
                   | None => None
                   end
  end.

Fixpoint dec_val (l : list ascii) (acc : nat) : option nat :=
  match l with
  | [] => Some acc
  | c :: r => if Json.is_digit c then dec_val r (acc * 10 + (code c - 48)) else None
  end.

Fixpoint hex_val_l (l : list ascii) (acc : nat) : option nat :=
  match l with
  | [] => Some acc
  | c :: r => match Json.hex_val c with
              | Some v => hex_val_l r (acc * 16 + v)
              | None => None
              end
  end.

(** A reference, after the [&]. *)
Definition pref (l : list ascii) : option (ascii * list ascii) :=
  match span_until_semi l with
  | None => None
  | Some (body, r) =>
      let s := string_of_list_ascii body in
      if String.eqb s "lt" then Some ("<"%char, r)
      else if String.eqb s "gt" then Some (">"%char, r)
      else if String.eqb s "amp" then Some ("&"%char, r)
      else if String.eqb s "apos" then Some ("'"%char, r)
      else if String.eqb s "quot" then Some ("034"%char, r)
      else
        let v := match body with
                 | "#"%char :: "x"%char :: h => match h with [] => None | _ => hex_val_l h 0 end
                 | "#"%char :: d => match d with [] => None | _ => dec_val d 0 end
                 | _ => None
                 end in
        match v with
        | Some n => if (0 <? n) && (n <? 256) then Some (ascii_of_nat n, r) else None
        | None => None
        end
  end.

(** An attribute value after its opening quote [q]; [n] bounds the
    characters read. *)
Fixpoint pattvalue (n : nat) (l : list ascii) (q : ascii) (acc : list ascii)
  : option (string * list ascii) :=
  match n with
  | 0 => None
  | S n' =>
      match l with
      | [] => None
      | c :: r =>
          if Ascii.eqb c q then Some (string_of_list_ascii (List.rev acc), r)
          else if Ascii.eqb c "<"%char then None
          else if Ascii.eqb c "&"%char then
            match pref r with
            | Some (ch, r') => pattvalue n' r' q (ch :: acc)
            | None => None
            end
          else if is_S c then pattvalue n' r q (" "%char :: acc)
          else pattvalue n' r q (c :: acc)
      end
  end.

(** The body of a comment after [<!--], up to [-->]; [--] is refused. *)
Fixpoint pcomment (l : list ascii) : option (list ascii) :=
  match l with
  | "-"%char :: "-"%char :: ">"%char :: r => Some r
  | "-"%char :: "-"%char :: _ => None
  | _ :: r => pcomment r
  | [] => None
  end.

(** A processing instruction after [<?], up to [?>]. *)
Fixpoint ppi (l : list ascii) : option (list ascii) :=
  match l with
  | "?"%char :: ">"%char :: r => Some r
  | _ :: r => ppi r
  | [] => None
  end.

(** Attributes after the tag name, up to [>] or [/>]; [true] marks an
    empty-element tag.  Duplicate attribute names are refused. *)
Fixpoint pattrs (n : nat) (l : list ascii) (acc : list (string * string))
  : option (list (string * string) * bool * list ascii) :=
  match n with
  | 0 => None
  | S n' =>
      match skip_S l with
      | ">"%char :: r => Some (List.rev acc, false, r)
      | "/"%char :: ">"%char :: r => Some (List.rev acc, true, r)
      | l' =>
          (* an attribute must be preceded by white space *)
          if bool_decide (l' = l) then None else
          match pname l' with
          | None => None
          | Some (a, r1) =>
              if String.eqb a "xmlns" then None else
              match skip_S r1 with
              | "="%char :: r2 =>
                  match skip_S r2 with
                  | q :: r3 =>
                      if Ascii.eqb q "034"%char || Ascii.eqb q "'"%char then
                        match pattvalue (List.length r3 + 1) r3 q [] with
                        | None => None
                        | Some (v, r4) =>
                            if existsb (fun kv => String.eqb (fst kv) a) acc then None
                            else pattrs n' r4 ((a, v) :: acc)
                        end
                      else None
                  | [] => None
                  end
              | _ => None
              end
          end
      end
  end.

Definition add_text (t : option (list ascii)) (c : ascii) : option (list ascii) :=
  match t with None => Some [c] | Some cs => Some (c :: cs) end.

Definition text_of (t : option (list ascii)) : option string :=
  option_map (fun cs => string_of_list_ascii (List.rev cs)) t.

(** An element after its [<]; the content loop collects the text before
    the first child (later character data is the children's tails). *)
Fixpoint pelement (n : nat) (l : list ascii) {struct n} : option (element * list ascii) :=
  match n with
  | 0 => None
  | S n' =>
      match pname l with
      | None => None
      | Some (t, r) =>
          match pattrs (List.length r + 1) r [] with
          | None => None
          | Some (attrs, true, r') => Some (Element t attrs None [], r')
          | Some (attrs, false, r') =>
              match pcontent n' r' t None [] with
              | None => None
              | Some (txt, kids, r'') => Some (Element t attrs (text_of txt) kids, r'')
              end
          end
      end
  end
with pcontent (n : nat) (l : list ascii) (t : string) (txt : option (list ascii))
  (kids : list element) {struct n} : option (option (list ascii) * list element * list ascii) :=
  match n with
  | 0 => None
  | S n' =>
      match l with
      | "<"%char :: "/"%char :: r =>
          match pname r with
          | Some (t', r1) =>
              if String.eqb t t' then
                match skip_S r1 with
                | ">"%char :: r2 => Some (txt, List.rev kids, r2)
                | _ => None
                end
              else None
          | None => None
          end
      | "<"%char :: "!"%char :: "-"%char :: "-"%char :: r =>
          match pcomment r with Some r' => pcontent n' r' t txt kids | None => None end
      | "<"%char :: "?"%char :: r =>
          match ppi r with Some r' => pcontent n' r' t txt kids | None => None end
      | "<"%char :: r =>
          match pelement n' r with
          | Some (e, r') => pcontent n' r' t txt (e :: kids)
          | None => None
          end
      | "&"%char :: r =>
          match pref r with
          | Some (c, r') =>
              pcontent n' r' t (match kids with [] => add_text txt c | _ => txt end) kids
          | None => None
          end
      | c :: r =>
          pcontent n' r t (match kids with [] => add_text txt c | _ => txt end) kids
      | [] => None
      end
  end.

(** White space, comments and processing instructions around the root. *)
Fixpoint pmisc (n : nat) (l : list ascii) {struct n} : option (list ascii) :=
  match n with
  | 0 => None
  | S n' =>
      match l with
      | "<"%char :: "!"%char :: "-"%char :: "-"%char :: r =>
          match pcomment r with Some r' => pmisc n' r' | None => None end
      | "<"%char :: "?"%char :: r =>
          match ppi r with Some r' => pmisc n' r' | None => None end
      | c :: r => if is_S c then pmisc n' r else Some l
      | [] => Some []
      end
  end.

(** [ET.parse(f).getroot()] on the text of [f]; [None] is a [ParseError]
    (in particular "no element found" on an empty document). *)
Definition parse_root (s : string) : option element :=
  let l := list_ascii_of_string s in
  let n := List.length l + 1 in
  match pmisc n l with
  | Some ("<"%char :: r) =>
      match pelement n r with
      | Some (e, r') =>
          match pmisc n r' with
          | Some [] => Some e
          | _ => None
          end
      | None => None
      end
  | _ => None
  end.

End Xml.

(* ------------------------------------------------------------------ *)
(** ** [configparser.ConfigParser] with its default settings            *)
(* ------------------------------------------------------------------ *)

(** Defaults of [ConfigParser()]: delimiters [=] and [:], full-line
    comment prefixes [#] and [;], no inline comments, [strict=True],
    [empty_lines_in_values=True], [default_section="DEFAULT"],
    [optionxform=str.lower], [BasicInterpolation].  The parser is fresh,
    so every section already present was added by this read, and a second
    header for it is a [DuplicateSectionError]. *)
Module Ini.

(** [assoc[k] = v] on an insertion-ordered association list. *)
Fixpoint aset {A} (d : list (string * A)) (k : string) (v : A) : list (string * A) :=
  match d with
  | [] => [(k, v)]
  | (k', v') :: d' => if String.eqb k k' then (k', v) :: d' else (k', v') :: aset d' k v
  end.

Fixpoint aget {A} (d : list (string * A)) (k : string) : option A :=
  match d with
  | [] => None
  | (k', v) :: d' => if String.eqb k k' then Some v else aget d' k
  end.

Definition amem {A} (d : list (string * A)) (k : string) : bool :=
  match aget d k with Some _ => true | None => false end.

Inductive cursect_t := CurDefault | CurSect (name : string).

Record rstate := {
  r_sections : list (string * list (string * list string));
  r_defaults : list (string * list string);
  r_cursect : option cursect_t;
  r_sectname : option string;
  r_optname : option string;
  r_indent : nat;
  r_added : list (option string * string);
  r_err : bool
}.

Definition init_state : rstate :=
  {| r_sections := []; r_defaults := []; r_cursect := None; r_sectname := None;
     r_optname := None; r_indent := 0; r_added := []; r_err := false |}.

Definition starts_with (s : string) (c : ascii) : bool :=
  match s with String c' _ => Ascii.eqb c c' | EmptyString => false end.

(** Index of the first non-space character ([NONSPACECRE.search]). *)
Fixpoint first_nonspace (l : list ascii) : nat :=
  match l with
  | c :: r => if is_space c then S (first_nonspace r) else 0
  | [] => 0
  end.

(** [SECTCRE = \[(?P<header>.+)\]] matched at the start: the header runs
    from after the opening bracket to the last closing bracket. *)
Definition sect_header (value : string) : option string :=
  match list_ascii_of_string value with
  | "["%char :: r =>
      let rr := List.rev r in
      let fix drop_to_bracket (l : list ascii) : option (list ascii) :=
        match l with
        | [] => None
        | c :: l' => if Ascii.eqb c "]"%char then Some l' else drop_to_bracket l'
        end in
      match drop_to_bracket rr with
      | Some ((_ :: _) as h) => Some (string_of_list_ascii (List.rev h))
      | _ => None
      end
  | _ => None
  end.

(** [OPTCRE]: the option is the text before the first [=] or [:] (its
    trailing spaces dropped by the pattern), the value the text after it. *)
Fixpoint opt_split (l : list ascii) (acc : list ascii) : option (string * string) :=
  match l with
  | [] => None
  | c :: r =>
      if Ascii.eqb c "="%char || Ascii.eqb c ":"%char
      then Some (string_of_list_ascii (List.rev acc), string_of_list_ascii r)
      else opt_split r (c :: acc)
  end.

Definition cur_map (st : rstate) : option (list (string * list string)) :=
  match r_cursect st with
  | Some CurDefault => Some (r_defaults st)
  | Some (CurSect n) => aget (r_sections st) n
  | None => None
  end.

Definition put_cur (st : rstate) (m : list (string * list string)) : rstate :=
  match r_cursect st with
  | Some CurDefault =>
      {| r_sections := r_sections st; r_defaults := m; r_cursect := r_cursect st;
         r_sectname := r_sectname st; r_optname := r_optname st; r_indent := r_indent st;
         r_added := r_added st; r_err := r_err st |}
  | Some (CurSect n) =>
      {| r_sections := aset (r_sections st) n m; r_defaults := r_defaults st;
         r_cursect := r_cursect st; r_sectname := r_sectname st; r_optname := r_optname st;
         r_indent := r_indent st; r_added := r_added st; r_err := r_err st |}
  | None => st
  end.

Definition nonempty (o : option string) : option string :=
  match o with Some (String _ _ as s) => Some s | _ => None end.

(** Append a line to the value of the current option. *)
Definition append_cur (st : rstate) (o : string) (v : string) : rstate :=
  match cur_map st with
  | Some m => put_cur st (aset m o (match aget m o with Some ls => app ls [v] | None => [v] end))
  | None => st
  end.

Definition with_indent (st : rstate) (i : nat) : rstate :=
  {| r_sections := r_sections st; r_defaults := r_defaults st; r_cursect := r_cursect st;
     r_sectname := r_sectname st; r_optname := r_optname st; r_indent := i;
     r_added := r_added st; r_err := r_err st |}.

Definition set_header (st : rstate) (secs : list (string * list (string * list string)))
  (c : cursect_t) (name : string) : rstate :=
  {| r_sections := secs; r_defaults := r_defaults st; r_cursect := Some c;
     r_sectname := Some name; r_optname := None; r_indent := r_indent st;
     r_added := r_added st; r_err := r_err st |}.

Definition set_option (st : rstate) (o : string) (added : list (option string * string))
  (err : bool) : rstate :=
  {| r_sections := r_sections st; r_defaults := r_defaults st; r_cursect := r_cursect st;
     r_sectname := r_sectname st; r_optname := Some o; r_indent := r_indent st;
     r_added := added; r_err := err |}.

Definition set_err (st : rstate) : rstate :=
  {| r_sections := r_sections st; r_defaults := r_defaults st; r_cursect := r_cursect st;
     r_sectname := r_sectname st; r_optname := r_optname st; r_indent := r_indent st;
     r_added := r_added st; r_err := true |}.

Definition added_mem (l : list (option string * string)) (x : option string * string) : bool :=
  existsb (fun y => bool_decide (y = x)) l.

(** One iteration of the loop of [RawConfigParser._read]. *)
Definition read_line (st : rstate) (line : string) : pyexc + rstate :=
  let comment := starts_with (strip line) "#"%char || starts_with (strip line) ";"%char in
  let value := if comment then "" else strip line in
  if String.eqb value "" then
    (* empty_lines_in_values: a blank line (not a comment) extends the value *)
    if negb comment then
      match r_cursect st, nonempty (r_optname st) with
      | Some _, Some o => inr (append_cur st o "")
      | _, _ => inr st
      end
    else inr st
  else
    let cur_indent := first_nonspace (list_ascii_of_string line) in
    let continuation :=
      match r_cursect st, nonempty (r_optname st) with
      | Some _, Some o => if r_indent st <? cur_indent then Some o else None
      | _, _ => None
      end in
    match continuation with
    | Some o => inr (append_cur st o value)
    | None =>
        let st := with_indent st cur_indent in
        match sect_header value with
        | Some h =>
            if amem (r_sections st) h then inl (ConfigParserError "DuplicateSectionError")
            else if String.eqb h "DEFAULT" then inr (set_header st (r_sections st) CurDefault h)
            else inr (set_header st (app (r_sections st) [(h, [])]) (CurSect h) h)
        | None =>
            match r_cursect st with
            | None => inl (ConfigParserError "MissingSectionHeaderError")
            | Some _ =>
                match opt_split (list_ascii_of_string value) [] with
                | Some (o, v) =>
                    let oname := lower (rstrip_by is_space o) in
                    let err := r_err st || String.eqb oname "" in
                    let key := (r_sectname st, oname) in
                    if added_mem (r_added st) key
                    then inl (ConfigParserError "DuplicateOptionError")
                    else
                      let st' := set_option st oname (app (r_added st) [key]) err in
                      match cur_map st' with
                      | Some m => inr (put_cur st' (aset m oname [strip v]))
                      | None => inr st'
                      end
                | None => inr (set_err st)
                end
            end
        end
    end.

Fixpoint read_lines (st : rstate) (lines : list string) : pyexc + rstate :=
  match lines with
  | [] => inr st
  | l :: ls => match read_line st l with inl e => inl e | inr st' => read_lines st' ls end
  end.

(** [_join_multiline_values]: ['\n'.join(val).rstrip()]. *)
Definition join_value (ls : list string) : string :=
  rstrip_by is_space (String.concat (String (ascii_of_nat 10) EmptyString) ls).

Definition join_map (m : list (string * list string)) : list (string * string) :=
  map (fun kv => (fst kv, join_value (snd kv))) m.

(** The parsed configuration: defaults and sections, values joined. *)
Record config := { c_defaults : list (string * string);
                   c_sections : list (string * list (string * string)) }.

(** [cfg.read_file(f)] on the lines of [f]. *)
Definition read_file (lines : list string) : pyexc + config :=
  match read_lines init_state lines with
  | inl e => inl e
  | inr st =>
      if r_err st then inl (ConfigParserError "ParsingError")
      else inr {| c_defaults := join_map (r_defaults st);
                  c_sections := map (fun sm => (fst sm, join_map (snd sm))) (r_sections st) |}
  end.

Definition sections (c : config) : list string := map fst (c_sections c).

(** [BasicInterpolation._interpolate_some]: [%%] is a percent sign,
    [%(name)s] the (recursively interpolated) value of [name];
    [depth] counts the nesting levels still allowed. *)
Fixpoint span_var (l : list ascii) (acc : list ascii) : option (string * list ascii) :=
  match l with
  | ")"%char :: "s"%char :: r =>
      match acc with [] => None | _ => Some (string_of_list_ascii (List.rev acc), r) end
  | ")"%char :: _ => None
  | c :: r => span_var r (c :: acc)
  | [] => None
  end.

Fixpoint interpolate (depth : nat) (m : list (string * string)) {struct depth}
  : nat -> list ascii -> option (list ascii) :=
  fix go (fuel : nat) (rest : list ascii) {struct fuel} : option (list ascii) :=
  match fuel with
  | 0 => Some []
  | S f =>
      match rest with
      | [] => Some []
      | "%"%char :: "%"%char :: r => option_map (cons "%"%char) (go f r)
      | "%"%char :: "("%char :: r =>
          match span_var r [] with
          | None => None
          | Some (var, r') =>
              match aget m (lower var) with
              | None => None
              | Some v =>
                  let vl := list_ascii_of_string v in
                  let head :=
                    if existsb (fun c => Ascii.eqb c "%"%char) vl then
                      match depth with
                      | 0 => None
                      | S d => interpolate d m (List.length vl + 1) vl
                      end
                    else Some vl in
                  match head, go f r' with
                  | Some a, Some b => Some (app a b)
                  | _, _ => None
                  end
              end
          end
      | "%"%char :: _ => None
      | c :: r => option_map (cons c) (go f r)
      end
  end.

(** [cfg.items(section)]: the defaults updated with the section, each
    value interpolated (nesting limited by [MAX_INTERPOLATION_DEPTH = 10]). *)
Definition items (c : config) (section : string) : pyexc + list (string * string) :=
  let d := fold_left (fun d kv => aset d (fst kv) (snd kv))
             (match aget (c_sections c) section with Some m => m | None => [] end)
             (c_defaults c) in
  let fix go (ks : list (string * string)) : pyexc + list (string * string) :=
    match ks with
    | [] => inr []
    | (k, v) :: ks' =>
        let vl := list_ascii_of_string v in
        match interpolate 9 d (List.length vl + 1) vl with
        | None => inl (ConfigParserError "InterpolationError")
        | Some a => match go ks' with
                    | inl e => inl e
                    | inr rest => inr ((k, string_of_list_ascii a) :: rest)
                    end
        end
    end in
  go d.

End Ini.

(* ------------------------------------------------------------------ *)
(** ** [csv.reader] (excel dialect) and [csv.DictReader]                *)
(* ------------------------------------------------------------------ *)

(** The reader of CPython's [_csv.c] with the excel dialect (the double quote
    as quote char, [doublequote=True], [skipinitialspace=False], [strict=False], no
    escape char), fed one line at a time and then an end-of-line mark.
    The field size limit is not modelled. *)
Module Csv.

Inductive cstate :=
| START_RECORD | START_FIELD | IN_FIELD | IN_QUOTED_FIELD | QUOTE_IN_QUOTED_FIELD | EAT_CRNL.

(** Reader state: finished fields of the row (reversed), the field being
    read (reversed) and the automaton state. *)
Record rstate := { fields : list string; field : list ascii; state : cstate }.

Definition reset : rstate := {| fields := []; field := []; state := START_RECORD |}.

Definition save_field (r : rstate) (s : cstate) : rstate :=
  {| fields := string_of_list_ascii (List.rev (field r)) :: fields r; field := []; state := s |}.

(** [csv.field_size_limit()], 131072 unless changed. *)
Definition field_limit : N := 131072%N.

Definition field_limit_error : pyexc := CsvError "field larger than field limit (131072)".

(** [parse_add_char]: refuses to grow a field that already holds
    [field_limit] characters. *)
Definition add_char (r : rstate) (c : ascii) (s : cstate) : pyexc + rstate :=
  if N.leb field_limit (N.of_nat (List.length (field r))) then inl field_limit_error
  else inr {| fields := fields r; field := c :: field r; state := s |}.

Definition goto (r : rstate) (s : cstate) : rstate :=
  {| fields := fields r; field := field r; state := s |}.

Definition is_crlf (c : ascii) : bool := Ascii.eqb c "010"%char || Ascii.eqb c "013"%char.

Definition quotechar : ascii := "034"%char.

(** [parse_process_char]; [None] stands for the end-of-line mark. *)
Definition process_char (d : ascii) (r : rstate) (c : option ascii) : pyexc + rstate :=
  let eol_or_crlf := match c with None => true | Some c => is_crlf c end in
  let after_nl := match c with None => START_RECORD | Some _ => EAT_CRNL end in
  let start_field (r : rstate) : pyexc + rstate :=
    if eol_or_crlf then inr (save_field r after_nl)
    else match c with
         | Some c => if Ascii.eqb c quotechar then inr (goto r IN_QUOTED_FIELD)
                     else if Ascii.eqb c d then inr (save_field r START_FIELD)
                     else add_char r c IN_FIELD
         | None => inr r
         end in
  match state r with
  | START_RECORD =>
      match c with
      | None => inr r
      | Some c' => if is_crlf c' then inr (goto r EAT_CRNL) else start_field (goto r START_FIELD)
      end
  | START_FIELD => start_field r
  | IN_FIELD =>
      if eol_or_crlf then inr (save_field r after_nl)
      else match c with
           | Some c => if Ascii.eqb c d then inr (save_field r START_FIELD)
                       else add_char r c IN_FIELD
           | None => inr r
           end
  | IN_QUOTED_FIELD =>
      match c with
      | None => inr r
      | Some c => if Ascii.eqb c quotechar then inr (goto r QUOTE_IN_QUOTED_FIELD)
                  else add_char r c IN_QUOTED_FIELD
      end
  | QUOTE_IN_QUOTED_FIELD =>
      match c with
      | Some c' =>
          if Ascii.eqb c' quotechar then add_char r c' IN_QUOTED_FIELD
          else if Ascii.eqb c' d then inr (save_field r START_FIELD)
          else if is_crlf c' then inr (save_field r EAT_CRNL)
          else add_char r c' IN_FIELD
      | None => inr (save_field r START_RECORD)
      end
  | EAT_CRNL =>
      match c with
      | None => inr (goto r START_RECORD)
      | Some c' =>
          if is_crlf c' then inr r
          else inl (CsvError "new-line character seen in unquoted field")
      end
  end.

Fixpoint process_chars (d : ascii) (r : rstate) (cs : list ascii) : pyexc + rstate :=
  match cs with
  | [] => process_char d r None
  | c :: cs' => match process_char d r (Some c) with
                | inl e => inl e
                | inr r' => process_chars d r' cs'
                end
  end.

(** Feed one line; [Some row] when the row is complete. *)
Definition feed_line (d : ascii) (r : rstate) (line : string)
  : pyexc + (rstate * option (list string)) :=
  match process_chars d r (list_ascii_of_string line) with
  | inl e => inl e
  | inr r' =>
      match state r' with
      | START_RECORD => inr (reset, Some (List.rev (fields r')))
      | _ => inr (r', None)
      end
  end.

(** End of input: a pending field (or an open quoted field) ends the row. *)
Definition flush (r : rstate) : option (list string) :=
  match field r, state r with
  | [], IN_QUOTED_FIELD => Some (List.rev (fields (save_field r START_RECORD)))
  | [], _ => None
  | _ :: _, _ => Some (List.rev (fields (save_field r START_RECORD)))
  end.

(** The row-to-dict step of [DictReader.__next__] ([restkey=None],
    [restval=None]). *)
Definition dict_row (fieldnames : list string) (row : list string) : record :=
  let d := dict_of (zip (map KStr fieldnames) (map PStr row)) in
  let lf := List.length fieldnames in
  let lr := List.length row in
  if lf <? lr then dict_set d KNone (PList (map PStr (drop lf row)))
  else if lr <? lf then fold_left (fun d k => dict_set d (KStr k) PNone) (drop lr fieldnames) d
  else d.

(** A completed row reaching [DictReader]: the first one is the header,
    later empty rows are skipped. *)
Definition dict_reader_row (fieldnames : option (list string)) (row : list string)
  : option (list string) * list record :=
  match fieldnames with
  | None => (Some row, [])
  | Some fn => match row with [] => (fieldnames, []) | _ => (fieldnames, [dict_row fn row]) end
  end.

End Csv.

(* ------------------------------------------------------------------ *)
(** ** Open files                                                        *)
(* ------------------------------------------------------------------ *)

(** A text file object: the lines not yet read, the [closed] flag and its
    [name] attribute ([""] when the object has none, as
    [getattr(path, "name", "")] reads it).  The contents are already
    decoded text: the encoding fallback of [_open_file] is not modelled. *)
Record handle := { h_lines : list string; h_closed : bool; h_name : string }.

(** All file objects alive, indexed by a handle number. *)
Abbreviation store := (list handle) (only parsing).

Definition set_lines (st : store) (f : nat) (ls : list string) : store :=
  match st !! f with
  | Some h => <[f := {| h_lines := ls; h_closed := h_closed h; h_name := h_name h |}]> st
  | None => st
  end.

(** [f.close()] *)
Definition close (st : store) (f : nat) : store :=
  match st !! f with
  | Some h => <[f := {| h_lines := h_lines h; h_closed := true; h_name := h_name h |}]> st
  | None => st
  end.

Definition closed_error : pyexc := ValueError closed_file_msg.

(** [iter(f)] / [f.read()] on a closed file raise [ValueError]. *)
Definition open_lines (st : store) (f : nat) : pyexc + list string :=
  match st !! f with
  | Some h => if h_closed h then inl closed_error else inr (h_lines h)
  | None => inl closed_error
  end.

(** [f.read()] / reading every line: the file is left at its end. *)
Definition read_all (st : store) (f : nat) : store * (pyexc + list string) :=
  match open_lines st f with
  | inl e => (st, inl e)
  | inr ls => (set_lines st f [], inr ls)
  end.

(** The lines [for line in f] yields for a file opened by [_open_file]
    with these contents: newlines are translated first, then the text is
    split after each "\n". *)
Definition file_lines (contents : string) : list string :=
  split_lines (universal_newlines contents).

(** [_open_file(path, encoding)]: a new file object named [path]. *)
Definition _open_file (fs : gmap string string) (st : store) (path : string)
  (encoding : option string) : pyexc + (store * nat) :=
  match fs !! path with
  | None => inl (FileNotFoundError path)
  | Some contents =>
      inr (app st [{| h_lines := file_lines contents; h_closed := false; h_name := path |}],
           List.length st)
  end.

(* ------------------------------------------------------------------ *)
(** ** [_guess_format] and the parser registry                         *)
(* ------------------------------------------------------------------ *)

Definition str_in (x : string) (l : list string) : bool := existsb (String.eqb x) l.

Definition _guess_format (path : string) : string :=
  let ext := lower (snd (splitext path)) in
  if str_in ext [".csv"] then "csv"
  else if str_in ext [".tsv"; ".tab"] then "tsv"
  else if str_in ext [".json"] then "json"
  else if str_in ext [".ndjson"; ".jsonl"] then "ndjson"
  else if str_in ext [".xml"] then "xml"
  else if str_in ext [".ini"; ".cfg"] then "ini"
  else if str_in ext [".txt"; ".log"] then "text"
  else "unknown".

(** The bound methods of [FileParser] that [parser_map] holds. *)
Inductive meth :=
| M_parse_csv | M_parse_tsv | M_parse_json | M_parse_ndjson | M_parse_xml
| M_parse_ini | M_parse_text | M_parse_fixed_width | M_parse_unknown.

Definition parser_map_list : list (string * meth) :=
  [("csv", M_parse_csv); ("tsv", M_parse_tsv); ("json", M_parse_json);
   ("ndjson", M_parse_ndjson); ("jsonl", M_parse_ndjson); ("xml", M_parse_xml);
   ("ini", M_parse_ini); ("text", M_parse_text); ("log", M_parse_text);
   ("fixed", M_parse_fixed_width); ("unknown", M_parse_unknown)].

(** [parser_map[fmt]], [None] when [fmt not in parser_map]. *)
Definition parser_map (fmt : string) : option meth := Ini.aget parser_map_list fmt.

(* ------------------------------------------------------------------ *)
(** ** The records each parser builds                                   *)
(* ------------------------------------------------------------------ *)

(** [_parse_json]: a list gives one record per item, a dict one record,
    anything else [{"value": data}]. *)
Definition json_item (item : pyval) : record :=
  match item with PDict d => d | _ => [(KStr "value", item)] end.

Definition json_records (data : pyval) : list record :=
  match data with
  | PList items => map json_item items
  | PDict d => [d]
  | _ => [[(KStr "value", data)]]
  end.

(** [_parse_ndjson], one line. *)
Definition ndjson_line (line : string) : list record :=
  let line := strip line in
  match line with
  | EmptyString => []
  | _ => match Json.loads line with
         | Some obj => [json_item obj]
         | None => [[(KStr "raw", PStr line)]]
         end
  end.

Definition text_of_sub (t : option string) : pyval :=
  match t with Some s => PStr s | None => PNone end.

(** [_parse_xml], one direct child of the root. *)
Definition xml_record (child : Xml.element) : record :=
  match child with
  | Xml.Element _ attrib text kids =>
      let rec0 := fold_left (fun d kv => dict_set d (KStr (fst kv)) (PStr (snd kv))) attrib [] in
      let rec :=
        fold_left
          (fun rec sub =>
             match sub with
             | Xml.Element stag _ stext _ =>
                 match dict_get rec (KStr stag) with
                 | Some (PList l) => dict_set rec (KStr stag) (PList (app l [text_of_sub stext]))
                 | Some v => dict_set rec (KStr stag) (PList [v; text_of_sub stext])
                 | None => dict_set rec (KStr stag) (text_of_sub stext)
                 end
             end) kids rec0 in
      match rec, text with
      | [], Some t =>
          match strip t with
          | EmptyString => rec
          | st => [(KStr "text", PStr st)]
          end
      | _, _ => rec
      end
  end.

Definition xml_children (root : Xml.element) : list Xml.element :=
  match root with Xml.Element _ _ _ kids => kids end.

(** [_parse_ini]: one record per section, stopping at the first
    interpolation error. *)
Fixpoint ini_records (c : Ini.config) (secs : list string) : list record * option pyexc :=
  match secs with
  | [] => ([], None)
  | s :: ss =>
      match Ini.items c s with
      | inl e => ([], Some e)
      | inr kvs =>
          let r := fold_left (fun d kv => dict_set d (KStr (fst kv)) (PStr (snd kv)))
                     kvs [(KStr "__section__", PStr s)] in
          let '(rs, e) := ini_records c ss in (r :: rs, e)
      end
  end.

(** [_parse_text], one line. *)
Definition text_record (i : nat) (line : string) : record :=
  [(KStr "line_no", PInt (Z.of_nat i)); (KStr "text", PStr (rstrip_nl line))].

(** [_parse_unknown], one line. *)
Definition unknown_record (i : nat) (line : string) : record :=
  [(KStr "line_no", PInt (Z.of_nat i)); (KStr "text", PStr (rstrip_nl line))].

(** [_parse_fixed_width]: the field loop over [zip(names, widths)]. *)
Fixpoint fixed_fields (raw : string) (pos : nat) (schema : list (string * nat)) (rec : record)
  : record :=
  match schema with
  | [] => rec
  | (name, width) :: sc =>
      let chunk := slice raw pos width in
      fixed_fields raw (pos + width) sc (dict_set rec (KStr name) (PStr (strip chunk)))
  end.

Definition total_width (schema : list (string * nat)) : nat := sum_list (map snd schema).

(** [_parse_fixed_width], one line. *)
Definition fixed_record (schema : list (string * nat)) (line_no : nat) (line : string) : record :=
  let raw := rstrip_nl line in
  let raw := ljust raw (total_width schema) in
  let rec := fixed_fields raw 0 schema [] in
  dict_set rec (KStr "_line_no") (PInt (Z.of_nat line_no)).

(* ------------------------------------------------------------------ *)
(** ** Generators                                                        *)
(* ------------------------------------------------------------------ *)

(** Where a line-by-line parser stands inside its [for line in f] loop. *)
Inductive lstate :=
| LCsv (delim : ascii) (fieldnames : option (list string)) (r : Csv.rstate)
| LNdjson
| LText (i : nat)
| LUnknown (i : nat)
| LFixed (schema : list (string * nat)) (line_no : nat).

(** One line through the loop body: the records it yields. *)
Definition lstep (ls : lstate) (line : string) : pyexc + (lstate * list record) :=
  match ls with
  | LCsv d fn r =>
      match Csv.feed_line d r line with
      | inl e => inl e
      | inr (r', None) => inr (LCsv d fn r', [])
      | inr (r', Some row) =>
          let '(fn', recs) := Csv.dict_reader_row fn row in inr (LCsv d fn' r', recs)
      end
  | LNdjson => inr (LNdjson, ndjson_line line)
  | LText i => inr (LText (S i), [text_record i line])
  | LUnknown i => inr (LUnknown (S i), [unknown_record i line])
  | LFixed sc i => inr (LFixed sc (S i), [fixed_record sc i line])
  end.

(** End of the file: the reader's pending row, if any. *)
Definition lend (ls : lstate) : list record :=
  match ls with
  | LCsv _ fn r =>
      match Csv.flush r with
      | Some row => snd (Csv.dict_reader_row fn row)
      | None => []
      end
  | _ => []
  end.

(** The generator's frame: not started, inside a line loop (with the
    records of the current line still to yield), iterating over an
    in-memory result (then possibly raising), or finished. *)
Inductive gstate :=
| GInit
| GLines (ls : lstate) (pending : list record)
| GBuf (pending : list record) (final : option pyexc)
| GDone.

(** A generator object [parser(f, csv_delimiter=..., fixed_schema=...)]:
    it holds a reference to the file object [g_f] of the store. *)
Record gen := {
  g_meth : meth;
  g_f : nat;
  g_delim : option string;
  g_schema : option (list (string * nat));
  g_state : gstate
}.

Definition with_state (g : gen) (s : gstate) : gen :=
  {| g_meth := g_meth g; g_f := g_f g; g_delim := g_delim g; g_schema := g_schema g;
     g_state := s |}.

Definition one_char (s : string) : option ascii :=
  match s with String c EmptyString => Some c | _ => None end.

Definition delimiter_error : pyexc :=
  TypeError (String.append (String "034"%char "delimiter")
                           (String "034"%char " must be a 1-character string")).

Definition fixed_schema_error : pyexc :=
  ValueError "fixed_schema is required for fixed-width parsing".

(** [csv.DictReader(f, delimiter=delim)]: [iter(f)] first, then the
    dialect check. *)
Definition csv_start (st : store) (f : nat) (delim : string) : pyexc + gstate :=
  match open_lines st f with
  | inl e => inl e
  | inr _ =>
      match one_char delim with
      | Some d => inr (GLines (LCsv d None Csv.reset) [])
      | None => inl delimiter_error
      end
  end.

(** The body of each parser up to its first [yield]-producing loop. *)
Definition gen_start (st : store) (g : gen) : store * (pyexc + gstate) :=
  let f := g_f g in
  match g_meth g with
  | M_parse_csv =>
      let delim := match g_delim g with Some d => d | None => "," end in
      (st, csv_start st f delim)
  | M_parse_tsv => (st, csv_start st f (String "009"%char EmptyString))
  | M_parse_json =>
      match read_all st f with
      | (st', inl e) => (st', inl e)
      | (st', inr ls) =>
          match Json.loads (concat_str ls) with
          | Some data => (st', inr (GBuf (json_records data) None))
          | None => (st', inl JSONDecodeError)
          end
      end
  | M_parse_ndjson => (st, inr (GLines LNdjson []))
  | M_parse_xml =>
      match read_all st f with
      | (st', inl e) => (st', inl e)
      | (st', inr ls) =>
          match Xml.parse_root (concat_str ls) with
          | Some root => (st', inr (GBuf (map xml_record (xml_children root)) None))
          | None => (st', inl XMLParseError)
          end
      end
  | M_parse_ini =>
      match read_all st f with
      | (st', inl e) => (st', inl e)
      | (st', inr ls) =>
          match Ini.read_file ls with
          | inl e => (st', inl e)
          | inr cfg =>
              let '(recs, err) := ini_records cfg (Ini.sections cfg) in
              (st', inr (GBuf recs err))
          end
      end
  | M_parse_text => (st, inr (GLines (LText 1) []))
  | M_parse_fixed_width =>
      match g_schema g with
      | None | Some [] => (st, inl fixed_schema_error)
      | Some sc => (st, inr (GLines (LFixed sc 1) []))
      end
  | M_parse_unknown => (st, inr (GLines (LUnknown 1) []))
  end.

(** Read lines until the loop body yields, the file ends, or it raises;
    returns the lines left unread. *)
Fixpoint pull (ls : lstate) (lines : list string)
  : list string * (pyexc + (lstate * list record)) :=
  match lines with
  | [] => ([], inr (ls, []))
  | l :: lines' =>
      match lstep ls l with
      | inl e => (lines', inl e)
      | inr (ls', []) => pull ls' lines'
      | inr (ls', recs) => (lines', inr (ls', recs))
      end
  end.

Inductive outcome := Yield (r : record) | Stop | Raise (e : pyexc).

Definition resume (st : store) (g : gen) (s : gstate) : store * gen * outcome :=
  match s with
  | GInit | GDone => (st, with_state g GDone, Stop)
  | GBuf (r :: rs) fin => (st, with_state g (GBuf rs fin), Yield r)
  | GBuf [] (Some e) => (st, with_state g GDone, Raise e)
  | GBuf [] None => (st, with_state g GDone, Stop)
  | GLines ls (r :: rs) => (st, with_state g (GLines ls rs), Yield r)
  | GLines ls [] =>
      match open_lines st (g_f g) with
      | inl e => (st, with_state g GDone, Raise e)
      | inr lines =>
          let '(rest, res) := pull ls lines in
          let st' := set_lines st (g_f g) rest in
          match res with
          | inl e => (st', with_state g GDone, Raise e)
          | inr (ls', []) =>
              match lend ls' with
              | [] => (st', with_state g GDone, Stop)
              | r :: rs => (st', with_state g (GBuf rs None), Yield r)
              end
          | inr (ls', r :: rs) => (st', with_state g (GLines ls' rs), Yield r)
          end
      end
  end.

(** [next(gen)]: an exception finishes the generator. *)
Definition gen_next (st : store) (g : gen) : store * gen * outcome :=
  match g_state g with
  | GInit =>
      match gen_start st g with
      | (st', inl e) => (st', with_state g GDone, Raise e)
      | (st', inr s) => resume st' g s
      end
  | s => resume st g s
  end.

(** [n] successive [next] calls, stopping at the first [Stop]/[Raise]. *)
Fixpoint take_n (n : nat) (st : store) (g : gen) : store * gen * list record * option outcome :=
  match n with
  | 0 => (st, g, [], None)
  | S n' =>
      match gen_next st g with
      | (st', g', Yield r) =>
          let '(st'', g'', rs, o) := take_n n' st' g' in (st'', g'', r :: rs, o)
      | (st', g', o) => (st', g', [], Some o)
      end
  end.

(** The whole loop, line after line, until the end or an exception. *)
Fixpoint run_lines (ls : lstate) (lines : list string)
  : list string * (pyexc + (lstate * list record)) :=
  match lines with
  | [] => ([], inr (ls, []))
  | l :: lines' =>
      match lstep ls l with
      | inl e => (lines', inl e)
      | inr (ls', recs) =>
          match run_lines ls' lines' with
          | (rest, inl e) => (rest, inl e)
          | (rest, inr (ls'', recs')) => (rest, inr (ls'', app recs recs'))
          end
      end
  end.

Definition drain_from (st : store) (g : gen) (s : gstate) : store * (pyexc + list record) :=
  match s with
  | GInit | GDone => (st, inr [])
  | GBuf p None => (st, inr p)
  | GBuf p (Some e) => (st, inl e)
  | GLines ls p =>
      match open_lines st (g_f g) with
      | inl e => (st, inl e)
      | inr lines =>
          let '(rest, res) := run_lines ls lines in
          let st' := set_lines st (g_f g) rest in
          match res with
          | inl e => (st', inl e)
          | inr (ls', recs) => (st', inr (app p (app recs (lend ls'))))
          end
      end
  end.

(** [list(gen)]: every record, or the exception that stopped it. *)
Definition drain (st : store) (g : gen) : store * (pyexc + list record) :=
  match g_state g with
  | GInit =>
      match gen_start st g with
      | (st', inl e) => (st', inl e)
      | (st', inr s) => drain_from st' g s
      end
  | s => drain_from st g s
  end.

(* ------------------------------------------------------------------ *)
(** ** [FileParser.parse]                                                *)
(* ------------------------------------------------------------------ *)

(** The [path] argument: a path string or a file-like object of the store. *)
Inductive source := SrcPath (p : string) | SrcStream (f : nat).

(** What [parse] returns: the generator, or the list. *)
Inductive parse_out := OutGen (g : gen) | OutList (l : list record).

Definition source_name (st : store) (path : source) : string :=
  match path with
  | SrcPath p => p
  | SrcStream f => match st !! f with Some h => h_name h | None => "" end
  end.

(** [fmt] after the first two statements of [parse]. *)
Definition resolve_fmt (st : store) (path : source) (fmt : option string) : string :=
  let fmt := match fmt with Some f => f | None => _guess_format (source_name st path) end in
  lower fmt.

Record FileParser := { encoding : option string }.

(** The [if isinstance(path, str)] block: [(store, f, close_after)]. *)
Definition open_source (self : FileParser) (fs : gmap string string) (st : store)
  (path : source) : pyexc + (store * nat * bool) :=
  match path with
  | SrcPath p =>
      match _open_file fs st p (encoding self) with
      | inl e => inl e
      | inr (st', f) => inr (st', f, true)
      end
  | SrcStream f => inr (st, f, false)
  end.

Definition parse (self : FileParser) (fs : gmap string string) (st : store) (path : source)
  (fmt : option string) (csv_delimiter : option string)
  (fixed_schema : option (list (string * nat))) (stream : bool)
  : store * (pyexc + parse_out) :=
  let fmt := resolve_fmt st path fmt in
  match parser_map fmt with
  | None => (st, inl (ValueError ("Unsupported format: " ++ fmt)))
  | Some parser =>
      match open_source self fs st path with
      | inl e => (st, inl e)
      | inr (st1, f, close_after) =>
          (* try: *)
          let g := {| g_meth := parser; g_f := f; g_delim := csv_delimiter;
                      g_schema := fixed_schema; g_state := GInit |} in
          let '(st2, res) :=
            if stream then (st1, inr (OutGen g))
            else match drain st1 g with
                 | (st2, inl e) => (st2, inl e)
                 | (st2, inr l) => (st2, inr (OutList l))
                 end in
          (* finally: *)
          let st3 := if close_after then close st2 f else st2 in
          (st3, res)
      end
  end.

(* ------------------------------------------------------------------ *)
(** ** The [--fixed-schema] option of [main]                          *)
(* ------------------------------------------------------------------ *)


(** [s.split(c)] with a one-character separator. *)
Fixpoint split_aux (c : ascii) (cur : list ascii) (s : list ascii) : list string :=
  match s with
  | [] => [string_of_list_ascii (List.rev cur)]
  | x :: s' =>
      if Ascii.eqb x c then string_of_list_ascii (List.rev cur) :: split_aux c [] s'
      else split_aux c (x :: cur) s'
  end.

Definition split_sep (s : string) (c : ascii) : list string :=
  split_aux c [] (list_ascii_of_string s).

(** [s.split(c, 1)] *)
Fixpoint split1_aux (c : ascii) (cur : list ascii) (s : list ascii) : list string :=
  match s with
  | [] => [string_of_list_ascii (List.rev cur)]
  | x :: s' =>
      if Ascii.eqb x c then [string_of_list_ascii (List.rev cur); string_of_list_ascii s']
      else split1_aux c (x :: cur) s'
  end.

Definition split_once (s : string) (c : ascii) : list string :=
  split1_aux c [] (list_ascii_of_string s).

(** [c in s] for a one-character [c]. *)
Definition contains_char (s : string) (c : ascii) : bool :=
  existsb (Ascii.eqb c) (list_ascii_of_string s).

(** The digits of a base-10 literal of [int()], with single underscores
    allowed between digits: the value and the number of digits. *)
Fixpoint dec_digits (l : list ascii) (acc : Z) (nd : nat) : option (Z * nat) :=
  match l with
  | [] => Some (acc, nd)
  | c :: l' =>
      if Json.is_digit c then dec_digits l' (acc * 10 + Z.of_nat (code c - 48))%Z (S nd)
      else if Ascii.eqb c "_"%char then
        match l' with
        | d :: _ => if Json.is_digit d then dec_digits l' acc nd else None
        | [] => None
        end
      else None
  end.

(** The limit of [sys.get_int_max_str_digits()] on the digits of a
    decimal literal. *)
Definition max_str_digits : nat := 4300.

Definition dec_literal (l : list ascii) : option Z :=
  match l with
  | c :: _ =>
      if Json.is_digit c then
        match dec_digits l 0 0 with
        | Some (v, nd) => if nd <=? max_str_digits then Some v else None
        | None => None
        end
      else None
  | [] => None
  end.

(** [int(s)] for a [str]: surrounding whitespace, an optional sign, then
    the digits; [None] where it raises [ValueError]. *)
Definition py_int (s : string) : option Z :=
  match list_ascii_of_string (strip s) with
  | "-"%char :: l => option_map Z.opp (dec_literal l)
  | "+"%char :: l => dec_literal l
  | l => dec_literal l
  end.

(** How the [--fixed-schema] block of [main] ends: with a schema (or
    [None]), with [return 2] after a message on stderr, with the
    [ValueError] of [int(width)] on that literal, or with another
    exception. *)
Inductive schema_res :=
| SchemaOk (fixed_schema : option (list (string * Z)))
| SchemaExit (stderr : string) (code : Z)
| SchemaIntError (literal : string)
| SchemaRaise (e : pyexc).

Definition schema_msg : string := "Invalid fixed-schema format, expected name:width".

(** The [for part in parts] loop. *)
Fixpoint schema_parts (parts : list string) (schema : list (string * Z)) : schema_res :=
  match parts with
  | [] => SchemaOk (Some schema)
  | part :: parts' =>
      if negb (contains_char part ":"%char) then SchemaExit schema_msg 2
      else
        match split_once part ":"%char with
        | [name; width] =>
            match py_int (strip width) with
            | Some w => schema_parts parts' (app schema [(strip name, w)])
            | None => SchemaIntError (strip width)
            end
        | _ => SchemaRaise (ValueError "not enough values to unpack (expected 2, got 1)")
        end
  end.

(** [fixed_schema] in [main], from [args.fixed_schema]. *)
Definition main_fixed_schema (arg : option string) : schema_res :=
  match arg with
  | None | Some EmptyString => SchemaOk None
  | Some a => schema_parts (split_sep a ","%char) []
  end.


(* ------------------------------------------------------------------ *)
(** ** Reading of the spec: the extension table of the Format Resolver  *)
(* ------------------------------------------------------------------ *)

(** The extension-to-tag table as the spec lists it. *)
Definition spec_ext_table : list (string * string) :=
  [(".csv", "csv"); (".tsv", "tsv"); (".tab", "tsv"); (".json", "json");
   (".ndjson", "ndjson"); (".jsonl", "ndjson"); (".xml", "xml");
   (".ini", "ini"); (".cfg", "ini"); (".txt", "text"); (".log", "text")].

(** The lowercase extension of a path. *)
Definition path_ext (path : string) : string := lower (snd (splitext path)).

(** The resolver as the spec describes it: table lookup, else unresolved. *)
Definition spec_resolve (path : string) : string :=
  match Ini.aget spec_ext_table (path_ext path) with Some t => t | None => "unknown" end.

(* ------------------------------------------------------------------ *)
(** ** Readings of the spec and the invariants of the proofs            *)
(* ------------------------------------------------------------------ *)

(** The record the spec describes for line [i] of a plain-text decode. *)
Definition spec_line_record (i : nat) (line : string) : record :=
  [(KStr "line_no", PInt (Z.of_nat i)); (KStr "text", PStr (rstrip_nl line))].

Fixpoint number_lines (mk : nat -> string -> record) (i : nat) (lines : list string)
  : list record :=
  match lines with
  | [] => []
  | l :: ls => mk i l :: number_lines mk (S i) ls
  end.

Definition mkgen (m : meth) (f : nat) (delim : option string)
  (sc : option (list (string * nat))) : gen :=
  {| g_meth := m; g_f := f; g_delim := delim; g_schema := sc; g_state := GInit |}.

(** Two stores hold the same file objects with the same [closed] flags. *)
Definition same_shape (st st' : store) : Prop :=
  List.length st' = List.length st /\
  forall f, option_map h_closed (st' !! f) = option_map h_closed (st !! f).

(** The source is an empty file: a path to an empty file, or an open file
    object with nothing left to read. *)
Definition empty_source (fs : gmap string string) (st : store) (src : source) : Prop :=
  match src with
  | SrcPath p => fs !! p = Some ""
  | SrcStream f => exists h, st !! f = Some h /\ h_lines h = [] /\ h_closed h = false
  end.

(** The decoders C4 covers once amended: every registered one except the
    two whole-document decoders, with a one-character delimiter (or none)
    for csv and a non-empty schema for fixed. *)
Definition empty_ok (m : meth) (delim : option string)
  (sc : option (list (string * nat))) : Prop :=
  match m with
  | M_parse_csv => delim = None \/ exists c, delim = Some (String c EmptyString)
  | M_parse_fixed_width => exists x xs, sc = Some (x :: xs)
  | M_parse_json | M_parse_xml => False
  | _ => True
  end.

Definition set_none (ks : list pykey) (d : record) : record :=
  fold_left (fun d k => dict_set d k PNone) ks d.

(** The field names of a header, as [DictReader] sets them on a row
    that is not longer than the header. *)
Definition header_keys (fn : list string) : list pykey := keys (set_none (map KStr fn) []).

(** [fno'] keeps the header [fno] once it is read. *)
Definition hdr_ext (fno fno' : option (list string)) : Prop :=
  forall fn, fno = Some fn -> fno' = Some fn.

(** Every record is [DictReader]'s dict of a non-empty row under the
    header [fno]. *)
Definition rows_of (fno : option (list string)) (recs : list record) : Prop :=
  Forall (fun rec => exists fn row, fno = Some fn /\ row <> [] /\ rec = Csv.dict_row fn row) recs.

(** The delimited decoders. *)
Definition delimited (m : meth) : Prop := m = M_parse_csv \/ m = M_parse_tsv.

(** The frame of a delimited generator whose records so far are all rows
    of the header [fno]. *)
Definition csv_inv (fno : option (list string)) (s : gstate) : Prop :=
  match s with
  | GInit => fno = None
  | GLines (LCsv _ fno' _) p => fno' = fno /\ rows_of fno p
  | GLines _ _ => False
  | GBuf p None => rows_of fno p
  | GBuf _ (Some _) => False
  | GDone => True
  end.

(** The field names of every fixed-width record under [schema]. *)
Definition fixed_keys (schema : list (string * nat)) : list pykey :=
  keys (fixed_record schema 0 "").

Definition keyed (ks : list pykey) (recs : list record) : Prop :=
  Forall (fun rec => keys rec = ks) recs.

(** The frame of a fixed-width generator over [schema]. *)
Definition fixed_inv (sc : list (string * nat)) (g : gen) : Prop :=
  match g_state g with
  | GInit => g_schema g = Some sc
  | GLines (LFixed sc' _) p => sc' = sc /\ keyed (fixed_keys sc) p
  | GLines _ _ => False
  | GBuf p None => keyed (fixed_keys sc) p
  | GBuf _ (Some _) => False
  | GDone => True
  end.

(** The fixed-width fields as the spec describes them: at each declared
    position, the whitespace-trimmed slice of the declared width. *)
Fixpoint spec_fields (raw : string) (pos : nat) (schema : list (string * nat)) : record :=
  match schema with
  | [] => []
  | (name, width) :: sc =>
      (KStr name, PStr (strip (substring pos width raw))) :: spec_fields raw (pos + width) sc
  end.

(** The record the spec describes for line [i] of a fixed-width decode:
    the fields in schema order, then [_line_no]. *)
Definition spec_fixed_record (sc : list (string * nat)) (i : nat) (line : string) : record :=
  app (spec_fields (ljust (rstrip_nl line) (total_width sc)) 0 sc)
      [(KStr "_line_no", PInt (Z.of_nat i))].

(** The field names of the records of one delimited run: [DictReader]
    dicts of one header [hdr], with the header's names, and the overflow
    key [None] exactly on rows longer than the header. *)
Definition csv_run_keys (recs : list record) : Prop :=
  exists hdr, Forall (fun rec => exists row,
    rec = Csv.dict_row hdr row /\
    keys rec = app (header_keys hdr)
                   (if List.length hdr <? List.length row then [KNone] else [])) recs.

(** [st'] and [g'] are reached from [st] and [g] by [next] calls that
    yield [rs] and then end with [o]. *)
Definition yields (st : store) (g : gen) (rs : list record) (st' : store) (g' : gen)
  (o : outcome) : Prop :=
  take_n (S (List.length rs)) st g = (st', g', rs, Some o).

(** What [list(gen)] gives from the frame [s] agrees with the [next]
    calls: the same records, in order, then the same end. *)
Definition agrees (st : store) (g : gen) (s : gstate) : Prop :=
  match drain_from st g s with
  | (st', inr recs) => yields st (with_state g s) recs st' (with_state g GDone) Stop
  | (st', inl e) => exists rs, yields st (with_state g s) rs st' (with_state g GDone) (Raise e)
  end.


(** The texts of the sub-elements of tag [t], in document order. *)
Fixpoint sub_texts (t : string) (kids : list Xml.element) : list pyval :=
  match kids with
  | [] => []
  | Xml.Element stag _ stext _ :: ks =>
      if String.eqb stag t then text_of_sub stext :: sub_texts t ks else sub_texts t ks
  end.

(** What the sub-element loop of [_parse_xml] leaves under one key: a
    first text is stored, a second turns the value into a list, further
    ones are appended to it. *)
Fixpoint xml_merge (o : option pyval) (ts : list pyval) : option pyval :=
  match ts with
  | [] => o
  | v :: vs =>
      match o with
      | Some (PList l) => xml_merge (Some (PList (app l [v]))) vs
      | Some w => xml_merge (Some (PList [w; v])) vs
      | None => xml_merge (Some v) vs
      end
  end.


(** A writer for the excel dialect with every field quoted: quotes inside
    a field are doubled, fields are joined by the delimiter, and the line
    ends with a newline. *)
Fixpoint quote_chars (cs : list ascii) : list ascii :=
  match cs with
  | [] => []
  | c :: cs' =>
      if Ascii.eqb c Csv.quotechar then c :: c :: quote_chars cs' else c :: quote_chars cs'
  end.

Definition quote_field (f : string) : list ascii :=
  Csv.quotechar :: app (quote_chars (list_ascii_of_string f)) [Csv.quotechar].

Fixpoint join_fields (d : ascii) (fs : list string) : list ascii :=
  match fs with
  | [] => []
  | [f] => quote_field f
  | f :: fs' => app (quote_field f) (d :: join_fields d fs')
  end.

Definition quoted_line (d : ascii) (fs : list string) : string :=
  string_of_list_ascii (app (join_fields d fs) ["010"%char]).

(** The delimiter character the reader of a delimited parser uses. *)
Definition delim_char (m : meth) (delim : option string) : option ascii :=
  match m with
  | M_parse_csv => match delim with None => Some ","%char | Some s => one_char s end
  | M_parse_tsv => Some "009"%char
  | _ => None
  end.

(** A CSV text written by the writer above: one quoted line per row. *)
Definition quoted_text (d : ascii) (rows : list (list string)) : string :=
  concat_str (map (quoted_line d) rows).

Definition nonempty_row (row : list string) : bool :=
  match row with [] => false | _ => true end.

(** Decimal form of a width, as [str(w)] writes it. *)
Definition dchar (n : nat) : ascii := ascii_of_nat (48 + n).

Fixpoint ndigits (fuel n : nat) : list ascii :=
  match fuel with
  | 0 => []
  | S f => if n <? 10 then [dchar n] else app (ndigits f (n / 10)) [dchar (n mod 10)]
  end.

Definition nat_dec (n : nat) : list ascii := ndigits (S n) n.

Definition z_dec (z : Z) : string :=
  let l := nat_dec (Z.to_nat (Z.abs z)) in
  string_of_list_ascii (if (z <? 0)%Z then "-"%char :: l else l).

(** [c.join(l)] *)
Fixpoint join_sep (c : ascii) (l : list string) : string :=
  match l with
  | [] => ""
  | [x] => x
  | x :: l' => x ++ String c (join_sep c l')
  end.

(** A [--fixed-schema] argument written from a schema: [name:width] pairs
    joined by commas. *)
Definition schema_arg (sc : list (string * Z)) : string :=
  join_sep ","%char (map (fun nw => fst nw ++ String ":"%char (z_dec (snd nw))) sc).

Definition dstep (acc : Z) (c : ascii) : Z := (acc * 10 + Z.of_nat (code c - 48))%Z.

(** What a name of a schema must be for [name:width] to come back. *)
Definition plain_name (n : string) : Prop :=
  ~ In ","%char (list_ascii_of_string n) /\ ~ In ":"%char (list_ascii_of_string n) /\
  strip n = n.

(** The reader's maps have no repeated option name. *)



(** The defaults overridden by the options of section [s], as [items] builds them before interpolating. *)
(** The map [cfg.items(section)] interpolates: the defaults updated with
    the section's options. *)
Definition ini_merged (c : Ini.config) (s : string) : list (string * string) :=
  fold_left (fun d kv => Ini.aset d (fst kv) (snd kv))
    (match Ini.aget (Ini.c_sections c) s with Some m => m | None => [] end) (Ini.c_defaults c).







(** The [text] field of a record, [""] when there is none. *)

Definition line_text (r : record) : string :=
  match dict_get r (KStr "text") with Some (PStr t) => t | _ => "" end.

(** The [text] fields, each followed by a newline, end to end. *)
Definition text_join (recs : list record) : string :=
  concat_str (map (fun r => line_text r ++ String "010"%char EmptyString) recs).

(** The newline missing at the end of [s], if any. *)
Definition newline_end (s : string) : string :=
  match List.rev (list_ascii_of_string s) with
  | [] => ""
  | c :: _ => if is_nl c then "" else String "010"%char EmptyString
  end.

(** [newline_end] on a list of characters. *)
Definition nl_fix (l : list ascii) : list ascii :=
  match List.rev l with [] => [] | c :: _ => if is_nl c then [] else ["010"%char] end.

(** What a caller sees of [n] calls of [next]: the store, where the
    generator stands, the records and how it stopped. *)
Definition run_view (x : store * gen * list record * option outcome)
  : store * gstate * list record * option outcome :=
  let '(s, g, rs, o) := x in (s, g_state g, rs, o).

(** The options that [g_meth g] reads agree in [g] and [g']. *)
Definition same_used_opts (g g' : gen) : Prop :=
  g_meth g' = g_meth g /\ g_f g' = g_f g /\ g_state g' = g_state g /\
  (g_meth g = M_parse_csv -> g_delim g' = g_delim g) /\
  (g_meth g = M_parse_fixed_width -> g_schema g' = g_schema g).

(** Every option name the reader holds satisfies [P]. *)
Definition ini_keys (P : string -> Prop) (st : Ini.rstate) : Prop :=
  Forall P (map fst (Ini.r_defaults st)) /\
  Forall (fun sm => Forall P (map fst (snd sm))) (Ini.r_sections st) /\
  match Ini.r_optname st with Some o => P o | None => True end.


(** A section header line as [for line in f] yields it. *)
Definition header_line (h : string) : string :=
  String "["%char (h ++ String "]"%char (String "010"%char EmptyString)).

(** The section names only grow. *)
Definition sections_extend (st st' : Ini.rstate) : Prop :=
  exists ext, map fst (Ini.r_sections st') = app (map fst (Ini.r_sections st)) ext.




(* ================================================================== *)
(** * Properties                                                        *)
(* ================================================================== *)

Lemma aget_not_in {A} (d : list (string * A)) (k : string) :
  ~ In k (map fst d) -> Ini.aget d k = None.
Proof.
  induction d as [|[k' v] d IH]; simpl; intros Hn; [reflexivity|].
  destruct (String.eqb_spec k k'); [subst; exfalso; tauto|].
  apply IH. tauto.
Qed.

Lemma guess_format_table (path : string) : _guess_format path = spec_resolve path.
Proof.
  unfold _guess_format, spec_resolve, path_ext, str_in. simpl.
  generalize (lower (snd (splitext path))) as e. intros e.
  repeat match goal with
         | |- context [String.eqb ?a ?b] => destruct (String.eqb a b)
         end; reflexivity.
Qed.

(** C8: the Format Resolver is the spec's extension table (lowercased
    extension; unresolved for any other or no extension), and an explicit
    format argument replaces the resolver entirely. *)
Theorem guess_format_spec :
  (forall path, _guess_format path = spec_resolve path) /\
  (forall path ext tag, In (ext, tag) spec_ext_table -> path_ext path = ext ->
     _guess_format path = tag) /\
  (forall path, ~ In (path_ext path) (map fst spec_ext_table) ->
     _guess_format path = "unknown") /\
  (forall st st' src src' f, resolve_fmt st src (Some f) = lower f /\
     resolve_fmt st src (Some f) = resolve_fmt st' src' (Some f)).
Proof.
  split; [exact guess_format_table|].
  split; [|split].
  - intros path ext tag Hin Hext. rewrite guess_format_table. unfold spec_resolve.
    rewrite Hext.
    simpl in Hin; repeat destruct Hin as [Hin|Hin]; try inversion Hin; subst; reflexivity.
  - intros path Hn. rewrite guess_format_table. unfold spec_resolve.
    rewrite (aget_not_in _ _ Hn). reflexivity.
  - intros. split; reflexivity.
Qed.

(** C9: a format tag outside [parser_map] makes [parse] raise
    [ValueError("Unsupported format: <tag>")] with the store untouched:
    nothing is opened and nothing is decoded. *)
Theorem unsupported_format_error (self : FileParser) (fs : gmap string string) (st : store)
  (src : source) (fmt delim : option string) (sc : option (list (string * nat)))
  (stream : bool) :
  ~ In (resolve_fmt st src fmt) (map fst parser_map_list) ->
  parse self fs st src fmt delim sc stream =
    (st, inl (ValueError ("Unsupported format: " ++ resolve_fmt st src fmt))).
Proof.
  intros Hn. unfold parse, parser_map. rewrite (aget_not_in _ _ Hn). reflexivity.
Qed.

Lemma unsupported_format_error_witness :
  ~ In (resolve_fmt [] (SrcPath "report.pdf") (Some "PDF")) (map fst parser_map_list) /\
  parse {| encoding := None |} ∅ [] (SrcPath "report.pdf") (Some "PDF") None None true =
    ([], inl (ValueError "Unsupported format: pdf")).
Proof.
  assert (H : ~ In (resolve_fmt [] (SrcPath "report.pdf") (Some "PDF"))
                   (map fst parser_map_list))
    by (vm_compute; intros Hin; repeat destruct Hin as [Hin|Hin]; first [discriminate | contradiction]).
  split; [exact H|].
  exact (unsupported_format_error {| encoding := None |} ∅ [] (SrcPath "report.pdf")
           (Some "PDF") None None true H).
Defined.

(* ------------------------------------------------------------------ *)
(** ** The line loops of [_parse_text] and [_parse_unknown]             *)
(* ------------------------------------------------------------------ *)

Lemma run_lines_unknown (lines : list string) (i : nat) :
  run_lines (LUnknown i) lines =
    ([], inr (LUnknown (i + List.length lines), number_lines spec_line_record i lines)).
Proof.
  revert i; induction lines as [|l ls IH]; intros i; simpl.
  - rewrite Nat.add_0_r. reflexivity.
  - rewrite IH. replace (S i + List.length ls) with (i + S (List.length ls)) by lia.
    reflexivity.
Qed.

Lemma run_lines_text (lines : list string) (i : nat) :
  run_lines (LText i) lines =
    ([], inr (LText (i + List.length lines), number_lines spec_line_record i lines)).
Proof.
  revert i; induction lines as [|l ls IH]; intros i; simpl.
  - rewrite Nat.add_0_r. reflexivity.
  - rewrite IH. replace (S i + List.length ls) with (i + S (List.length ls)) by lia.
    reflexivity.
Qed.

Lemma drain_unknown (st : store) (f : nat) delim sc :
  drain st (mkgen M_parse_unknown f delim sc) =
    match open_lines st f with
    | inl e => (st, inl e)
    | inr lines => (set_lines st f [], inr (number_lines spec_line_record 1 lines))
    end.
Proof.
  unfold drain. simpl. destruct (open_lines st f); [reflexivity|].
  rewrite run_lines_unknown. simpl. rewrite app_nil_r. reflexivity.
Qed.

Lemma drain_text (st : store) (f : nat) delim sc :
  drain st (mkgen M_parse_text f delim sc) =
    match open_lines st f with
    | inl e => (st, inl e)
    | inr lines => (set_lines st f [], inr (number_lines spec_line_record 1 lines))
    end.
Proof.
  unfold drain. simpl. destruct (open_lines st f); [reflexivity|].
  rewrite run_lines_text. simpl. rewrite app_nil_r. reflexivity.
Qed.

Lemma open_lines_new (st : store) (p : string) (ls : list string) :
  open_lines (app st [{| h_lines := ls; h_closed := false; h_name := p |}])
    (List.length st) = inr ls.
Proof.
  unfold open_lines. rewrite lookup_app_r by lia. rewrite Nat.sub_diag. reflexivity.
Qed.

(** C10: the unresolved tag is registered: it selects [_parse_unknown],
    whose output is the plain-text decoder's, one record
    [{line_no: i, text: line without its newline}] per line, blank lines
    included, the lines of a file being those text mode reads ("\r\n"
    and "\r" end a line and read as "\n"); [parse] raises no format
    error for it. *)
Theorem unknown_format_decodes_lines (self : FileParser) (fs : gmap string string)
  (st : store) (src : source) (fmt delim : option string)
  (sc : option (list (string * nat))) :
  resolve_fmt st src fmt = "unknown" ->
  parser_map (resolve_fmt st src fmt) = Some M_parse_unknown /\
  (forall st' f, drain st' (mkgen M_parse_unknown f delim sc)
                 = drain st' (mkgen M_parse_text f delim sc)) /\
  (forall stream,
     match open_source self fs st src with
     | inl e => parse self fs st src fmt delim sc stream = (st, inl e)
     | inr (st1, f, _) =>
         stream = true ->
         snd (parse self fs st src fmt delim sc stream)
           = inr (OutGen (mkgen M_parse_unknown f delim sc))
     end) /\
  (forall p contents, src = SrcPath p -> fs !! p = Some contents ->
     snd (parse self fs st src fmt delim sc false)
       = inr (OutList (number_lines spec_line_record 1 (file_lines contents)))) /\
  (forall f h, src = SrcStream f -> st !! f = Some h -> h_closed h = false ->
     snd (parse self fs st src fmt delim sc false)
       = inr (OutList (number_lines spec_line_record 1 (h_lines h)))).
Proof.
  intros Hu. rewrite Hu. split; [reflexivity|]. split.
  { intros st' f. rewrite drain_unknown, drain_text. reflexivity. }
  split; [|split].
  - intros stream. unfold parse. rewrite Hu. simpl.
    destruct (open_source self fs st src) as [e|[[st1 f] ca]]; [reflexivity|].
    intros ->. destruct ca; reflexivity.
  - intros p contents -> Hp. unfold parse. rewrite Hu. simpl.
    unfold _open_file. rewrite Hp.
    pose proof (drain_unknown (app st [{| h_lines := file_lines contents; h_closed := false;
                                         h_name := p |}]) (List.length st) delim sc) as D.
    unfold mkgen in D. rewrite D, open_lines_new. reflexivity.
  - intros f h -> Hf Hc. unfold parse. rewrite Hu. simpl.
    pose proof (drain_unknown st f delim sc) as D. unfold mkgen in D. rewrite D.
    unfold open_lines. rewrite Hf, Hc. reflexivity.
Qed.

Lemma unknown_format_decodes_lines_witness :
  resolve_fmt [] (SrcPath "notes") None = "unknown" /\
  snd (parse {| encoding := None |}
         (<["notes" := "a" ++ String "013"%char (String "010"%char ("b" ++ String "013"%char "c"))]> ∅)
         [] (SrcPath "notes") None None None false)
    = inr (OutList [spec_line_record 1 "a
"; spec_line_record 2 "b
"; spec_line_record 3 "c"]).
Proof.
  split; [reflexivity|].
  destruct (unknown_format_decodes_lines {| encoding := None |}
    (<["notes" := "a" ++ String "013"%char (String "010"%char ("b" ++ String "013"%char "c"))]> ∅)
    [] (SrcPath "notes") None None None eq_refl) as (_ & _ & _ & H & _).
  rewrite (H "notes" _ eq_refl eq_refl). vm_compute. reflexivity.
Defined.

(* ------------------------------------------------------------------ *)
(** ** Which file objects are open                                       *)
(* ------------------------------------------------------------------ *)

Lemma same_shape_refl (st : store) : same_shape st st.
Proof. split; reflexivity. Qed.

Lemma same_shape_trans (a b c : store) : same_shape a b -> same_shape b c -> same_shape a c.
Proof.
  intros [L1 H1] [L2 H2]. split; [congruence|]. intros f. rewrite H2. apply H1.
Qed.

Lemma set_lines_shape (st : store) (f : nat) (ls : list string) :
  same_shape st (set_lines st f ls).
Proof.
  unfold set_lines. destruct (st !! f) as [h|] eqn:E; [|apply same_shape_refl].
  split; [apply length_insert|]. intros g.
  destruct (decide (f = g)) as [<-|Hne].
  - rewrite list_lookup_insert_eq by (eapply lookup_lt_Some; eauto). rewrite E. reflexivity.
  - rewrite list_lookup_insert_ne by exact Hne. reflexivity.
Qed.

Create HintDb shape.
#[local] Hint Resolve same_shape_refl set_lines_shape : shape.

Lemma read_all_shape (st : store) (f : nat) : same_shape st (fst (read_all st f)).
Proof. unfold read_all. destruct (open_lines st f); simpl; auto with shape. Qed.

Lemma gen_start_shape (st : store) (g : gen) : same_shape st (fst (gen_start st g)).
Proof.
  unfold gen_start.
  destruct (g_meth g); simpl; auto with shape;
    try (destruct (g_schema g) as [[|]|]; simpl; auto with shape; fail);
    pose proof (read_all_shape st (g_f g)) as R;
    destruct (read_all st (g_f g)) as [st' [e|ls]]; simpl in *; auto;
    repeat case_match; simpl; auto.
Qed.

Lemma resume_shape (st : store) (g : gen) (s : gstate) :
  same_shape st (fst (fst (resume st g s))).
Proof.
  unfold resume. repeat case_match; simpl; auto with shape; subst;
    try (match goal with
         | H : pull _ _ = _ |- _ => rewrite H in *
         end); simpl in *; auto with shape;
    try (inversion H; subst; auto with shape).
Qed.

Lemma gen_next_shape (st : store) (g : gen) : same_shape st (fst (fst (gen_next st g))).
Proof.
  unfold gen_next. destruct (g_state g) eqn:E; try apply resume_shape.
  pose proof (gen_start_shape st g) as S.
  destruct (gen_start st g) as [st' [e|s]]; simpl in *; auto.
  eapply same_shape_trans; [exact S|apply resume_shape].
Qed.

Lemma drain_from_shape (st : store) (g : gen) (s : gstate) :
  same_shape st (fst (drain_from st g s)).
Proof.
  unfold drain_from. repeat case_match; simpl; auto with shape; subst;
    try (match goal with
         | H : run_lines _ _ = _ |- _ => rewrite H in *
         end); simpl in *; auto with shape;
    try (inversion H; subst; auto with shape).
Qed.

Lemma drain_shape (st : store) (g : gen) : same_shape st (fst (drain st g)).
Proof.
  unfold drain. destruct (g_state g) eqn:E; try apply drain_from_shape.
  pose proof (gen_start_shape st g) as S.
  destruct (gen_start st g) as [st' [e|s]]; simpl in *; auto.
  eapply same_shape_trans; [exact S|apply drain_from_shape].
Qed.

Lemma close_length (st : store) (f : nat) : List.length (close st f) = List.length st.
Proof. unfold close. destruct (st !! f); [apply length_insert|reflexivity]. Qed.

Lemma close_other (st : store) (f g : nat) : g <> f -> close st f !! g = st !! g.
Proof.
  intros Hne. unfold close. destruct (st !! f); [|reflexivity].
  apply list_lookup_insert_ne. congruence.
Qed.

Lemma close_self (st : store) (f : nat) (h : handle) :
  close st f !! f = Some h -> h_closed h = true.
Proof.
  unfold close. destruct (st !! f) as [h0|] eqn:E.
  - rewrite list_lookup_insert_eq by (eapply lookup_lt_Some; eauto).
    intros [= <-]. reflexivity.
  - rewrite E. discriminate.
Qed.

Lemma parse_store_cases (self : FileParser) (fs : gmap string string) (st : store)
  (src : source) (fmt delim : option string) (sc : option (list (string * nat)))
  (stream : bool) :
  let st' := fst (parse self fs st src fmt delim sc stream) in
  st' = st \/
  (exists f st2, src = SrcStream f /\ same_shape st st2 /\ st' = st2) \/
  (exists p h st2, src = SrcPath p /\ h_closed h = false /\
     same_shape (app st [h]) st2 /\ st' = close st2 (List.length st)).
Proof.
  cbv zeta. unfold parse. destruct (parser_map (resolve_fmt st src fmt)) as [m|];
    [|left; reflexivity].
  destruct src as [p|f]; simpl.
  - unfold _open_file. destruct (fs !! p) as [c|]; simpl; [|left; reflexivity].
    right; right.
    set (h := {| h_lines := file_lines c; h_closed := false; h_name := p |}).
    exists p, h. destruct stream; simpl.
    + exists (app st [h]). auto using same_shape_refl.
    + pose proof (drain_shape (app st [h])
                    {| g_meth := m; g_f := List.length st; g_delim := delim;
                       g_schema := sc; g_state := GInit |}) as D.
      destruct (drain _ _) as [st2 [e|l]]; exists st2; auto.
  - right; left. exists f. destruct stream; simpl.
    + exists st. auto using same_shape_refl.
    + pose proof (drain_shape st {| g_meth := m; g_f := f; g_delim := delim;
                                    g_schema := sc; g_state := GInit |}) as D.
      destruct (drain _ _) as [st2 [e|l]]; exists st2; auto.
Qed.

(** C2: when [parse] is given a path, the file object it opens is closed
    on every way out of the call (format error before opening, decoder
    exception, list or generator returned); a file object passed in, like
    every other file object already alive, keeps its [closed] flag, and
    consuming a generator never closes anything. *)
Theorem parse_releases_handles (self : FileParser) (fs : gmap string string) (st : store)
  (src : source) (fmt delim : option string) (sc : option (list (string * nat)))
  (stream : bool) :
  let st' := fst (parse self fs st src fmt delim sc stream) in
  (forall f, f < List.length st -> option_map h_closed (st' !! f) = option_map h_closed (st !! f)) /\
  (forall f h, List.length st <= f -> st' !! f = Some h -> h_closed h = true) /\
  (forall f, src = SrcStream f -> List.length st' = List.length st) /\
  (forall (st1 : store) (g : gen), same_shape st1 (fst (fst (gen_next st1 g)))).
Proof.
  cbv zeta.
  destruct (parse_store_cases self fs st src fmt delim sc stream)
    as [E|[(f0 & st2 & Hs & [L S] & E)|(p & h & st2 & Hs & Hh & [L S] & E)]];
    rewrite E; (split; [|split; [|split]]); try (intros; apply gen_next_shape).
  - reflexivity.
  - intros f h' Hf Hl. rewrite lookup_ge_None_2 in Hl by lia. discriminate.
  - reflexivity.
  - intros f _. apply S.
  - intros f h' Hf Hl. rewrite lookup_ge_None_2 in Hl by lia. discriminate.
  - intros; exact L.
  - intros f Hf. rewrite close_other by lia. rewrite S. rewrite lookup_app_l by lia.
    reflexivity.
  - intros f h' Hf Hl. rewrite length_app in L; simpl in L.
    destruct (decide (f = List.length st)) as [->|Hne]; [eapply close_self; eauto|].
    rewrite close_other in Hl by exact Hne.
    rewrite lookup_ge_None_2 in Hl by lia. discriminate.
  - intros f Hf. congruence.
Qed.

(* ------------------------------------------------------------------ *)
(** ** A fixed-width decode without a schema                             *)
(* ------------------------------------------------------------------ *)

(** C3 fails at [stream=true]: the call succeeds and returns a generator;
    the schema check only runs at the generator's first [next]. *)
Lemma fixed_without_schema_lazy_returns :
  parse {| encoding := None |} (<["d.txt" := "Al 5"]> ∅) [] (SrcPath "d.txt")
    (Some "fixed") None None true
  = ([{| h_lines := ["Al 5"]; h_closed := true; h_name := "d.txt" |}],
     inr (OutGen (mkgen M_parse_fixed_width 0 None None))).
Proof. reflexivity. Qed.

(** C3 (amended): with format [fixed] and no schema ([None] or [[]]),
    once the source is open, [stream=false] raises the configuration error
    and [stream=true] returns a generator whose first [next] raises it;
    in both cases no line is read (the store is the freshly opened one,
    only closed when [parse] opened it).  A path that cannot be opened
    raises its open error first. *)
Theorem fixed_without_schema_error (self : FileParser) (fs : gmap string string)
  (st : store) (src : source) (fmt delim : option string)
  (sc : option (list (string * nat))) :
  resolve_fmt st src fmt = "fixed" -> (sc = None \/ sc = Some []) ->
  match open_source self fs st src with
  | inl e => forall stream, parse self fs st src fmt delim sc stream = (st, inl e)
  | inr (st1, f, ca) =>
      let st3 := if ca then close st1 f else st1 in
      parse self fs st src fmt delim sc false = (st3, inl fixed_schema_error) /\
      parse self fs st src fmt delim sc true
        = (st3, inr (OutGen (mkgen M_parse_fixed_width f delim sc))) /\
      (forall st' : store,
         gen_next st' (mkgen M_parse_fixed_width f delim sc)
         = (st', with_state (mkgen M_parse_fixed_width f delim sc) GDone,
            Raise fixed_schema_error))
  end.
Proof.
  intros Hf Hsc. unfold parse. rewrite Hf. simpl.
  destruct (open_source self fs st src) as [e|[[st1 f] ca]]; [reflexivity|].
  cbv zeta. destruct Hsc as [-> | ->]; repeat split; reflexivity.
Qed.

Lemma fixed_without_schema_error_witness :
  parse {| encoding := None |} (<["d.txt" := "Al 5"]> ∅) [] (SrcPath "d.txt")
    (Some "fixed") None None false
  = ([{| h_lines := ["Al 5"]; h_closed := true; h_name := "d.txt" |}],
     inl fixed_schema_error).
Proof.
  pose proof (fixed_without_schema_error {| encoding := None |} (<["d.txt" := "Al 5"]> ∅) []
                (SrcPath "d.txt") (Some "fixed") None None eq_refl (or_introl eq_refl)) as H.
  simpl in H. destruct H as [H _]. exact H.
Defined.

(* ------------------------------------------------------------------ *)
(** ** Eager parse of an empty input                                      *)
(* ------------------------------------------------------------------ *)

(** C4 fails for [json]: [json.load] of an empty file raises
    [JSONDecodeError] out of [list(gen)]. *)
Lemma eager_empty_json_raises :
  parse {| encoding := None |} (<["empty.json" := ""]> ∅) [] (SrcPath "empty.json")
    None None None false
  = ([{| h_lines := []; h_closed := true; h_name := "empty.json" |}], inl JSONDecodeError).
Proof. reflexivity. Qed.

Lemma drain_empty (st : store) (f : nat) (m : meth) delim sc :
  open_lines st f = inr [] ->
  (empty_ok m delim sc -> snd (drain st (mkgen m f delim sc)) = inr []) /\
  (m = M_parse_json -> snd (drain st (mkgen m f delim sc)) = inl JSONDecodeError) /\
  (m = M_parse_xml -> snd (drain st (mkgen m f delim sc)) = inl XMLParseError).
Proof.
  intros Ho.
  split; [|split; intros ->; unfold drain, gen_start, read_all, mkgen;
              cbn [g_meth g_f g_state g_schema g_delim]; rewrite Ho; reflexivity].
  intros Hok. unfold drain, gen_start, read_all, drain_from, csv_start, mkgen;
    cbn [g_meth g_f g_state g_schema g_delim];
    destruct m; simpl in Hok; try contradiction; rewrite ?Ho; try reflexivity.
  - destruct Hok as [-> | [c ->]]; reflexivity.
  - destruct Hok as (x & xs & ->). rewrite Ho. reflexivity.
Qed.

(** C4 (amended): an eager [parse] of an empty input returns [[]] for
    every decoder but the whole-document ones (csv with a one-character
    delimiter or none, tsv, ndjson, ini, text, unknown, fixed with a
    non-empty schema); json raises [JSONDecodeError] and xml raises
    [ParseError]. *)
Theorem eager_empty_input (self : FileParser) (fs : gmap string string) (st : store)
  (src : source) (fmt delim : option string) (sc : option (list (string * nat))) (m : meth) :
  parser_map (resolve_fmt st src fmt) = Some m ->
  empty_source fs st src ->
  (empty_ok m delim sc -> snd (parse self fs st src fmt delim sc false) = inr (OutList [])) /\
  (m = M_parse_json -> snd (parse self fs st src fmt delim sc false) = inl JSONDecodeError) /\
  (m = M_parse_xml -> snd (parse self fs st src fmt delim sc false) = inl XMLParseError).
Proof.
  intros Hm He. unfold parse. rewrite Hm.
  assert (Hopen : exists st1 f ca, open_source self fs st src = inr (st1, f, ca) /\
                    open_lines st1 f = inr []).
  { destruct src as [p|f]; simpl in *.
    - unfold _open_file. rewrite He. do 3 eexists. split; [reflexivity|].
      apply (open_lines_new st p (file_lines "")).
    - destruct He as (h & Hh & Hl & Hc). exists st, f, false. split; [reflexivity|].
      unfold open_lines. rewrite Hh, Hc, Hl. reflexivity. }
  destruct Hopen as (st1 & f & ca & -> & Ho).
  destruct (drain_empty st1 f m delim sc Ho) as (D1 & D2 & D3). unfold mkgen in *.
  split; [|split]; intros H;
    [specialize (D1 H) | specialize (D2 H) | specialize (D3 H)];
    destruct (drain st1 _) as [st2 [e|l]]; simpl in *; congruence.
Qed.

Lemma eager_empty_input_witness :
  parser_map (resolve_fmt [] (SrcPath "empty.csv") None) = Some M_parse_csv /\
  empty_source (<["empty.csv" := ""]> ∅) [] (SrcPath "empty.csv") /\
  snd (parse {| encoding := None |} (<["empty.csv" := ""]> ∅) [] (SrcPath "empty.csv")
         None None None false) = inr (OutList []).
Proof.
  assert (H1 : parser_map (resolve_fmt [] (SrcPath "empty.csv") None) = Some M_parse_csv)
    by reflexivity.
  assert (H2 : empty_source (<["empty.csv" := ""]> ∅) [] (SrcPath "empty.csv"))
    by reflexivity.
  split; [exact H1|]. split; [exact H2|].
  destruct (eager_empty_input {| encoding := None |} (<["empty.csv" := ""]> ∅) []
              (SrcPath "empty.csv") None None None M_parse_csv H1 H2) as [H _].
  apply H. left. reflexivity.
Defined.

(* ------------------------------------------------------------------ *)
(** ** Dict assignments and the dicts of [DictReader] *)
(* ------------------------------------------------------------------ *)

Lemma pykey_eqb_true (a b : pykey) : pykey_eqb a b = true <-> a = b.
Proof.
  destruct a, b; simpl; split; intros H; try discriminate; try congruence.
  - apply String.eqb_eq in H. congruence.
  - inversion H. apply String.eqb_refl.
Qed.
Lemma dict_set_new (d : record) (k : pykey) (v : pyval) :
  ~ In k (keys d) -> dict_set d k v = app d [(k, v)].
Proof.
  induction d as [|[k' v'] d IH]; simpl; intros Hn; [reflexivity|].
  destruct (pykey_eqb k k') eqn:E.
  - apply pykey_eqb_true in E. subst. tauto.
  - rewrite IH by tauto. reflexivity.
Qed.
Lemma fold_dict_set_fresh (l : list (pykey * pyval)) (d : record) :
  NoDup (app (keys d) (map fst l)) ->
  fold_left (fun d kv => dict_set d (fst kv) (snd kv)) l d = app d l.
Proof.
  revert d; induction l as [|[k v] l IH]; intros d Hnd; simpl.
  - rewrite app_nil_r. reflexivity.
  - rewrite dict_set_new.
    + rewrite IH. * rewrite <- app_assoc. reflexivity.
      * unfold keys. rewrite map_app, <- app_assoc. exact Hnd.
    + intros Hin. apply NoDup_app in Hnd. destruct Hnd as (_ & Hd & _).
      apply (Hd k); [by apply list_elem_of_In | simpl; left].
Qed.
Lemma dict_set_keys_in (d : record) k v x :
  In x (keys (dict_set d k v)) -> x = k \/ In x (keys d).
Proof.
  unfold keys. induction d as [|[k' v'] d IH]; simpl; [intros [H|[]]; auto|].
  destruct (pykey_eqb k k') eqn:E; simpl.
  - apply pykey_eqb_true in E. subst. tauto.
  - intros [H|H]; [tauto|]. destruct (IH H); tauto.
Qed.

Lemma keys_dict_set_eq (d d' : record) k v v' :
  keys d = keys d' -> keys (dict_set d k v) = keys (dict_set d' k v').
Proof.
  revert d'; induction d as [|[k1 v1] d IH]; intros [|[k2 v2] d'] H; simpl in *;
    try discriminate; [reflexivity|].
  injection H as -> H. destruct (pykey_eqb k k2); simpl; [congruence|].
  f_equal. apply IH; assumption.
Qed.

Lemma keys_fold_set (l : list (pykey * pyval)) (d d' : record) :
  keys d = keys d' ->
  keys (fold_left (fun d kv => dict_set d (fst kv) (snd kv)) l d) = keys (set_none (map fst l) d').
Proof.
  unfold set_none. revert d d'; induction l as [|[k v] l IH]; intros d d' H; simpl; [exact H|].
  apply IH. apply keys_dict_set_eq. exact H.
Qed.

Lemma keys_set_none_eq (ks : list pykey) (d d' : record) :
  keys d = keys d' -> keys (set_none ks d) = keys (set_none ks d').
Proof.
  unfold set_none. revert d d'; induction ks as [|k ks IH]; intros d d' H; simpl; [exact H|].
  apply IH. apply keys_dict_set_eq. exact H.
Qed.

Lemma set_none_in (ks : list pykey) (d : record) x :
  In x (keys (set_none ks d)) -> In x ks \/ In x (keys d).
Proof.
  unfold set_none. revert d; induction ks as [|k ks IH]; intros d H; simpl in *; [tauto|].
  destruct (IH _ H) as [?|H']; [tauto|].
  destruct (dict_set_keys_in _ _ _ _ H') as [->|]; tauto.
Qed.

Lemma fold_kstr (ks : list string) (d : record) :
  fold_left (fun d k => dict_set d (KStr k) PNone) ks d = set_none (map KStr ks) d.
Proof.
  unfold set_none. revert d; induction ks as [|k ks IH]; intros d; simpl; [reflexivity|].
  apply IH.
Qed.

Lemma map_fst_zip_kstr (fn row : list string) :
  map fst (zip (map KStr fn) (map PStr row)) = map KStr (take (List.length row) fn).
Proof.
  revert row; induction fn as [|k fn IH]; intros [|v row]; simpl; try reflexivity.
  rewrite IH. reflexivity.
Qed.

Lemma kstr_not_none (ks : list string) : ~ In KNone (map KStr ks).
Proof. induction ks; simpl; [tauto|]. intros [H|H]; [discriminate|tauto]. Qed.

Lemma dict_set_absent_keys (d : record) k v :
  ~ In k (keys d) -> keys (dict_set d k v) = app (keys d) [k].
Proof. intros H. rewrite dict_set_new by exact H. unfold keys. rewrite map_app. reflexivity. Qed.

Lemma keys_dict_row (fn row : list string) :
  keys (Csv.dict_row fn row)
  = app (header_keys fn) (if List.length fn <? List.length row then [KNone] else []).
Proof.
  unfold Csv.dict_row, dict_of, header_keys.
  assert (Hz : keys (fold_left (fun d kv => dict_set d (fst kv) (snd kv))
                     (zip (map KStr fn) (map PStr row)) [])
               = keys (set_none (map KStr (take (List.length row) fn)) [])).
  { rewrite keys_fold_set with (d' := []) by reflexivity. rewrite map_fst_zip_kstr. reflexivity. }
  destruct (List.length fn <? List.length row) eqn:E1.
  - apply Nat.ltb_lt in E1.
    rewrite dict_set_absent_keys.
    + rewrite Hz, take_ge by lia. reflexivity.
    + rewrite Hz. intros H. destruct (set_none_in _ _ _ H) as [H'|H']; [|exact H'].
      exact (kstr_not_none _ H').
  - rewrite app_nil_r. destruct (List.length row <? List.length fn) eqn:E2.
    + rewrite fold_kstr. rewrite (keys_set_none_eq _ _ _ Hz).
      unfold set_none. rewrite <- fold_left_app, <- map_app, take_drop. reflexivity.
    + apply Nat.ltb_ge in E1. apply Nat.ltb_ge in E2.
      rewrite Hz, take_ge by lia. reflexivity.
Qed.

Lemma set_none_pairs (ks : list string) (d : record) :
  fold_left (fun d k => dict_set d (KStr k) PNone) ks d
  = fold_left (fun d kv => dict_set d (fst kv) (snd kv)) (map (fun k => (KStr k, PNone)) ks) d.
Proof. revert d; induction ks as [|k ks IH]; intros d; simpl; [reflexivity|]. apply IH. Qed.

Lemma NoDup_kstr (ks : list string) : NoDup ks -> NoDup (map KStr ks).
Proof.
  induction 1 as [|k ks Hk _ IH]; simpl; constructor; [|exact IH].
  rewrite list_elem_of_In, in_map_iff. intros (k' & E & Hin). injection E as ->.
  apply Hk, list_elem_of_In, Hin.
Qed.

Lemma dict_row_values (fn row : list string) :
  NoDup fn ->
  (List.length row <= List.length fn ->
     Csv.dict_row fn row
     = app (zip (map KStr fn) (map PStr row))
           (map (fun k => (KStr k, PNone)) (drop (List.length row) fn))) /\
  (List.length fn < List.length row ->
     Csv.dict_row fn row
     = app (zip (map KStr fn) (map PStr row))
           [(KNone, PList (map PStr (drop (List.length fn) row)))]).
Proof.
  intros Hnd.
  assert (Hz : dict_of (zip (map KStr fn) (map PStr row)) = zip (map KStr fn) (map PStr row)).
  { unfold dict_of. rewrite fold_dict_set_fresh; [reflexivity|]. simpl.
    rewrite map_fst_zip_kstr. apply NoDup_kstr. eapply sublist_NoDup; [exact Hnd|].
    apply sublist_take. }
  unfold Csv.dict_row. rewrite Hz. split; intros Hl.
  - destruct (List.length fn <? List.length row) eqn:E1; [apply Nat.ltb_lt in E1; lia|].
    destruct (List.length row <? List.length fn) eqn:E2.
    + rewrite set_none_pairs, fold_dict_set_fresh; [reflexivity|].
      unfold keys. rewrite map_fst_zip_kstr, map_map. simpl.
      rewrite <- map_app, take_drop. apply NoDup_kstr, Hnd.
    + apply Nat.ltb_ge in E2. replace (drop (List.length row) fn) with (@nil string).
      * rewrite app_nil_r. reflexivity.
      * symmetry. apply drop_ge. lia.
  - apply Nat.ltb_lt in Hl. rewrite Hl. apply dict_set_new.
    unfold keys. rewrite map_fst_zip_kstr. apply kstr_not_none.
Qed.

(* ------------------------------------------------------------------ *)
(** ** One header per delimited run *)
(* ------------------------------------------------------------------ *)

Lemma hdr_ext_refl fno : hdr_ext fno fno.
Proof. intros fn H. exact H. Qed.

Lemma hdr_ext_trans a b c : hdr_ext a b -> hdr_ext b c -> hdr_ext a c.
Proof. intros H1 H2 fn H. apply H2, H1, H. Qed.

Lemma rows_of_mono a b recs : hdr_ext a b -> rows_of a recs -> rows_of b recs.
Proof.
  intros He. unfold rows_of. intros H. eapply Forall_impl; [exact H|].
  intros rec (fn & row & Hf & Hr & ->). exists fn, row. split; [apply He, Hf|]. tauto.
Qed.

Lemma rows_of_app fno a b : rows_of fno a -> rows_of fno b -> rows_of fno (app a b).
Proof. unfold rows_of. intros. apply Forall_app. tauto. Qed.

Lemma rows_of_nil fno : rows_of fno [].
Proof. constructor. Qed.

Lemma reader_row_rows fno row fno' recs :
  Csv.dict_reader_row fno row = (fno', recs) -> hdr_ext fno fno' /\ rows_of fno' recs.
Proof.
  unfold Csv.dict_reader_row. destruct fno as [fn|].
  - destruct row as [|c row]; intros H; injection H as <- <-;
      (split; [apply hdr_ext_refl|]).
    + apply rows_of_nil.
    + constructor; [|constructor]. exists fn, (c :: row). split; [reflexivity|]. split; [discriminate|reflexivity].
  - intros H; injection H as <- <-. split; [discriminate|apply rows_of_nil].
Qed.

Lemma lstep_csv d fno r line ls' recs :
  lstep (LCsv d fno r) line = inr (ls', recs) ->
  exists fno' r', ls' = LCsv d fno' r' /\ hdr_ext fno fno' /\ rows_of fno' recs.
Proof.
  simpl. destruct (Csv.feed_line d r line) as [e|[r' [row|]]]; [discriminate| |].
  - destruct (Csv.dict_reader_row fno row) as [fno' recs'] eqn:E. intros H. injection H as <- <-.
    destruct (reader_row_rows _ _ _ _ E). exists fno', r'. tauto.
  - intros H. injection H as <- <-. exists fno, r'. split; [reflexivity|].
    split; [apply hdr_ext_refl|apply rows_of_nil].
Qed.

Lemma pull_csv d fno r lines rest ls' recs :
  pull (LCsv d fno r) lines = (rest, inr (ls', recs)) ->
  exists fno' r', ls' = LCsv d fno' r' /\ hdr_ext fno fno' /\ rows_of fno' recs.
Proof.
  revert fno r; induction lines as [|l lines IH]; intros fno r; cbn [pull].
  - intros H. injection H as <- <- <-. exists fno, r.
    split; [reflexivity|]. split; [apply hdr_ext_refl|apply rows_of_nil].
  - destruct (lstep (LCsv d fno r) l) as [e|[ls1 recs1]] eqn:E; [inversion 1|].
    destruct (lstep_csv _ _ _ _ _ _ E) as (fno1 & r1 & -> & He1 & Hr1).
    destruct recs1 as [|x xs].
    + intros H. destruct (IH _ _ H) as (fno2 & r2 & -> & He2 & Hr2).
      exists fno2, r2. split; [reflexivity|]. split; [eapply hdr_ext_trans; eassumption|exact Hr2].
    + intros H. injection H as <- <- <-. exists fno1, r1. tauto.
Qed.

Lemma run_lines_csv d fno r lines rest ls' recs :
  run_lines (LCsv d fno r) lines = (rest, inr (ls', recs)) ->
  exists fno' r', ls' = LCsv d fno' r' /\ hdr_ext fno fno' /\ rows_of fno' recs.
Proof.
  revert fno r rest ls' recs; induction lines as [|l lines IH]; intros fno r rest ls' recs;
    cbn [run_lines].
  - intros H. injection H as <- <- <-. exists fno, r.
    split; [reflexivity|]. split; [apply hdr_ext_refl|apply rows_of_nil].
  - destruct (lstep (LCsv d fno r) l) as [e|[ls1 recs1]] eqn:E; [inversion 1|].
    destruct (lstep_csv _ _ _ _ _ _ E) as (fno1 & r1 & -> & He1 & Hr1).
    destruct (run_lines (LCsv d fno1 r1) lines) as [rest2 [e|[ls2 recs2]]] eqn:E2; [inversion 1|].
    intros H. injection H as <- <- <-.
    destruct (IH _ _ _ _ _ E2) as (fno2 & r2 & -> & He2 & Hr2).
    exists fno2, r2. split; [reflexivity|]. split; [eapply hdr_ext_trans; eassumption|].
    apply rows_of_app; [eapply rows_of_mono; eassumption|exact Hr2].
Qed.

Lemma lend_csv d fno r : rows_of fno (lend (LCsv d fno r)).
Proof.
  simpl. destruct (Csv.flush r) as [row|]; [|apply rows_of_nil].
  destruct (Csv.dict_reader_row fno row) as [fno' recs] eqn:E. simpl.
  destruct (reader_row_rows _ _ _ _ E) as [_ H].
  destruct fno as [fn|].
  - unfold Csv.dict_reader_row in E. destruct row; injection E as <- <-; exact H.
  - unfold Csv.dict_reader_row in E. injection E as <- <-. apply rows_of_nil.
Qed.

Lemma drain_from_csv (st : store) (g : gen) d fno r st' recs :
  drain_from st g (GLines (LCsv d fno r) []) = (st', inr recs) -> exists fno', rows_of fno' recs.
Proof.
  unfold drain_from. destruct (open_lines st (g_f g)) as [e|lines]; [inversion 1|].
  destruct (run_lines (LCsv d fno r) lines) as [rest [e|[ls' recs']]] eqn:R; [inversion 1|].
  intros H. injection H as _ <-.
  destruct (run_lines_csv _ _ _ _ _ _ _ R) as (fno' & r' & -> & _ & Hr).
  exists fno'. apply rows_of_app; [exact Hr|apply lend_csv].
Qed.

Lemma drain_csv (st : store) (f : nat) (m : meth) delim sc st' recs :
  delimited m ->
  drain st (mkgen m f delim sc) = (st', inr recs) -> exists fno, rows_of fno recs.
Proof.
  intros Hm. unfold drain, gen_start, csv_start. cbn [g_state].
  destruct Hm as [-> | ->]; unfold mkgen; cbn [g_meth g_f g_delim];
    (destruct (open_lines st f) as [e|lines]; [inversion 1|]); cbv zeta;
    [destruct (one_char _) as [d|]; [|inversion 1]|]; apply drain_from_csv.
Qed.

Lemma with_state_meth g s : g_meth (with_state g s) = g_meth g.
Proof. reflexivity. Qed.

Lemma gen_next_meth st g : g_meth (snd (fst (gen_next st g))) = g_meth g.
Proof.
  unfold gen_next, resume.
  destruct (g_state g) as [|ls [|r rs]|[|r rs] [e|]|]; try reflexivity;
    try (destruct (gen_start st g) as [st' [e|s]]; [reflexivity|destruct s as [|ls [|r rs]|[|r rs] [e|]|]]);
    repeat match goal with
      | |- context [match ?x with _ => _ end] => destruct x
      end; reflexivity.
Qed.

Lemma resume_csv st g s fno st' g' o :
  csv_inv fno s -> resume st g s = (st', g', o) ->
  exists fno', hdr_ext fno fno' /\ csv_inv fno' (g_state g') /\
               (forall r, o = Yield r -> rows_of fno' [r]).
Proof.
  intros Hi. destruct s as [|ls [|x xs]|[|x xs] [e|]|]; simpl in Hi; cbn [resume].
  - intros H. injection H as <- <- <-. exists fno. split; [apply hdr_ext_refl|].
    split; [exact I|discriminate].
  - destruct ls as [d fno1 r| | | |]; try contradiction. destruct Hi as [-> _].
    destruct (open_lines st (g_f g)) as [e|lines].
    { intros H. injection H as <- <- <-. exists fno. split; [apply hdr_ext_refl|].
      split; [exact I|discriminate]. }
    destruct (pull (LCsv d fno r) lines) as [rest [e|[ls' recs]]] eqn:P; cbv zeta.
    { intros H. injection H as <- <- <-. exists fno. split; [apply hdr_ext_refl|].
      split; [exact I|discriminate]. }
    destruct (pull_csv _ _ _ _ _ _ _ P) as (fno' & r' & -> & He & Hr).
    destruct recs as [|y ys].
    + pose proof (lend_csv d fno' r') as Hl.
      destruct (lend (LCsv d fno' r')) as [|y ys].
      * intros H. injection H as <- <- <-. exists fno'. split; [exact He|].
        split; [exact I|discriminate].
      * intros H. injection H as <- <- <-. exists fno'. split; [exact He|].
        inversion Hl; subst. split; [assumption|].
        intros r0 Hy. injection Hy as <-. constructor; [assumption|constructor].
    + intros H. injection H as <- <- <-. exists fno'. split; [exact He|].
      inversion Hr; subst. split; [split; [reflexivity|assumption]|].
      intros r0 Hy. injection Hy as <-. constructor; [assumption|constructor].
  - destruct ls as [d fno1 r| | | |]; try contradiction. destruct Hi as [-> Hr].
    intros H. injection H as <- <- <-. exists fno. split; [apply hdr_ext_refl|].
    inversion Hr; subst. split; [split; [reflexivity|assumption]|].
    intros r0 Hy. injection Hy as <-. constructor; [assumption|constructor].
  - contradiction.
  - intros H. injection H as <- <- <-. exists fno. split; [apply hdr_ext_refl|].
    split; [exact I|discriminate].
  - contradiction.
  - intros H. injection H as <- <- <-. exists fno. split; [apply hdr_ext_refl|].
    inversion Hi; subst. split; [assumption|].
    intros r0 Hy. injection Hy as <-. constructor; [assumption|constructor].
  - intros H. injection H as <- <- <-. exists fno. split; [apply hdr_ext_refl|].
    split; [exact I|discriminate].
Qed.

Lemma gen_next_csv st g fno st' g' o :
  delimited (g_meth g) -> csv_inv fno (g_state g) -> gen_next st g = (st', g', o) ->
  exists fno', hdr_ext fno fno' /\ csv_inv fno' (g_state g') /\
               (forall r, o = Yield r -> rows_of fno' [r]).
Proof.
  intros Hm Hi. unfold gen_next.
  destruct (g_state g) eqn:Es; try (apply resume_csv; exact Hi).
  simpl in Hi. subst fno.
  destruct (gen_start st g) as [st1 [e|s]] eqn:E.
  - intros H. injection H as <- <- <-. exists None. split; [apply hdr_ext_refl|].
    split; [exact I|discriminate].
  - apply resume_csv. unfold gen_start, csv_start in E.
    destruct Hm as [Hm|Hm]; rewrite Hm in E; destruct (open_lines st (g_f g)).
    + injection E as _ E. discriminate.
    + destruct (one_char _); injection E as _ E; [|discriminate].
      subst s. split; [reflexivity|apply rows_of_nil].
    + injection E as _ E. discriminate.
    + injection E as _ E. subst s. split; [reflexivity|apply rows_of_nil].
Qed.

Lemma take_n_csv n st g fno st' g' rs o :
  delimited (g_meth g) -> csv_inv fno (g_state g) -> take_n n st g = (st', g', rs, o) ->
  exists fno', hdr_ext fno fno' /\ rows_of fno' rs.
Proof.
  revert st g fno st' g' rs o; induction n as [|n IH]; intros st g fno st' g' rs o Hm Hi; simpl.
  - intros H. injection H as _ _ <- _. exists fno. split; [apply hdr_ext_refl|apply rows_of_nil].
  - pose proof (gen_next_meth st g) as Hmeth.
    destruct (gen_next st g) as [[st1 g1] o1] eqn:E.
    destruct (gen_next_csv _ _ _ _ _ _ Hm Hi E) as (fno1 & He1 & Hi1 & Hy).
    simpl in Hmeth. rewrite <- Hmeth in Hm.
    destruct o1 as [r| |e].
    + destruct (take_n n st1 g1) as [[[st2 g2] rs2] o2] eqn:T.
      intros H. injection H as _ _ <- _.
      destruct (IH _ _ _ _ _ _ _ Hm Hi1 T) as (fno2 & He2 & Hr2).
      exists fno2. split; [eapply hdr_ext_trans; eassumption|].
      specialize (Hy r eq_refl). inversion Hy; subst.
      constructor; [|exact Hr2].
      eapply (rows_of_mono fno1 fno2 [r]) in He2; [inversion He2; assumption|exact Hy].
    + intros H. injection H as _ _ <- _. exists fno. split; [apply hdr_ext_refl|apply rows_of_nil].
    + intros H. injection H as _ _ <- _. exists fno. split; [apply hdr_ext_refl|apply rows_of_nil].
Qed.

(* ------------------------------------------------------------------ *)
(** ** The fields of fixed-width records *)
(* ------------------------------------------------------------------ *)

Lemma keys_fixed_fields raw raw' pos pos' sc rec rec' :
  keys rec = keys rec' -> keys (fixed_fields raw pos sc rec) = keys (fixed_fields raw' pos' sc rec').
Proof.
  revert pos pos' rec rec'; induction sc as [|[name w] sc IH]; intros pos pos' rec rec' H;
    simpl; [exact H|].
  apply IH, keys_dict_set_eq, H.
Qed.

Lemma keys_fixed_record sc i line : keys (fixed_record sc i line) = fixed_keys sc.
Proof.
  unfold fixed_keys, fixed_record. apply keys_dict_set_eq, keys_fixed_fields. reflexivity.
Qed.

Lemma keyed_app ks a b : keyed ks a -> keyed ks b -> keyed ks (app a b).
Proof. unfold keyed. intros. apply Forall_app. tauto. Qed.

Lemma run_lines_fixed sc i lines rest ls' recs :
  run_lines (LFixed sc i) lines = (rest, inr (ls', recs)) ->
  (exists j, ls' = LFixed sc j) /\ keyed (fixed_keys sc) recs.
Proof.
  revert i rest ls' recs; induction lines as [|l lines IH]; intros i rest ls' recs; cbn [run_lines].
  - intros H. injection H as <- <- <-. split; [eauto|constructor].
  - simpl lstep. cbv iota beta.
    destruct (run_lines (LFixed sc (S i)) lines) as [rest2 [e|[ls2 recs2]]] eqn:E; [inversion 1|].
    intros H. injection H as <- <- <-. destruct (IH _ _ _ _ E) as [? Hk]. split; [assumption|].
    constructor; [apply keys_fixed_record|exact Hk].
Qed.

Lemma pull_fixed sc i lines rest ls' recs :
  pull (LFixed sc i) lines = (rest, inr (ls', recs)) ->
  (exists j, ls' = LFixed sc j) /\ keyed (fixed_keys sc) recs.
Proof.
  destruct lines as [|l lines]; cbn [pull]; simpl lstep; cbv iota beta.
  - intros H. injection H as <- <- <-. split; [eauto|constructor].
  - intros H. injection H as <- <- <-. split; [eauto|].
    constructor; [apply keys_fixed_record|constructor].
Qed.

Lemma drain_fixed (st : store) (f : nat) delim sc st' recs :
  drain st (mkgen M_parse_fixed_width f delim (Some sc)) = (st', inr recs) ->
  keyed (fixed_keys sc) recs.
Proof.
  unfold drain, gen_start, mkgen. cbn [g_state g_meth g_schema g_f].
  destruct sc as [|x xs]; [inversion 1|]. unfold drain_from. cbn [g_f].
  destruct (open_lines st f) as [e|lines]; [inversion 1|].
  destruct (run_lines (LFixed (x :: xs) 1) lines) as [rest [e|[ls' recs']]] eqn:R; [inversion 1|].
  intros H. injection H as _ <-. destruct (run_lines_fixed _ _ _ _ _ _ R) as [[j ->] Hk].
  apply keyed_app; [exact Hk|constructor].
Qed.

Lemma resume_fixed st g s sc st' g' o :
  fixed_inv sc (with_state g s) -> resume st g s = (st', g', o) ->
  fixed_inv sc g' /\ (forall r, o = Yield r -> keys r = fixed_keys sc).
Proof.
  unfold fixed_inv. cbn [g_state with_state]. intros Hi.
  destruct s as [|ls [|x xs]|[|x xs] [e|]|]; cbn [resume].
  - intros H. injection H as <- <- <-. split; [exact I|discriminate].
  - destruct ls as [| | | |sc1 i]; try contradiction. destruct Hi as [-> _].
    destruct (open_lines st (g_f g)) as [e|lines].
    { intros H. injection H as <- <- <-. split; [exact I|discriminate]. }
    destruct (pull (LFixed sc i) lines) as [rest [e|[ls' recs]]] eqn:P; cbv zeta.
    { intros H. injection H as <- <- <-. split; [exact I|discriminate]. }
    destruct (pull_fixed _ _ _ _ _ _ P) as [[j ->] Hk].
    destruct recs as [|y ys]; simpl lend.
    + intros H. injection H as <- <- <-. split; [exact I|discriminate].
    + intros H. injection H as <- <- <-. inversion Hk; subst. cbn.
      split; [split; [reflexivity|assumption]|]. intros r0 Hy. injection Hy as <-. assumption.
  - destruct ls as [| | | |sc1 i]; try contradiction. destruct Hi as [-> Hk].
    intros H. injection H as <- <- <-. inversion Hk; subst. cbn.
    split; [split; [reflexivity|assumption]|]. intros r0 Hy. injection Hy as <-. assumption.
  - contradiction.
  - intros H. injection H as <- <- <-. split; [exact I|discriminate].
  - contradiction.
  - intros H. injection H as <- <- <-. inversion Hi; subst. cbn.
    split; [assumption|]. intros r0 Hy. injection Hy as <-. assumption.
  - intros H. injection H as <- <- <-. split; [exact I|discriminate].
Qed.

Lemma gen_next_fixed st g sc st' g' o :
  g_meth g = M_parse_fixed_width -> fixed_inv sc g -> gen_next st g = (st', g', o) ->
  fixed_inv sc g' /\ (forall r, o = Yield r -> keys r = fixed_keys sc).
Proof.
  intros Hm Hi. unfold gen_next.
  destruct (g_state g) eqn:Es;
    try (apply resume_fixed; unfold fixed_inv in *; cbn [g_state with_state]; rewrite Es in Hi;
         exact Hi).
  unfold fixed_inv in Hi. rewrite Es in Hi.
  unfold gen_start. rewrite Hm, Hi. destruct sc as [|x xs].
  - intros H. injection H as <- <- <-. split; [exact I|discriminate].
  - apply resume_fixed. unfold fixed_inv. cbn [g_state with_state].
    split; [reflexivity|constructor].
Qed.

Lemma take_n_fixed n st g sc st' g' rs o :
  g_meth g = M_parse_fixed_width -> fixed_inv sc g -> take_n n st g = (st', g', rs, o) ->
  keyed (fixed_keys sc) rs.
Proof.
  revert st g st' g' rs o; induction n as [|n IH]; intros st g st' g' rs o Hm Hi; simpl.
  - intros H. injection H as _ _ <- _. constructor.
  - pose proof (gen_next_meth st g) as Hmeth.
    destruct (gen_next st g) as [[st1 g1] o1] eqn:E.
    destruct (gen_next_fixed _ _ _ _ _ _ Hm Hi E) as (Hi1 & Hy).
    simpl in Hmeth. rewrite <- Hmeth in Hm.
    destruct o1 as [r| |e].
    + destruct (take_n n st1 g1) as [[[st2 g2] rs2] o2] eqn:T.
      intros H. injection H as _ _ <- _.
      constructor; [apply Hy; reflexivity|]. exact (IH _ _ _ _ _ _ Hm Hi1 T).
    + intros H. injection H as _ _ <- _. constructor.
    + intros H. injection H as _ _ <- _. constructor.
Qed.

Lemma keys_spec_fields raw pos sc : keys (spec_fields raw pos sc) = map KStr (map fst sc).
Proof.
  revert pos; induction sc as [|[n w] sc IH]; intros pos; simpl; [reflexivity|].
  unfold keys in *. simpl. rewrite IH. reflexivity.
Qed.

Lemma fixed_fields_spec raw pos sc rec :
  NoDup (app (keys rec) (map KStr (map fst sc))) ->
  fixed_fields raw pos sc rec = app rec (spec_fields raw pos sc).
Proof.
  revert pos rec; induction sc as [|[n w] sc IH]; intros pos rec Hnd; simpl.
  - rewrite app_nil_r. reflexivity.
  - rewrite dict_set_new.
    + rewrite IH.
      * rewrite <- app_assoc. reflexivity.
      * unfold keys. rewrite map_app, <- app_assoc. exact Hnd.
    + intros Hin. simpl in Hnd. apply NoDup_app in Hnd. destruct Hnd as (_ & Hd & _).
      apply (Hd (KStr n)); [by apply list_elem_of_In | left].
Qed.

Lemma ljust_length s n : String.length (ljust s n) = Nat.max n (String.length s).
Proof.
  unfold ljust.
  assert (Ha : forall a b, String.length (a ++ b) = String.length a + String.length b).
  { induction a as [|c a IH]; intros b; simpl; [reflexivity|]. rewrite IH. reflexivity. }
  rewrite Ha.
  assert (H : forall k, String.length (string_of_list_ascii (repeat " "%char k)) = k).
  { induction k; simpl; [reflexivity|]. rewrite IHk. reflexivity. }
  rewrite H. lia.
Qed.

Lemma fixed_record_spec sc i line :
  NoDup (map fst sc) -> ~ In "_line_no" (map fst sc) ->
  fixed_record sc i line = spec_fixed_record sc i line.
Proof.
  intros Hnd Hl. unfold fixed_record, spec_fixed_record.
  rewrite fixed_fields_spec by (apply NoDup_kstr, Hnd). simpl.
  apply dict_set_new. rewrite keys_spec_fields. rewrite in_map_iff.
  intros (k & E & Hin). injection E as ->. exact (Hl Hin).
Qed.

Lemma run_lines_fixed_eq (sc : list (string * nat)) (lines : list string) (i : nat) :
  run_lines (LFixed sc i) lines =
    ([], inr (LFixed sc (i + List.length lines), number_lines (fixed_record sc) i lines)).
Proof.
  revert i; induction lines as [|l ls IH]; intros i; simpl.
  - rewrite Nat.add_0_r. reflexivity.
  - rewrite IH. replace (S i + List.length ls) with (i + S (List.length ls)) by lia.
    reflexivity.
Qed.

Lemma drain_fixed_eq (st : store) (f : nat) delim x xs :
  drain st (mkgen M_parse_fixed_width f delim (Some (x :: xs))) =
    match open_lines st f with
    | inl e => (st, inl e)
    | inr lines => (set_lines st f [], inr (number_lines (fixed_record (x :: xs)) 1 lines))
    end.
Proof.
  unfold drain. simpl. destruct (open_lines st f); [reflexivity|].
  rewrite run_lines_fixed_eq. simpl. rewrite app_nil_r. reflexivity.
Qed.

Lemma number_lines_ext (mk mk' : nat -> string -> record) i lines :
  (forall j l, mk j l = mk' j l) -> number_lines mk i lines = number_lines mk' i lines.
Proof.
  intros H. revert i; induction lines as [|l ls IH]; intros i; simpl; [reflexivity|].
  rewrite H, IH. reflexivity.
Qed.

(* ------------------------------------------------------------------ *)
(** ** Eager and lazy runs of [parse] *)
(* ------------------------------------------------------------------ *)

Lemma parse_eager_inv self fs st src fmt delim sc m st' recs :
  parser_map (resolve_fmt st src fmt) = Some m ->
  parse self fs st src fmt delim sc false = (st', inr (OutList recs)) ->
  exists st1 f st2, drain st1 (mkgen m f delim sc) = (st2, inr recs).
Proof.
  intros Hm. unfold parse. rewrite Hm.
  destruct (open_source self fs st src) as [e|[[st1 f] ca]]; [inversion 1|].
  destruct (drain st1 _) as [st2 [e|l]] eqn:D; cbv zeta iota beta.
  - intros H. inversion H.
  - intros H. injection H as _ <-. exists st1, f, st2. exact D.
Qed.

Lemma parse_lazy_inv self fs st src fmt delim sc m st' g :
  parser_map (resolve_fmt st src fmt) = Some m ->
  parse self fs st src fmt delim sc true = (st', inr (OutGen g)) ->
  exists f, g = mkgen m f delim sc.
Proof.
  intros Hm. unfold parse. rewrite Hm.
  destruct (open_source self fs st src) as [e|[[st1 f] ca]]; [inversion 1|].
  cbv zeta iota beta. intros H. injection H as _ <-. exists f. reflexivity.
Qed.

Lemma rows_of_run_keys fno recs : rows_of fno recs -> csv_run_keys recs.
Proof.
  intros H. destruct fno as [hdr|].
  - exists hdr. eapply Forall_impl; [exact H|].
    intros rec (fn & row & Ef & _ & ->). injection Ef as <-. exists row.
    split; [reflexivity|apply keys_dict_row].
  - destruct recs as [|r rs]; [exists []; constructor|].
    inversion H as [|? ? (fn & row & Ef & _) _]. discriminate.
Qed.

(* ------------------------------------------------------------------ *)
(** ** C1: a path source read lazily *)
(* ------------------------------------------------------------------ *)

Lemma open_lines_closed_new (st : store) (h : handle) :
  open_lines (close (app st [h]) (List.length st)) (List.length st) = inl closed_error.
Proof.
  unfold close. rewrite lookup_app_r by lia. rewrite Nat.sub_diag. simpl.
  unfold open_lines. rewrite list_lookup_insert_eq; [reflexivity|].
  rewrite length_app. simpl. lia.
Qed.

(** C1 (defect): a path source read lazily.  [parse] returns the
    generator after its [finally] clause has closed the file it opened,
    so the first [next] raises [ValueError("I/O operation on closed
    file.")] and the consumer obtains no record of the file. *)
Theorem lazy_path_source_closed (self : FileParser) (fs : gmap string string) (st : store)
  (p contents : string) (fmt delim : option string) (sc : option (list (string * nat)))
  (m : meth) :
  parser_map (resolve_fmt st (SrcPath p) fmt) = Some m ->
  fs !! p = Some contents ->
  (m = M_parse_fixed_width -> exists x xs, sc = Some (x :: xs)) ->
  let st1 := close (app st [{| h_lines := file_lines contents; h_closed := false;
                               h_name := p |}]) (List.length st) in
  let g := mkgen m (List.length st) delim sc in
  parse self fs st (SrcPath p) fmt delim sc true = (st1, inr (OutGen g)) /\
  gen_next st1 g = (st1, with_state g GDone, Raise closed_error) /\
  (forall n, exists st' g' o, take_n n st1 g = (st', g', [], o)).
Proof.
  intros Hm Hp Hsc st1 g.
  assert (Hc : open_lines st1 (List.length st) = inl closed_error) by apply open_lines_closed_new.
  assert (Hn : gen_next st1 g = (st1, with_state g GDone, Raise closed_error)).
  { unfold gen_next, g, mkgen. cbn [g_state]. unfold gen_start, csv_start, read_all.
    cbn [g_meth g_f g_delim g_schema].
    destruct m; [..|destruct (Hsc eq_refl) as (x & xs & ->)|];
      cbn -[open_lines st1]; rewrite ?Hc; reflexivity. }
  split; [|split; [exact Hn|]].
  - unfold parse. rewrite Hm. simpl. unfold _open_file. rewrite Hp. reflexivity.
  - intros [|n]; [do 3 eexists; reflexivity|]. simpl. rewrite Hn. do 3 eexists. reflexivity.
Qed.

Lemma lazy_path_source_closed_witness :
  parser_map (resolve_fmt [] (SrcPath "data.csv") None) = Some M_parse_csv /\
  (<["data.csv" := "a
1
"]> ∅ : gmap string string) !! "data.csv" = Some "a
1
" /\
  gen_next [{| h_lines := ["a
"; "1
"]; h_closed := true; h_name := "data.csv" |}]
    (mkgen M_parse_csv 0 None None)
  = ([{| h_lines := ["a
"; "1
"]; h_closed := true; h_name := "data.csv" |}],
     with_state (mkgen M_parse_csv 0 None None) GDone, Raise closed_error).
Proof.
  assert (H1 : parser_map (resolve_fmt [] (SrcPath "data.csv") None) = Some M_parse_csv)
    by reflexivity.
  assert (H2 : (<["data.csv" := "a
1
"]> ∅ : gmap string string) !! "data.csv" = Some "a
1
") by reflexivity.
  split; [exact H1|]. split; [exact H2|].
  destruct (lazy_path_source_closed {| encoding := None |} _ [] "data.csv" _ None None None
              M_parse_csv H1 H2 (fun H => ltac:(discriminate H))) as (_ & H & _).
  exact H.
Defined.

(* ------------------------------------------------------------------ *)
(** ** C5: the dict of a delimited row *)
(* ------------------------------------------------------------------ *)

(** C5 does not hold as stated: with [restval=None], the short row
    [1,2] under the header [a,b,c] gives [c] the value [None] (the key
    is present); the long row [1,2,3,4] puts [["4"]] under the key
    [None]. *)
Lemma csv_short_row_key_present :
  snd (parse {| encoding := None |} (<["t.csv" := "a,b,c
1,2
1,2,3,4
"]> ∅) [] (SrcPath "t.csv") None None None false)
  = inr (OutList [[(KStr "a", PStr "1"); (KStr "b", PStr "2"); (KStr "c", PNone)];
                  [(KStr "a", PStr "1"); (KStr "b", PStr "2"); (KStr "c", PStr "3");
                   (KNone, PList [PStr "4"])]]) /\
  dict_get [(KStr "a", PStr "1"); (KStr "b", PStr "2"); (KStr "c", PNone)] (KStr "c")
    = Some PNone.
Proof. split; vm_compute; reflexivity. Qed.

(** C5 (amended): [DictReader]'s dict of a data row under a header of
    distinct names: the header names in header order, paired with the
    row's values; a shorter row gives each missing name the value
    [None] (the name stays present); a longer row keeps the header's
    fields and adds the key [None] holding the list of the overflow
    values. *)
Theorem csv_row_fields (fn row : list string) :
  NoDup fn ->
  (List.length row <= List.length fn ->
     Csv.dict_row fn row
     = app (zip (map KStr fn) (map PStr row))
           (map (fun k => (KStr k, PNone)) (drop (List.length row) fn))) /\
  (List.length fn < List.length row ->
     Csv.dict_row fn row
     = app (zip (map KStr fn) (map PStr row))
           [(KNone, PList (map PStr (drop (List.length fn) row)))]).
Proof. apply dict_row_values. Qed.

Lemma csv_row_fields_witness :
  NoDup ["a"; "b"; "c"] /\
  Csv.dict_row ["a"; "b"; "c"] ["1"; "2"]
    = [(KStr "a", PStr "1"); (KStr "b", PStr "2"); (KStr "c", PNone)] /\
  Csv.dict_row ["a"; "b"; "c"] ["1"; "2"; "3"; "4"]
    = [(KStr "a", PStr "1"); (KStr "b", PStr "2"); (KStr "c", PStr "3");
       (KNone, PList [PStr "4"])].
Proof.
  assert (Hnd : NoDup ["a"; "b"; "c"]).
  { apply (bool_decide_unpack _). vm_compute. reflexivity. }
  destruct (csv_row_fields ["a"; "b"; "c"] ["1"; "2"] Hnd) as [Hs _].
  destruct (csv_row_fields ["a"; "b"; "c"] ["1"; "2"; "3"; "4"] Hnd) as [_ Hl].
  split; [exact Hnd|]. split.
  - rewrite Hs by (simpl; lia). reflexivity.
  - rewrite Hl by (simpl; lia). reflexivity.
Defined.

(* ------------------------------------------------------------------ *)
(** ** C6: fixed-width records *)
(* ------------------------------------------------------------------ *)

(** C6 does not hold as stated: the spec's example is miscounted.  The
    line [Al 5 ] is padded to 6 characters; [name] is the slice [0:4],
    [Al 5], and [age] the slice [4:6], two spaces, which strips to the
    empty string. *)
Lemma fixed_width_example_differs :
  snd (parse {| encoding := None |} (<["f.dat" := "Al 5 
"]> ∅) [] (SrcPath "f.dat") (Some "fixed") None (Some [("name", 4); ("age", 2)]) false)
  = inr (OutList [[(KStr "name", PStr "Al 5"); (KStr "age", PStr "");
                   (KStr "_line_no", PInt 1%Z)]]).
Proof. vm_compute. reflexivity. Qed.

(** C6 (amended): with a non-empty schema of distinct names other than
    [_line_no], the eager fixed-width decode of a file gives, for its
    [i]-th line (from 1, lines as text mode reads them: "\r\n" and "\r"
    end a line and read as "\n"), the record whose fields are the
    whitespace-trimmed slices at the declared positions of the line
    right-padded with spaces to the schema's total width (so every slice
    lies inside the padded line), followed by [_line_no = i]. *)
Theorem fixed_width_fields (self : FileParser) (fs : gmap string string) (st : store)
  (src : source) (fmt delim : option string) (sc : list (string * nat)) :
  parser_map (resolve_fmt st src fmt) = Some M_parse_fixed_width ->
  sc <> [] -> NoDup (map fst sc) -> ~ In "_line_no" (map fst sc) ->
  (forall line, total_width sc <= String.length (ljust (rstrip_nl line) (total_width sc))) /\
  (forall p contents, src = SrcPath p -> fs !! p = Some contents ->
     snd (parse self fs st src fmt delim (Some sc) false)
       = inr (OutList (number_lines (spec_fixed_record sc) 1 (file_lines contents)))) /\
  (forall f h, src = SrcStream f -> st !! f = Some h -> h_closed h = false ->
     snd (parse self fs st src fmt delim (Some sc) false)
       = inr (OutList (number_lines (spec_fixed_record sc) 1 (h_lines h)))).
Proof.
  intros Hm Hne Hnd Hl.
  assert (Hr : forall i lines, number_lines (fixed_record sc) i lines
                               = number_lines (spec_fixed_record sc) i lines).
  { intros i lines. apply number_lines_ext. intros j l. apply fixed_record_spec; assumption. }
  destruct sc as [|x xs]; [contradiction|].
  split; [|split].
  - intros line. rewrite ljust_length. lia.
  - intros p contents -> Hp. unfold parse. rewrite Hm. simpl.
    unfold _open_file. rewrite Hp.
    pose proof (drain_fixed_eq (app st [{| h_lines := file_lines contents; h_closed := false;
                                         h_name := p |}]) (List.length st) delim x xs) as D.
    unfold mkgen in D. rewrite D, open_lines_new, Hr. reflexivity.
  - intros f h -> Hf Hc. unfold parse. rewrite Hm. simpl.
    pose proof (drain_fixed_eq st f delim x xs) as D. unfold mkgen in D. rewrite D.
    unfold open_lines. rewrite Hf, Hc, Hr. reflexivity.
Qed.

Lemma fixed_width_fields_witness :
  parser_map (resolve_fmt [] (SrcPath "f.dat") (Some "fixed")) = Some M_parse_fixed_width /\
  [("name", 4); ("age", 2)] <> [] /\
  NoDup (map fst [("name", 4); ("age", 2)]) /\
  ~ In "_line_no" (map fst [("name", 4); ("age", 2)]) /\
  snd (parse {| encoding := None |} (<["f.dat" := "Al 5 
"]> ∅) [] (SrcPath "f.dat") (Some "fixed") None (Some [("name", 4); ("age", 2)]) false)
  = inr (OutList [spec_fixed_record [("name", 4); ("age", 2)] 1 "Al 5 
"]).
Proof.
  assert (H1 : parser_map (resolve_fmt [] (SrcPath "f.dat") (Some "fixed"))
               = Some M_parse_fixed_width) by reflexivity.
  assert (H2 : [("name", 4); ("age", 2)] <> []) by discriminate.
  assert (H3 : NoDup (map fst [("name", 4); ("age", 2)]))
    by (apply (bool_decide_unpack _); vm_compute; reflexivity).
  assert (H4 : ~ In "_line_no" (map fst [("name", 4); ("age", 2)]))
    by (simpl; intros [H|[H|[]]]; discriminate).
  do 4 (split; [assumption|]).
  destruct (fixed_width_fields {| encoding := None |} (<["f.dat" := "Al 5 
"]> ∅) [] (SrcPath "f.dat") (Some "fixed") None _ H1 H2 H3 H4) as (_ & H & _).
  apply (H "f.dat" "Al 5 
" eq_refl eq_refl).
Defined.

(* ------------------------------------------------------------------ *)
(** ** C7: the field names of one run *)
(* ------------------------------------------------------------------ *)

(** C7 does not hold as stated: the records of one markup decode have
    the attributes and child tags of their own element, and a delimited
    row longer than the header adds the key [None]. *)
Lemma fields_differ_within_run :
  snd (parse {| encoding := None |} (<["t.xml" := "<r><a x='1'/><b/></r>"]> ∅) []
         (SrcPath "t.xml") None None None false)
  = inr (OutList [[(KStr "x", PStr "1")]; []]) /\
  snd (parse {| encoding := None |} (<["t.csv" := "a
1
1,2
"]> ∅) [] (SrcPath "t.csv") None None None false)
  = inr (OutList [[(KStr "a", PStr "1")]; [(KStr "a", PStr "1"); (KNone, PList [PStr "2"])]]).
Proof. split; vm_compute; reflexivity. Qed.

(** C7 (amended): within one run, eager or lazy (any number of [next]
    calls on the returned generator, whatever the store by then), the
    delimited records are all dicts of one header [hdr] and have its
    names, plus the key [None] exactly when the row is longer than the
    header (a short row keeps every name); the fixed-width records all
    have the same field names. *)
Theorem record_fields_per_run (self : FileParser) (fs : gmap string string) (st : store)
  (src : source) (fmt delim : option string) (sc : option (list (string * nat))) (m : meth) :
  parser_map (resolve_fmt st src fmt) = Some m ->
  (forall st' recs, parse self fs st src fmt delim sc false = (st', inr (OutList recs)) ->
     (delimited m -> csv_run_keys recs) /\
     (m = M_parse_fixed_width -> forall sc', sc = Some sc' -> keyed (fixed_keys sc') recs)) /\
  (forall st' g n st2 st3 g3 rs o,
     parse self fs st src fmt delim sc true = (st', inr (OutGen g)) ->
     take_n n st2 g = (st3, g3, rs, o) ->
     (delimited m -> csv_run_keys rs) /\
     (m = M_parse_fixed_width -> forall sc', sc = Some sc' -> keyed (fixed_keys sc') rs)).
Proof.
  intros Hm. split.
  - intros st' recs H. destruct (parse_eager_inv _ _ _ _ _ _ _ _ _ _ Hm H) as (st1 & f & st2 & D).
    split.
    + intros Hd. destruct (drain_csv _ _ _ _ _ _ _ Hd D) as [fno Hr].
      exact (rows_of_run_keys _ _ Hr).
    + intros -> sc' ->. exact (drain_fixed _ _ _ _ _ _ D).
  - intros st' g n st2 st3 g3 rs o Hp Ht.
    destruct (parse_lazy_inv _ _ _ _ _ _ _ _ _ _ Hm Hp) as [f ->]. split.
    + intros Hd. destruct (take_n_csv n st2 (mkgen m f delim sc) None _ _ _ _ Hd eq_refl Ht) as (fno & _ & Hr).
      exact (rows_of_run_keys _ _ Hr).
    + intros -> sc' ->. exact (take_n_fixed n st2 (mkgen _ f delim _) sc' _ _ _ _ eq_refl eq_refl Ht).
Qed.

Lemma record_fields_per_run_witness :
  parser_map (resolve_fmt [] (SrcPath "t.csv") None) = Some M_parse_csv /\
  csv_run_keys [[(KStr "a", PStr "1"); (KStr "b", PStr "2")];
                [(KStr "a", PStr "3"); (KStr "b", PNone)]].
Proof.
  assert (H1 : parser_map (resolve_fmt [] (SrcPath "t.csv") None) = Some M_parse_csv)
    by reflexivity.
  split; [exact H1|].
  destruct (record_fields_per_run {| encoding := None |} (<["t.csv" := "a,b
1,2
3
"]> ∅) [] (SrcPath "t.csv") None None None M_parse_csv H1) as [H _].
  refine (proj1 (H [{| h_lines := []; h_closed := true; h_name := "t.csv" |}] _ _) _).
  - vm_compute. reflexivity.
  - left. reflexivity.
Defined.


(* ------------------------------------------------------------------ *)
(** ** Extra: a lazy run of a stream against the eager one *)
(* ------------------------------------------------------------------ *)

Lemma yields_cons st g r st1 g1 rs st' g' o :
  gen_next st g = (st1, g1, Yield r) -> yields st1 g1 rs st' g' o ->
  yields st g (r :: rs) st' g' o.
Proof.
  unfold yields. intros H1 H2. cbn [List.length]. remember (S (List.length rs)) as k.
  simpl. rewrite H1. rewrite H2. reflexivity.
Qed.

Lemma yields_end st g st' g' o :
  gen_next st g = (st', g', o) -> (forall r, o <> Yield r) -> yields st g [] st' g' o.
Proof.
  unfold yields. intros H Hn. simpl. rewrite H.
  destruct o as [r| |e]; [exfalso; exact (Hn r eq_refl)|reflexivity|reflexivity].
Qed.

Lemma open_lines_set_lines st f l ls :
  open_lines st f = inr l -> open_lines (set_lines st f ls) f = inr ls.
Proof.
  unfold open_lines, set_lines. intros H.
  destruct (st !! f) as [h|] eqn:E; [|discriminate].
  destruct (h_closed h) eqn:C; [discriminate|].
  rewrite list_lookup_insert_eq; [reflexivity|].
  apply lookup_lt_is_Some_1. rewrite E. eauto.
Qed.

Lemma set_lines_set_lines st f a b :
  set_lines (set_lines st f a) f b = set_lines st f b.
Proof.
  unfold set_lines. destruct (st !! f) as [h|] eqn:E; [|rewrite E; reflexivity].
  rewrite list_lookup_insert_eq by (apply lookup_lt_is_Some_1; rewrite E; eauto).
  simpl. rewrite list_insert_insert_eq. reflexivity.
Qed.

(** [pull] is [run_lines] stopped at the first line that yields. *)
Lemma pull_run_lines ls lines rest res :
  pull ls lines = (rest, res) ->
  match res with
  | inl e => run_lines ls lines = (rest, inl e)
  | inr (ls', []) => rest = [] /\ run_lines ls lines = ([], inr (ls', []))
  | inr (ls', r :: rs) =>
      run_lines ls lines =
        match run_lines ls' rest with
        | (rest2, inl e) => (rest2, inl e)
        | (rest2, inr (ls'', recs')) => (rest2, inr (ls'', app (r :: rs) recs'))
        end
  end.
Proof.
  revert ls; induction lines as [|l lines IH]; intros ls; cbn [pull run_lines].
  - intros H. injection H as <- <-. split; reflexivity.
  - destruct (lstep ls l) as [e|[ls1 [|x xs]]] eqn:E.
    + intros H. injection H as <- <-. reflexivity.
    + intros H. specialize (IH _ H). destruct res as [e|[ls' [|r rs]]].
      * rewrite IH. reflexivity.
      * destruct IH as [-> IH]. rewrite IH. split; reflexivity.
      * rewrite IH. destruct (run_lines ls' rest) as [rest2 [e|[ls'' recs']]]; reflexivity.
    + intros H. injection H as <- <-. reflexivity.
Qed.

Lemma pull_rest_shorter ls lines rest ls' r rs :
  pull ls lines = (rest, inr (ls', r :: rs)) -> List.length rest < List.length lines.
Proof.
  revert ls; induction lines as [|l lines IH]; intros ls; cbn [pull].
  - discriminate.
  - destruct (lstep ls l) as [e|[ls1 [|x xs]]].
    + discriminate.
    + intros H. specialize (IH _ H). simpl. lia.
    + intros H. injection H as <- _. simpl. lia.
Qed.

Lemma agrees_buf st g p fin : agrees st g (GBuf p fin).
Proof.
  assert (H : yields st (with_state g (GBuf p fin)) p st (with_state g GDone)
                (match fin with None => Stop | Some e => Raise e end)).
  { induction p as [|r p IH].
    - apply yields_end; [destruct fin; reflexivity|destruct fin; discriminate].
    - eapply yields_cons; [reflexivity|exact IH]. }
  unfold agrees. destruct fin as [e|]; simpl; [exists p|]; exact H.
Qed.

Lemma drain_from_lines_cons st g ls r p :
  drain_from st g (GLines ls (r :: p)) =
    match drain_from st g (GLines ls p) with
    | (st', inr l) => (st', inr (r :: l))
    | x => x
    end.
Proof.
  unfold drain_from. destruct (open_lines st (g_f g)); [reflexivity|].
  destruct (run_lines ls l) as [rest [e|[ls' recs]]]; reflexivity.
Qed.

Lemma agrees_lines_nil st g ls :
  agrees st g (GLines ls []) -> forall p, agrees st g (GLines ls p).
Proof.
  intros H0 p. induction p as [|r p IH]; [exact H0|].
  unfold agrees in *. rewrite drain_from_lines_cons.
  destruct (drain_from st g (GLines ls p)) as [st' [e|l]].
  - destruct IH as [rs IH]. exists (r :: rs). eapply yields_cons; [reflexivity|exact IH].
  - eapply yields_cons; [reflexivity|exact IH].
Qed.

Lemma agrees_lines st g ls p : agrees st g (GLines ls p).
Proof.
  revert st ls p.
  assert (Hmain : forall n lines st ls, List.length lines <= n ->
                    open_lines st (g_f g) = inr lines -> agrees st g (GLines ls [])).
  { induction n as [|n IHn]; intros lines st ls Hn Ho.
    all: unfold agrees, drain_from; rewrite Ho.
    all: destruct (pull ls lines) as [rest res] eqn:P; pose proof (pull_run_lines _ _ _ _ P) as R.
    all: destruct res as [e|[ls' [|r rs]]].
    1, 4: rewrite R; exists []; apply yields_end; [|discriminate];
          cbn [gen_next g_state with_state resume g_f]; rewrite Ho, P; reflexivity.
    1, 3: destruct R as [-> R]; rewrite R; simpl;
          destruct (lend ls') as [|r rs] eqn:L;
          [apply yields_end; [|discriminate];
           cbn [gen_next g_state with_state resume g_f]; rewrite Ho, P; simpl; rewrite L;
           reflexivity|];
          eapply yields_cons;
          [cbn [gen_next g_state with_state resume g_f]; rewrite Ho, P; simpl; rewrite L;
           reflexivity|];
          pose proof (agrees_buf (set_lines st (g_f g) []) g rs None) as B;
          unfold agrees in B; simpl in B; exact B.
    - pose proof (pull_rest_shorter _ _ _ _ _ _ P). lia.
    - pose proof (pull_rest_shorter _ _ _ _ _ _ P) as Hlt.
      set (st1 := set_lines st (g_f g) rest).
      assert (Ho1 : open_lines st1 (g_f g) = inr rest) by exact (open_lines_set_lines _ _ _ _ Ho).
      assert (IH : agrees st1 g (GLines ls' rs)).
      { apply agrees_lines_nil. apply (IHn rest); [lia|exact Ho1]. }
      unfold agrees, drain_from in IH. rewrite Ho1 in IH.
      assert (Hn1 : gen_next st (with_state g (GLines ls [])) = (st1, with_state g (GLines ls' rs), Yield r)).
      { cbn [gen_next g_state with_state resume g_f]. rewrite Ho, P. reflexivity. }
      rewrite R. destruct (run_lines ls' rest) as [rest2 [e|[ls'' recs']]].
      + unfold st1 in IH. rewrite set_lines_set_lines in IH. destruct IH as [rs' IH].
        exists (r :: rs'). eapply yields_cons; [exact Hn1|exact IH].
      + unfold st1 in IH. rewrite set_lines_set_lines in IH.
        simpl. rewrite <- app_assoc. eapply yields_cons; [exact Hn1|exact IH]. }
  intros st ls p. apply agrees_lines_nil.
  unfold agrees, drain_from. destruct (open_lines st (g_f g)) as [e|lines] eqn:Ho.
  - exists []. apply yields_end; [|discriminate].
    cbn [gen_next g_state with_state resume g_f]. rewrite Ho. reflexivity.
  - pose proof (Hmain _ lines st ls (le_n _) Ho) as H. unfold agrees, drain_from in H.
    rewrite Ho in H. exact H.
Qed.

Lemma resume_with_state st g s0 s : resume st (with_state g s0) s = resume st g s.
Proof. destruct s as [|ls [|r rs]|[|r rs] [e|]|]; reflexivity. Qed.

Lemma gen_start_not_init st g st1 : gen_start st g <> (st1, inr GInit).
Proof.
  unfold gen_start, csv_start, read_all.
  destruct (g_meth g); repeat match goal with
    | |- context [match ?x with _ => _ end] => destruct x
    end; discriminate.
Qed.

Lemma agrees_init st g :
  g_state g = GInit ->
  match drain st g with
  | (st', inr recs) => yields st g recs st' (with_state g GDone) Stop
  | (st', inl e) => exists rs, yields st g rs st' (with_state g GDone) (Raise e)
  end.
Proof.
  intros Hs. unfold drain. rewrite Hs.
  destruct (gen_start st g) as [st1 [e|s]] eqn:E.
  - exists []. apply yields_end; [|discriminate]. unfold gen_next. rewrite Hs, E. reflexivity.
  - assert (Ha : agrees st1 g s).
    { destruct s as [|ls p|p fin|].
      - exfalso. exact (gen_start_not_init _ _ _ E).
      - apply agrees_lines.
      - apply agrees_buf.
      - unfold agrees. simpl. apply yields_end; [reflexivity|discriminate]. }
    assert (Hn : gen_next st g = gen_next st1 (with_state g s)).
    { unfold gen_next at 1. rewrite Hs, E. unfold gen_next. cbn [g_state with_state].
      destruct s; [exfalso; exact (gen_start_not_init _ _ _ E)| | |];
        symmetry; apply resume_with_state. }
    unfold agrees in Ha. unfold yields in *.
    destruct (drain_from st1 g s) as [st' [e|recs]].
    + destruct Ha as [rs Ha]. exists rs. simpl in *. rewrite Hn. exact Ha.
    + simpl in *. rewrite Hn. exact Ha.
Qed.


(** Extra X1: for a stream source with a registered format, [parse]
    with [lazy=True] returns a generator over the unchanged store, and
    calling [next] on it yields exactly the records that [lazy=False]
    returns, in order, ends with [StopIteration] in the store the eager
    call ends in, or raises the eager call's exception after a prefix of
    records. *)
Theorem lazy_stream_matches_eager (self : FileParser) (fs : gmap string string) (st : store)
  (f : nat) (fmt delim : option string) (sc : option (list (string * nat))) (m : meth) :
  parser_map (resolve_fmt st (SrcStream f) fmt) = Some m ->
  parse self fs st (SrcStream f) fmt delim sc true = (st, inr (OutGen (mkgen m f delim sc))) /\
  match parse self fs st (SrcStream f) fmt delim sc false with
  | (st', inr (OutList recs)) =>
      take_n (S (List.length recs)) st (mkgen m f delim sc)
      = (st', with_state (mkgen m f delim sc) GDone, recs, Some Stop)
  | (st', inl e) =>
      exists rs, take_n (S (List.length rs)) st (mkgen m f delim sc)
                 = (st', with_state (mkgen m f delim sc) GDone, rs, Some (Raise e))
  | (_, inr (OutGen _)) => False
  end.
Proof.
  intros Hm. split.
  - unfold parse. rewrite Hm. reflexivity.
  - unfold parse. rewrite Hm. cbn [open_source].
    pose proof (agrees_init st (mkgen m f delim sc) eq_refl) as H. unfold yields in H.
    unfold mkgen in *.
    destruct (drain st _) as [st' [e|recs]]; exact H.
Qed.

Lemma lazy_stream_matches_eager_witness :
  parser_map (resolve_fmt [{| h_lines := ["a,b
"; "1,2
"; "3,4
"]; h_closed := false; h_name := "in.csv" |}] (SrcStream 0) None) = Some M_parse_csv /\
  take_n 3 [{| h_lines := ["a,b
"; "1,2
"; "3,4
"]; h_closed := false; h_name := "in.csv" |}] (mkgen M_parse_csv 0 None None)
  = ([{| h_lines := []; h_closed := false; h_name := "in.csv" |}],
     with_state (mkgen M_parse_csv 0 None None) GDone,
     [[(KStr "a", PStr "1"); (KStr "b", PStr "2")]; [(KStr "a", PStr "3"); (KStr "b", PStr "4")]],
     Some Stop).
Proof.
  assert (H1 : parser_map (resolve_fmt [{| h_lines := ["a,b
"; "1,2
"; "3,4
"]; h_closed := false; h_name := "in.csv" |}] (SrcStream 0) None) = Some M_parse_csv)
    by reflexivity.
  split; [exact H1|].
  destruct (lazy_stream_matches_eager {| encoding := None |} ∅ _ 0 None None None M_parse_csv H1)
    as [_ H]. vm_compute in H. exact H.
Defined.


(* ------------------------------------------------------------------ *)
(** ** Extra: XML records, NDJSON, CSV round trips, the schema option *)
(* ------------------------------------------------------------------ *)

Lemma dict_get_set (d : record) (k k' : pykey) (v : pyval) :
  dict_get (dict_set d k v) k' = if pykey_eqb k' k then Some v else dict_get d k'.
Proof.
  induction d as [|[k0 v0] d IH]; simpl.
  - reflexivity.
  - destruct (pykey_eqb k k0) eqn:E; simpl.
    + apply pykey_eqb_true in E. subst k0. destruct (pykey_eqb k' k); reflexivity.
    + rewrite IH. destruct (pykey_eqb k' k) eqn:E1; [|reflexivity].
      apply pykey_eqb_true in E1. subst k'. rewrite E. reflexivity.
Qed.

Lemma pykey_eqb_refl (k : pykey) : pykey_eqb k k = true.
Proof. apply pykey_eqb_true. reflexivity. Qed.

Lemma pykey_eqb_kstr (a b : string) : pykey_eqb (KStr a) (KStr b) = String.eqb a b.
Proof. reflexivity. Qed.

Lemma xml_fold_get (t : string) (kids : list Xml.element) (rec : record) :
  dict_get
    (fold_left
       (fun rec sub =>
          match sub with
          | Xml.Element stag _ stext _ =>
              match dict_get rec (KStr stag) with
              | Some (PList l) => dict_set rec (KStr stag) (PList (app l [text_of_sub stext]))
              | Some v => dict_set rec (KStr stag) (PList [v; text_of_sub stext])
              | None => dict_set rec (KStr stag) (text_of_sub stext)
              end
          end) kids rec) (KStr t)
  = xml_merge (dict_get rec (KStr t)) (sub_texts t kids).
Proof.
  revert rec. induction kids as [|[stag sa stext sk] ks IH]; intros rec; simpl; [reflexivity|].
  rewrite IH. destruct (String.eqb stag t) eqn:E.
  - apply String.eqb_eq in E. subst stag. simpl.
    destruct (dict_get rec (KStr t)) as [[| | | | |l|]|] eqn:G;
      rewrite dict_get_set, pykey_eqb_refl; reflexivity.
  - f_equal.
    destruct (dict_get rec (KStr stag)) as [[| | | | |l|]|];
      rewrite dict_get_set, pykey_eqb_kstr, String.eqb_sym, E; reflexivity.
Qed.

Lemma attrib_fold_get (t : string) (attrib : list (string * string)) (d : record) :
  ~ In t (map fst attrib) ->
  dict_get (fold_left (fun d kv => dict_set d (KStr (fst kv)) (PStr (snd kv))) attrib d) (KStr t)
  = dict_get d (KStr t).
Proof.
  revert d. induction attrib as [|[a v] attrib IH]; intros d Hn; simpl; [reflexivity|].
  simpl in Hn. rewrite IH by tauto. rewrite dict_get_set, pykey_eqb_kstr.
  destruct (String.eqb t a) eqn:E; [|reflexivity].
  apply String.eqb_eq in E. subst a. tauto.
Qed.

Lemma xml_merge_fresh_list (l : list pyval) (vs : list pyval) :
  xml_merge (Some (PList l)) vs = Some (PList (app l vs)).
Proof.
  revert l. induction vs as [|v vs IH]; intros l; simpl; [rewrite app_nil_r; reflexivity|].
  rewrite IH, <- app_assoc. reflexivity.
Qed.

Lemma sub_texts_not_list (t : string) (kids : list Xml.element) :
  Forall (fun w => forall l, w <> PList l) (sub_texts t kids).
Proof.
  induction kids as [|[stag sa stext sk] ks IH]; simpl; [constructor|].
  destruct (String.eqb stag t); [|exact IH].
  constructor; [|exact IH]. intros l. destruct stext; discriminate.
Qed.

(** Extra X2: in the record [_parse_xml] builds for a child element, a
    sub-element tag [t] that is not an attribute name maps to the text of
    its sub-element when it occurs once, and to the list of the texts of
    its sub-elements, in document order, when it occurs more than once. *)
Theorem xml_repeated_tags (tag t : string) (attrib : list (string * string))
  (text : option string) (kids : list Xml.element) (v : pyval) (vs : list pyval) :
  ~ In t (map fst attrib) ->
  sub_texts t kids = v :: vs ->
  dict_get (xml_record (Xml.Element tag attrib text kids)) (KStr t)
  = Some (match vs with [] => v | _ => PList (v :: vs) end).
Proof.
  intros Ha Hs. unfold xml_record. cbv zeta.
  set (rec := fold_left _ kids _).
  assert (G : dict_get rec (KStr t) = Some (match vs with [] => v | _ => PList (v :: vs) end)).
  { unfold rec. rewrite xml_fold_get, attrib_fold_get by exact Ha. simpl. rewrite Hs. simpl.
    pose proof (sub_texts_not_list t kids) as F. rewrite Hs in F.
    inversion F as [|? ? Hv _]; subst.
    destruct vs as [|w ws]; [reflexivity|]. simpl.
    destruct v as [| | | | |l|]; try (rewrite xml_merge_fresh_list; reflexivity).
    exfalso. exact (Hv l eq_refl). }
  destruct rec as [|kv r] eqn:R; [discriminate G|]. exact G.
Qed.

Lemma xml_repeated_tags_witness :
  ~ In "tag" (map fst [("id", "1")]) /\
  sub_texts "tag" [Xml.Element "tag" [] (Some "a") []; Xml.Element "name" [] (Some "x") [];
                   Xml.Element "tag" [] (Some "b") []] = [PStr "a"; PStr "b"] /\
  dict_get (xml_record (Xml.Element "item" [("id", "1")] None
              [Xml.Element "tag" [] (Some "a") []; Xml.Element "name" [] (Some "x") [];
               Xml.Element "tag" [] (Some "b") []])) (KStr "tag")
  = Some (PList [PStr "a"; PStr "b"]).
Proof.
  assert (H1 : ~ In "tag" (map fst [("id", "1")])) by (simpl; intros [H|[]]; discriminate).
  assert (H2 : sub_texts "tag" [Xml.Element "tag" [] (Some "a") []; Xml.Element "name" [] (Some "x") [];
                   Xml.Element "tag" [] (Some "b") []] = [PStr "a"; PStr "b"]) by reflexivity.
  split; [exact H1|]. split; [exact H2|].
  exact (xml_repeated_tags "item" "tag" [("id", "1")] None _ (PStr "a") [PStr "b"] H1 H2).
Defined.


Lemma add_char_ok (r : Csv.rstate) (c : ascii) (s : Csv.cstate) :
  (N.of_nat (List.length (Csv.field r)) < Csv.field_limit)%N ->
  Csv.add_char r c s
  = inr {| Csv.fields := Csv.fields r; Csv.field := c :: Csv.field r; Csv.state := s |}.
Proof.
  intros H. unfold Csv.add_char.
  destruct (N.leb_spec Csv.field_limit (N.of_nat (List.length (Csv.field r)))); [lia|reflexivity].
Qed.

Lemma length_list_ascii (f : string) : List.length (list_ascii_of_string f) = String.length f.
Proof. induction f as [|c f IH]; cbn; [reflexivity|]. rewrite IH. reflexivity. Qed.

Lemma quote_chars_read (d : ascii) (acc : list string) (fd cs rest : list ascii) :
  (N.of_nat (List.length fd + List.length cs) <= Csv.field_limit)%N ->
  Csv.process_chars d {| Csv.fields := acc; Csv.field := fd; Csv.state := Csv.IN_QUOTED_FIELD |}
    (app (quote_chars cs) (Csv.quotechar :: rest))
  = Csv.process_chars d {| Csv.fields := acc; Csv.field := app (List.rev cs) fd;
                           Csv.state := Csv.QUOTE_IN_QUOTED_FIELD |} rest.
Proof.
  revert fd. induction cs as [|c cs IH]; intros fd Hl; [reflexivity|].
  cbn [List.length] in Hl. cbn [quote_chars]. destruct (Ascii.eqb c Csv.quotechar) eqn:E.
  - apply Ascii.eqb_eq in E. subst c. cbn -[Csv.add_char].
    rewrite add_char_ok by (cbn; lia). cbn -[Csv.add_char].
    rewrite IH by (cbn; lia). cbn [List.rev]. rewrite <- app_assoc. reflexivity.
  - cbn -[Csv.add_char]. rewrite E.
    rewrite add_char_ok by (cbn; lia). cbn -[Csv.add_char].
    rewrite IH by (cbn; lia). cbn [List.rev]. rewrite <- app_assoc. reflexivity.
Qed.

Lemma quote_field_read (d : ascii) (acc : list string) (s : Csv.cstate) (f : string)
  (rest : list ascii) :
  (N.of_nat (String.length f) <= Csv.field_limit)%N ->
  s = Csv.START_RECORD \/ s = Csv.START_FIELD ->
  Csv.process_chars d {| Csv.fields := acc; Csv.field := []; Csv.state := s |}
    (app (quote_field f) rest)
  = Csv.process_chars d {| Csv.fields := acc; Csv.field := List.rev (list_ascii_of_string f);
                           Csv.state := Csv.QUOTE_IN_QUOTED_FIELD |} rest.
Proof.
  intros Hl Hs. unfold quote_field. rewrite <- app_comm_cons, <- app_assoc.
  rewrite <- (app_nil_r (List.rev (list_ascii_of_string f))).
  rewrite <- quote_chars_read by (cbn [List.length Nat.add]; rewrite length_list_ascii; exact Hl).
  destruct Hs as [->| ->]; reflexivity.
Qed.

Lemma join_fields_read (d : ascii) (acc : list string) (s : Csv.cstate) (fs : list string)
  (rest : list ascii) :
  d <> Csv.quotechar -> Csv.is_crlf d = false ->
  s = Csv.START_RECORD \/ s = Csv.START_FIELD -> fs <> [] ->
  Forall (fun f => (N.of_nat (String.length f) <= Csv.field_limit)%N) fs ->
  Csv.process_chars d {| Csv.fields := acc; Csv.field := []; Csv.state := s |}
    (app (join_fields d fs) ("010"%char :: rest))
  = Csv.process_chars d {| Csv.fields := app (List.rev fs) acc; Csv.field := [];
                           Csv.state := Csv.EAT_CRNL |} rest.
Proof.
  intros Hq Hd. revert acc s. induction fs as [|f fs IH]; intros acc s Hs Hn Hl; [congruence|].
  inversion Hl as [|? ? Hl1 Hl2]; subst.
  destruct fs as [|f2 fs].
  - cbn [join_fields]. rewrite quote_field_read by assumption. simpl.
    assert (Hn1 : Ascii.eqb "010"%char d = false).
    { destruct (Ascii.eqb "010"%char d) eqn:E; [|reflexivity].
      apply Ascii.eqb_eq in E. subst d. discriminate. }
    unfold Csv.process_char. cbn [Csv.state]. rewrite Hn1. cbn. unfold Csv.save_field. cbn [Csv.field Csv.fields].
    rewrite rev_involutive, string_of_list_ascii_of_string. reflexivity.
  - change (join_fields d (f :: f2 :: fs)) with (app (quote_field f) (d :: join_fields d (f2 :: fs))).
    rewrite <- app_assoc, quote_field_read by assumption. cbn [app].
    cbn [Csv.process_chars]. unfold Csv.process_char at 1. cbn [Csv.state].
    assert (Hqd : Ascii.eqb d Csv.quotechar = false) by (apply Ascii.eqb_neq; exact Hq).
    rewrite Hqd, Ascii.eqb_refl. unfold Csv.save_field. cbn [Csv.field Csv.fields].
    rewrite rev_involutive, string_of_list_ascii_of_string.
    rewrite IH by (auto; discriminate).
    cbn [List.rev]. rewrite <- !app_assoc. reflexivity.
Qed.

Lemma feed_line_quoted (d : ascii) (fs : list string) :
  d <> Csv.quotechar -> Csv.is_crlf d = false ->
  Forall (fun f => (N.of_nat (String.length f) <= Csv.field_limit)%N) fs ->
  Csv.feed_line d Csv.reset (quoted_line d fs) = inr (Csv.reset, Some fs).
Proof.
  intros Hq Hd Hl. unfold Csv.feed_line, quoted_line.
  rewrite list_ascii_of_string_of_list_ascii.
  destruct fs as [|f fs]; [reflexivity|].
  unfold Csv.reset. rewrite join_fields_read by (auto; discriminate).
  simpl. rewrite app_nil_r. change (app (rev fs) [f]) with (rev (f :: fs)). rewrite rev_involutive. reflexivity.
Qed.

(** Extra X4: the [csv] reader reads a line written with every field
    quoted (inner quotes doubled), fields joined by the delimiter and a
    final newline, back as exactly those fields, for any delimiter other
    than the quote, CR and LF, when no field is longer than the field
    size limit (131072 characters). *)
Theorem csv_quoted_line_roundtrip (d : ascii) (fs : list string) :
  d <> Csv.quotechar -> Csv.is_crlf d = false ->
  Forall (fun f => (N.of_nat (String.length f) <= Csv.field_limit)%N) fs ->
  Csv.feed_line d Csv.reset (quoted_line d fs) = inr (Csv.reset, Some fs).
Proof. exact (feed_line_quoted d fs). Qed.

Lemma append_string_cons (c : ascii) (s1 s2 : string) :
  String c s1 ++ s2 = String c (s1 ++ s2).
Proof. reflexivity. Qed.

Lemma list_ascii_of_string_append (s1 s2 : string) :
  list_ascii_of_string (s1 ++ s2) = app (list_ascii_of_string s1) (list_ascii_of_string s2).
Proof.
  induction s1 as [|c s1 IH]; [reflexivity|].
  rewrite append_string_cons. cbn [list_ascii_of_string app]. f_equal. exact IH.
Qed.

Lemma append_empty_r (s : string) : s ++ "" = s.
Proof. induction s as [|c s IH]; [reflexivity|]. rewrite append_string_cons. f_equal. exact IH. Qed.

Lemma concat_str_cons (x : string) (xs : list string) :
  concat_str (x :: xs) = x ++ concat_str xs.
Proof.
  unfold concat_str. destruct xs; cbn [String.concat]; [|reflexivity].
  symmetry. apply append_empty_r.
Qed.

Lemma split_lines_line (cur cs rest : list ascii) :
  Forall (fun c => is_nl c = false) cs ->
  split_lines_aux cur (app cs ("010"%char :: rest))
  = string_of_list_ascii (app (List.rev cur) (app cs ["010"%char])) :: split_lines_aux [] rest.
Proof.
  revert cur. induction cs as [|c cs IH]; intros cur Hf; simpl.
  - reflexivity.
  - inversion Hf as [|? ? Hc Hcs]; subst. rewrite Hc, IH by exact Hcs.
    simpl. rewrite <- app_assoc. reflexivity.
Qed.

Lemma split_lines_quoted (d : ascii) (rows : list (list string)) :
  is_nl d = false ->
  Forall (fun fld => Forall (fun c => is_nl c = false) (list_ascii_of_string fld)) (List.concat rows) ->
  split_lines (quoted_text d rows) = map (quoted_line d) rows.
Proof.
  intros Hd Hf. unfold split_lines, quoted_text.
  induction rows as [|row rows IH]; [reflexivity|].
  simpl in Hf. apply Forall_app in Hf as [Hr Hrs].
  rewrite map_cons, concat_str_cons, list_ascii_of_string_append.
  unfold quoted_line at 1. rewrite list_ascii_of_string_of_list_ascii, <- app_assoc.
  cbn [app]. rewrite split_lines_line.
  - rewrite IH by exact Hrs. reflexivity.
  - assert (Hq : forall cs, Forall (fun c => is_nl c = false) cs ->
                 Forall (fun c => is_nl c = false) (quote_chars cs)).
    { induction cs as [|c cs IHc]; intros Hc; simpl; [constructor|].
      inversion Hc as [|? ? H1 H2]; subst.
      destruct (Ascii.eqb c Csv.quotechar); repeat constructor; auto. }
    clear IH Hrs. induction row as [|f fs IHr]; [constructor|].
    inversion Hr as [|? ? Hf1 Hfs]; subst.
    assert (Hqf : Forall (fun c => is_nl c = false) (quote_field f)).
    { unfold quote_field. constructor; [reflexivity|].
      apply Forall_app; split; [apply Hq, Hf1|repeat constructor]. }
    destruct fs as [|f2 fs]; [exact Hqf|].
    change (join_fields d (f :: f2 :: fs)) with (app (quote_field f) (d :: join_fields d (f2 :: fs))).
    apply Forall_app; split; [exact Hqf|]. constructor; [exact Hd|]. apply IHr, Hfs.
Qed.

Lemma run_lines_quoted (d : ascii) (hdr : list string) (rows : list (list string)) :
  d <> Csv.quotechar -> Csv.is_crlf d = false ->
  Forall (fun f => (N.of_nat (String.length f) <= Csv.field_limit)%N) (List.concat rows) ->
  run_lines (LCsv d (Some hdr) Csv.reset) (map (quoted_line d) rows)
  = ([], inr (LCsv d (Some hdr) Csv.reset,
              map (Csv.dict_row hdr) (List.filter nonempty_row rows))).
Proof.
  intros Hq Hd Hl. induction rows as [|row rows IH]; [reflexivity|].
  cbn [List.concat] in Hl. apply Forall_app in Hl as [Hl1 Hl2]. specialize (IH Hl2).
  cbn [map run_lines lstep]. rewrite feed_line_quoted by assumption.
  cbn [Csv.dict_reader_row]. destruct row; cbv iota beta; rewrite IH; reflexivity.
Qed.

Lemma drain_quoted (st : store) (f : nat) (m : meth) delim sc (d : ascii) (h : handle)
  (hdr : list string) (rows : list (list string)) :
  delim_char m delim = Some d -> d <> Csv.quotechar -> Csv.is_crlf d = false ->
  Forall (fun f => (N.of_nat (String.length f) <= Csv.field_limit)%N) (List.concat (hdr :: rows)) ->
  st !! f = Some h -> h_closed h = false -> h_lines h = map (quoted_line d) (hdr :: rows) ->
  drain st (mkgen m f delim sc)
  = (set_lines st f [], inr (map (Csv.dict_row hdr) (List.filter nonempty_row rows))).
Proof.
  intros Hm Hq Hd Hfl Hf Hc Hl.
  cbn [List.concat] in Hfl. apply Forall_app in Hfl as [Hfl1 Hfl2].
  assert (Ho : open_lines st f = inr (map (quoted_line d) (hdr :: rows))).
  { unfold open_lines. rewrite Hf, Hc, Hl. reflexivity. }
  assert (Hs : snd (gen_start st (mkgen m f delim sc)) = inr (GLines (LCsv d None Csv.reset) [])
               /\ fst (gen_start st (mkgen m f delim sc)) = st).
  { unfold gen_start, csv_start. cbn [g_meth g_f g_delim mkgen].
    destruct m; try discriminate; simpl in Hm; rewrite Ho;
      [destruct delim as [s|]; [rewrite Hm|injection Hm as <-]|injection Hm as <-];
      split; reflexivity. }
  unfold drain. cbn [g_state mkgen].
  destruct (gen_start st _) as [st1 r] eqn:E. destruct Hs as [Hs1 Hs2]. simpl in Hs1, Hs2.
  subst st1 r. unfold drain_from. cbn [g_f mkgen]. rewrite Ho.
  cbn [map run_lines lstep]. rewrite feed_line_quoted by assumption.
  cbv iota beta. cbn [Csv.dict_reader_row]. rewrite run_lines_quoted by assumption.
  cbn [lend Csv.flush Csv.reset Csv.field Csv.state app snd]. rewrite app_nil_r. reflexivity.
Qed.

Lemma crlf_nl (c : ascii) : Csv.is_crlf c = false -> is_nl c = false.
Proof. unfold Csv.is_crlf, is_nl. destruct (Ascii.eqb c "010"%char); [discriminate|reflexivity]. Qed.

Lemma crlf_cr (c : ascii) : Csv.is_crlf c = false -> c <> "013"%char.
Proof. intros H ->. discriminate. Qed.

Lemma universal_newlines_id (s : string) :
  Forall (fun c => c <> "013"%char) (list_ascii_of_string s) -> universal_newlines s = s.
Proof.
  induction s as [|c s IH]; intros H; [reflexivity|].
  inversion H as [|? ? H1 H2]; subst. cbn [universal_newlines].
  destruct (Ascii.eqb c "013"%char) eqn:E; [apply Ascii.eqb_eq in E; contradiction|].
  f_equal. apply IH, H2.
Qed.

Lemma quote_chars_forall (P : ascii -> Prop) (cs : list ascii) :
  Forall P cs -> Forall P (quote_chars cs).
Proof.
  induction cs as [|c cs IH]; intros H; cbn [quote_chars]; [constructor|].
  inversion H as [|? ? H1 H2]; subst.
  destruct (Ascii.eqb c Csv.quotechar); repeat constructor; auto.
Qed.

Lemma join_fields_forall (P : ascii -> Prop) (d : ascii) (fs : list string) :
  P d -> P Csv.quotechar ->
  Forall (fun f => Forall P (list_ascii_of_string f)) fs -> Forall P (join_fields d fs).
Proof.
  intros Hd Hq. induction fs as [|f fs IH]; intros Hf; [constructor|].
  inversion Hf as [|? ? Hf1 Hfs]; subst.
  assert (Hqf : Forall P (quote_field f)).
  { unfold quote_field. constructor; [exact Hq|].
    apply Forall_app; split; [apply quote_chars_forall, Hf1|repeat constructor; exact Hq]. }
  destruct fs as [|f2 fs]; [exact Hqf|].
  change (join_fields d (f :: f2 :: fs)) with (app (quote_field f) (d :: join_fields d (f2 :: fs))).
  apply Forall_app; split; [exact Hqf|]. constructor; [exact Hd|]. apply IH, Hfs.
Qed.

Lemma quoted_text_forall (P : ascii -> Prop) (d : ascii) (rows : list (list string)) :
  P d -> P Csv.quotechar -> P "010"%char ->
  Forall (fun f => Forall P (list_ascii_of_string f)) (List.concat rows) ->
  Forall P (list_ascii_of_string (quoted_text d rows)).
Proof.
  intros Hd Hq Hn. unfold quoted_text.
  induction rows as [|row rows IH]; intros Hf; [constructor|].
  cbn [List.concat] in Hf. apply Forall_app in Hf as [Hr Hrs].
  rewrite map_cons, concat_str_cons, list_ascii_of_string_append.
  apply Forall_app; split; [|apply IH, Hrs].
  unfold quoted_line. rewrite list_ascii_of_string_of_list_ascii.
  apply Forall_app; split; [apply join_fields_forall; assumption|repeat constructor; exact Hn].
Qed.

(** Extra X5: an eager [csv] or [tsv] parse of a text written as a
    header line and row lines, all fields quoted, returns one
    [DictReader] dict per non-empty row, in order, keyed by the header
    (fields without CR or LF and no longer than the field size limit,
    delimiter the one the parser uses). *)
Theorem csv_quoted_file_roundtrip (self : FileParser) (fs : gmap string string) (st : store)
  (src : source) (fmt delim : option string) (sc : option (list (string * nat))) (m : meth)
  (d : ascii) (hdr : list string) (rows : list (list string)) :
  parser_map (resolve_fmt st src fmt) = Some m ->
  delim_char m delim = Some d -> d <> Csv.quotechar -> Csv.is_crlf d = false ->
  Forall (fun fld => Forall (fun c => Csv.is_crlf c = false) (list_ascii_of_string fld))
         (List.concat (hdr :: rows)) ->
  Forall (fun f => (N.of_nat (String.length f) <= Csv.field_limit)%N) (List.concat (hdr :: rows)) ->
  (forall p, src = SrcPath p -> fs !! p = Some (quoted_text d (hdr :: rows)) ->
     snd (parse self fs st src fmt delim sc false)
       = inr (OutList (map (Csv.dict_row hdr) (List.filter nonempty_row rows)))) /\
  (forall f h, src = SrcStream f -> st !! f = Some h -> h_closed h = false ->
     h_lines h = map (quoted_line d) (hdr :: rows) ->
     parse self fs st src fmt delim sc false
       = (set_lines st f [], inr (OutList (map (Csv.dict_row hdr) (List.filter nonempty_row rows))))).
Proof.
  intros Hm Hdc Hq Hd Hf Hfl. split.
  - intros p -> Hp. unfold parse. rewrite Hm. simpl. unfold _open_file. rewrite Hp.
    rewrite (drain_quoted _ (List.length st) m delim sc d
               {| h_lines := file_lines (quoted_text d (hdr :: rows)); h_closed := false;
                  h_name := p |} hdr rows Hdc Hq Hd Hfl).
    + reflexivity.
    + rewrite lookup_app_r by lia. rewrite Nat.sub_diag. reflexivity.
    + reflexivity.
    + unfold file_lines. rewrite universal_newlines_id.
      * apply split_lines_quoted; [apply crlf_nl, Hd|].
        eapply Forall_impl; [exact Hf|]. intros fld Hc.
        eapply Forall_impl; [exact Hc|]. intros c. apply crlf_nl.
      * apply quoted_text_forall; [apply crlf_cr, Hd|discriminate|discriminate|].
        eapply Forall_impl; [exact Hf|]. intros fld Hc.
        eapply Forall_impl; [exact Hc|]. intros c. apply crlf_cr.
  - intros f h -> Hh Hc Hl. unfold parse. rewrite Hm. simpl.
    pose proof (drain_quoted st f m delim sc d h hdr rows Hdc Hq Hd Hfl Hh Hc Hl) as D.
    unfold mkgen in D. rewrite D. reflexivity.
Qed.

Lemma csv_quoted_file_roundtrip_witness :
  let rows := [["Ann"; "a,b"]; []; ["Bob"; String Csv.quotechar "x"]] in
  parser_map (resolve_fmt [] (SrcPath "t.csv") None) = Some M_parse_csv /\
  snd (parse {| encoding := None |} (<["t.csv" := quoted_text ","%char (["name"; "note"] :: rows)]> ∅)
         [] (SrcPath "t.csv") None None None false)
  = inr (OutList [[(KStr "name", PStr "Ann"); (KStr "note", PStr "a,b")];
                  [(KStr "name", PStr "Bob"); (KStr "note", PStr (String Csv.quotechar "x"))]]).
Proof.
  intros rows.
  assert (H1 : parser_map (resolve_fmt [] (SrcPath "t.csv") None) = Some M_parse_csv)
    by reflexivity.
  split; [exact H1|].
  assert (H2 : Forall (fun f => (N.of_nat (String.length f) <= Csv.field_limit)%N)
                 (List.concat (["name"; "note"] :: rows)))
    by (apply (bool_decide_unpack _); vm_compute; reflexivity).
  destruct (csv_quoted_file_roundtrip {| encoding := None |}
              (<["t.csv" := quoted_text ","%char (["name"; "note"] :: rows)]> ∅) [] (SrcPath "t.csv")
              None None None M_parse_csv ","%char ["name"; "note"] rows H1 eq_refl
              ltac:(discriminate) eq_refl ltac:(vm_compute; repeat constructor) H2) as [H _].
  rewrite (H "t.csv" eq_refl eq_refl). reflexivity.
Defined.


Lemma dchar_digit (k : nat) : k < 10 -> Json.is_digit (dchar k) = true /\ code (dchar k) - 48 = k.
Proof.
  intros Hk. unfold dchar, Json.is_digit, code.
  rewrite nat_ascii_embedding by lia. split; [|lia].
  apply andb_true_intro; split; apply Nat.leb_le; lia.
Qed.

Lemma ndigits_ok (f n : nat) :
  n < f ->
  ndigits f n <> [] /\ Forall (fun c => Json.is_digit c = true) (ndigits f n) /\
  fold_left dstep (ndigits f n) 0%Z = Z.of_nat n.
Proof.
  revert n. induction f as [|f IH]; intros n Hn; [lia|]. cbn [ndigits].
  destruct (n <? 10) eqn:E.
  - apply Nat.ltb_lt in E. destruct (dchar_digit n E) as [D1 D2].
    split; [discriminate|]. split; [repeat constructor; exact D1|].
    cbn [fold_left]. unfold dstep. rewrite D2. lia.
  - apply Nat.ltb_ge in E.
    assert (Hm : n mod 10 < 10) by (apply Nat.mod_upper_bound; lia).
    destruct (dchar_digit _ Hm) as [D1 D2].
    destruct (IH (n / 10)) as (N1 & N2 & N3).
    { assert (n / 10 < n) by (apply Nat.div_lt; lia). lia. }
    split; [destruct (ndigits f (n / 10)); discriminate|].
    split; [apply Forall_app; split; [exact N2|repeat constructor; exact D1]|].
    rewrite fold_left_app, N3. cbn [fold_left]. unfold dstep. rewrite D2.
    pose proof (Nat.div_mod n 10 ltac:(lia)). lia.
Qed.

Lemma dec_digits_all (l rest : list ascii) (acc : Z) (nd : nat) :
  Forall (fun c => Json.is_digit c = true) l ->
  dec_digits (app l rest) acc nd = dec_digits rest (fold_left dstep l acc) (nd + List.length l).
Proof.
  revert acc nd. induction l as [|c l IH]; intros acc nd Hl; simpl.
  - rewrite Nat.add_0_r. reflexivity.
  - inversion Hl as [|? ? Hc Hl']; subst. rewrite Hc, IH by exact Hl'.
    f_equal. lia.
Qed.

Lemma nat_dec_literal (n : nat) :
  List.length (nat_dec n) <= max_str_digits -> dec_literal (nat_dec n) = Some (Z.of_nat n).
Proof.
  intros Hlen. destruct (ndigits_ok (S n) n ltac:(lia)) as (N1 & N2 & N3).
  unfold dec_literal, nat_dec in *. destruct (ndigits (S n) n) as [|c l] eqn:E; [congruence|].
  inversion N2 as [|? ? Hc _]; subst. rewrite Hc.
  rewrite <- (app_nil_r (c :: l)), dec_digits_all by exact N2.
  change (dec_digits [] ?a ?b) with (Some (a, b)). cbv iota beta.
  apply Nat.leb_le in Hlen. rewrite Nat.add_0_l, Hlen, N3. reflexivity.
Qed.

Lemma is_space_digit (c : ascii) : Json.is_digit c = true -> is_space c = false.
Proof.
  unfold Json.is_digit, is_space. intros H. apply andb_prop in H as [H1 H2].
  apply Nat.leb_le in H1, H2.
  repeat (apply orb_false_intro); try apply andb_false_intro2 || apply andb_false_intro1;
    try apply Nat.eqb_neq; try apply Nat.leb_gt; unfold code in *; lia.
Qed.

Lemma lstrip_by_id (p : ascii -> bool) (s : string) :
  Forall (fun c => p c = false) (list_ascii_of_string s) -> lstrip_by p s = s.
Proof.
  destruct s as [|c s]; intros H; [reflexivity|]. simpl.
  inversion H as [|? ? Hc _]; subst. rewrite Hc. reflexivity.
Qed.

Lemma strip_id (s : string) :
  Forall (fun c => is_space c = false) (list_ascii_of_string s) -> strip s = s.
Proof.
  intros H. unfold strip, rstrip_by. rewrite (lstrip_by_id _ s H).
  rewrite lstrip_by_id.
  - unfold rev_str. rewrite list_ascii_of_string_of_list_ascii, rev_involutive.
    apply string_of_list_ascii_of_string.
  - unfold rev_str. rewrite list_ascii_of_string_of_list_ascii. apply Forall_rev, H.
Qed.

(** The characters of [z_dec z]: a minus sign, then digits. *)
Lemma z_dec_chars (z : Z) :
  Forall (fun c => c = "-"%char \/ Json.is_digit c = true) (list_ascii_of_string (z_dec z)).
Proof.
  unfold z_dec, nat_dec. rewrite list_ascii_of_string_of_list_ascii.
  destruct (ndigits_ok (S (Z.to_nat (Z.abs z))) (Z.to_nat (Z.abs z)) ltac:(lia)) as (_ & N2 & _).
  assert (F : Forall (fun c => c = "-"%char \/ Json.is_digit c = true)
                (ndigits (S (Z.to_nat (Z.abs z))) (Z.to_nat (Z.abs z)))).
  { eapply Forall_impl; [exact N2|]. intros c Hc. right. exact Hc. }
  destruct (z <? 0)%Z; [constructor; [left; reflexivity|exact F]|exact F].
Qed.

Lemma z_dec_no (z : Z) (c : ascii) :
  c <> "-"%char -> Json.is_digit c = false -> ~ In c (list_ascii_of_string (z_dec z)).
Proof.
  intros H1 H2 Hin. pose proof (z_dec_chars z) as F. rewrite List.Forall_forall in F.
  destruct (F c Hin) as [E|E]; congruence.
Qed.

Lemma py_int_unsigned (s : string) (c : ascii) (l : list ascii) :
  list_ascii_of_string (strip s) = c :: l -> Json.is_digit c = true ->
  py_int s = dec_literal (c :: l).
Proof.
  intros H Hc. unfold py_int. rewrite H.
  destruct c as [[] [] [] [] [] [] [] []]; try discriminate Hc; reflexivity.
Qed.

Lemma py_int_z_dec (z : Z) :
  List.length (nat_dec (Z.to_nat (Z.abs z))) <= max_str_digits -> py_int (z_dec z) = Some z.
Proof.
  intros Hlen.
  assert (Hs : strip (z_dec z) = z_dec z).
  { apply strip_id. eapply Forall_impl; [exact (z_dec_chars z)|].
    intros c [->|Hc]; [reflexivity|apply is_space_digit, Hc]. }
  pose proof (nat_dec_literal _ Hlen) as Hd.
  destruct (ndigits_ok (S (Z.to_nat (Z.abs z))) (Z.to_nat (Z.abs z)) ltac:(lia)) as (N1 & N2 & _).
  fold (nat_dec (Z.to_nat (Z.abs z))) in N1, N2.
  destruct (z <? 0)%Z eqn:Ez.
  - unfold py_int. rewrite Hs. unfold z_dec. rewrite Ez, list_ascii_of_string_of_list_ascii.
    rewrite Hd. simpl. f_equal. apply Z.ltb_lt in Ez. lia.
  - destruct (nat_dec (Z.to_nat (Z.abs z))) as [|c l] eqn:E; [congruence|].
    inversion N2 as [|? ? Hc _]; subst.
    rewrite (py_int_unsigned _ c l); [|rewrite Hs; unfold z_dec; rewrite Ez, E;
                                         apply list_ascii_of_string_of_list_ascii|exact Hc].
    rewrite Hd. f_equal. apply Z.ltb_ge in Ez. lia.
Qed.

Lemma split_aux_app (c : ascii) (cur xs rest : list ascii) :
  ~ In c xs -> split_aux c cur (app xs rest) = split_aux c (app (List.rev xs) cur) rest.
Proof.
  revert cur. induction xs as [|x xs IH]; intros cur Hn; [reflexivity|].
  simpl in Hn. simpl. destruct (Ascii.eqb x c) eqn:E.
  - apply Ascii.eqb_eq in E. subst. tauto.
  - rewrite IH by tauto. rewrite <- app_assoc. reflexivity.
Qed.

Lemma split_sep_join (c : ascii) (l : list string) :
  l <> [] -> Forall (fun s => ~ In c (list_ascii_of_string s)) l ->
  split_sep (join_sep c l) c = l.
Proof.
  unfold split_sep. induction l as [|x l IH]; intros Hne Hf; [congruence|].
  inversion Hf as [|? ? Hx Hl]; subst. destruct l as [|y l].
  - simpl. rewrite <- (app_nil_r (list_ascii_of_string x)), split_aux_app by exact Hx.
    simpl. rewrite !app_nil_r, rev_involutive, string_of_list_ascii_of_string. reflexivity.
  - change (join_sep c (x :: y :: l)) with (x ++ String c (join_sep c (y :: l))).
    rewrite list_ascii_of_string_append, split_aux_app by exact Hx. cbn [list_ascii_of_string].
    cbn [split_aux]. rewrite Ascii.eqb_refl, app_nil_r, rev_involutive, string_of_list_ascii_of_string.
    rewrite IH by (discriminate || exact Hl). reflexivity.
Qed.

Lemma split1_aux_app (c : ascii) (cur xs rest : list ascii) :
  ~ In c xs -> split1_aux c cur (app xs rest) = split1_aux c (app (List.rev xs) cur) rest.
Proof.
  revert cur. induction xs as [|x xs IH]; intros cur Hn; [reflexivity|].
  simpl in Hn. simpl. destruct (Ascii.eqb x c) eqn:E.
  - apply Ascii.eqb_eq in E. subst. tauto.
  - rewrite IH by tauto. rewrite <- app_assoc. reflexivity.
Qed.

Lemma split_once_first (n w : string) (c : ascii) :
  ~ In c (list_ascii_of_string n) -> split_once (n ++ String c w) c = [n; w].
Proof.
  intros Hn. unfold split_once. rewrite list_ascii_of_string_append, split1_aux_app by exact Hn.
  cbn [list_ascii_of_string split1_aux]. rewrite Ascii.eqb_refl, app_nil_r, rev_involutive.
  rewrite !string_of_list_ascii_of_string. reflexivity.
Qed.

Lemma contains_char_mid (n w : string) (c : ascii) : contains_char (n ++ String c w) c = true.
Proof.
  unfold contains_char. rewrite list_ascii_of_string_append. apply existsb_exists.
  exists c. split; [apply in_or_app; right; left; reflexivity|apply Ascii.eqb_refl].
Qed.

Lemma schema_parts_arg (sc acc : list (string * Z)) :
  Forall (fun nw => plain_name (fst nw) /\
             List.length (nat_dec (Z.to_nat (Z.abs (snd nw)))) <= max_str_digits) sc ->
  schema_parts (map (fun nw => fst nw ++ String ":"%char (z_dec (snd nw))) sc) acc
  = SchemaOk (Some (app acc sc)).
Proof.
  revert acc. induction sc as [|[n w] sc IH]; intros acc Hf; simpl.
  - rewrite app_nil_r. reflexivity.
  - inversion Hf as [|? ? [(Hc & Hcol & Hs) Hl] Hf']; subst. simpl in *.
    rewrite contains_char_mid. simpl. rewrite split_once_first by exact Hcol.
    assert (Hw : strip (z_dec w) = z_dec w).
    { apply strip_id. eapply Forall_impl; [exact (z_dec_chars w)|].
      intros c [->|Hd]; [reflexivity|apply is_space_digit, Hd]. }
    rewrite Hw, py_int_z_dec by exact Hl. rewrite Hs, IH by exact Hf'.
    rewrite <- app_assoc. reflexivity.
Qed.

(** Extra X6: [main] reads a [--fixed-schema] argument written as
    [name:width] pairs joined by commas back as that schema, for names
    without commas, colons or surrounding whitespace and widths of at
    most 4300 digits. *)
Theorem fixed_schema_arg_roundtrip (sc : list (string * Z)) :
  sc <> [] ->
  Forall (fun nw => plain_name (fst nw) /\
             List.length (nat_dec (Z.to_nat (Z.abs (snd nw)))) <= max_str_digits) sc ->
  main_fixed_schema (Some (schema_arg sc)) = SchemaOk (Some sc).
Proof.
  intros Hne Hf. unfold main_fixed_schema, schema_arg.
  rewrite split_sep_join.
  - destruct sc as [|[n w] sc']; [congruence|].
    destruct (join_sep _ _) as [|c s] eqn:E.
    + exfalso. destruct sc' as [|nw sc'']; simpl in E.
      * destruct n; discriminate.
      * destruct n; discriminate.
    + apply schema_parts_arg, Hf.
  - destruct sc; [congruence|discriminate].
  - apply List.Forall_forall. intros s Hs. apply in_map_iff in Hs.
    destruct Hs as ([n w] & <- & Hin). apply List.Forall_forall with (x := (n, w)) in Hf;
      [|exact Hin]. destruct Hf as [(Hc & _ & _) _]. simpl.
    rewrite list_ascii_of_string_append. intros Hx. apply in_app_or in Hx as [Hx|Hx]; [tauto|].
    destruct Hx as [Hx|Hx]; [discriminate|].
    revert Hx. apply z_dec_no; [discriminate|reflexivity].
Qed.

Lemma fixed_schema_arg_roundtrip_witness :
  main_fixed_schema (Some "name:20,age:3,delta:-1")
  = SchemaOk (Some [("name", 20%Z); ("age", 3%Z); ("delta", (-1)%Z)]).
Proof.
  assert (Hf : Forall (fun nw => plain_name (fst nw) /\
             List.length (nat_dec (Z.to_nat (Z.abs (snd nw)))) <= max_str_digits)
             [("name", 20%Z); ("age", 3%Z); ("delta", (-1)%Z)]).
  { repeat match goal with |- Forall _ _ => constructor end; unfold plain_name; cbn [fst snd];
      (refine (conj (conj _ (conj _ _)) _);
       [simpl; intuition discriminate|simpl; intuition discriminate|reflexivity|vm_compute; lia]). }
  exact (fixed_schema_arg_roundtrip [("name", 20%Z); ("age", 3%Z); ("delta", (-1)%Z)]
           ltac:(discriminate) Hf).
Defined.

Lemma schema_parts_app (pre rest : list string) (acc : list (string * Z)) :
  schema_parts (app pre rest) acc
  = match schema_parts pre acc with
    | SchemaOk (Some acc') => schema_parts rest acc'
    | r => r
    end.
Proof.
  revert acc. induction pre as [|p pre IH]; intros acc; [reflexivity|].
  simpl. destruct (negb (contains_char p ":"%char)); [reflexivity|].
  destruct (split_once p ":"%char) as [|n [|w [|x l]]]; try reflexivity.
  destruct (py_int (strip w)); [apply IH|reflexivity].
Qed.

(** Extra X7: in the [--fixed-schema] loop of [main], once every part
    before it has been read, a part without a colon makes [main] return
    2 after its message, whatever the later parts hold. *)
Theorem fixed_schema_first_bad_part (a bad : string) (pre post : list string)
  (s0 : list (string * Z)) :
  a <> "" ->
  split_sep a ","%char = app pre (bad :: post) ->
  schema_parts pre [] = SchemaOk (Some s0) ->
  contains_char bad ":"%char = false ->
  main_fixed_schema (Some a) = SchemaExit schema_msg 2.
Proof.
  intros Ha Hs Hp Hb. unfold main_fixed_schema.
  destruct a as [|c a']; [congruence|]. rewrite Hs, schema_parts_app, Hp.
  simpl. rewrite Hb. reflexivity.
Qed.

Lemma fixed_schema_first_bad_part_witness :
  main_fixed_schema (Some "name:20,,age:x") = SchemaExit schema_msg 2.
Proof.
  exact (fixed_schema_first_bad_part "name:20,,age:x" "" ["name:20"] ["age:x"] [("name", 20%Z)]
           ltac:(discriminate) eq_refl eq_refl eq_refl).
Defined.

Lemma csv_quoted_line_roundtrip_witness :
  Csv.feed_line ","%char Csv.reset (quoted_line ","%char ["a,b"; ""; "x"])
  = inr (Csv.reset, Some ["a,b"; ""; "x"]).
Proof.
  assert (Hl : Forall (fun f => (N.of_nat (String.length f) <= Csv.field_limit)%N) ["a,b"; ""; "x"])
    by (repeat constructor; unfold Csv.field_limit; cbn; lia).
  exact (csv_quoted_line_roundtrip ","%char ["a,b"; ""; "x"] ltac:(discriminate) eq_refl Hl).
Defined.

(** ** Extra: INI sections and their defaults *)

Lemma aset_keys {A} (d : list (string * A)) (k : string) (v : A) :
  map fst (Ini.aset d k v) = if existsb (String.eqb k) (map fst d) then map fst d else app (map fst d) [k].
Proof.
  induction d as [|[k' v'] d IH]; simpl; [reflexivity|].
  destruct (String.eqb k k') eqn:E; simpl.
  - apply String.eqb_eq in E. subst. reflexivity.
  - rewrite IH. destruct (existsb _ _); reflexivity.
Qed.


Lemma Forall_aset {A} (Q : A -> Prop) (d : list (string * A)) (k : string) (v : A) :
  Forall (fun kv => Q (snd kv)) d -> Q v -> Forall (fun kv => Q (snd kv)) (Ini.aset d k v).
Proof.
  intros H Hv. induction d as [|[k' v'] d IH]; simpl; [repeat constructor; exact Hv|].
  inversion H as [|? ? H1 H2]; subst.
  destruct (String.eqb k k'); constructor; auto.
Qed.

Lemma aget_In {A} (d : list (string * A)) (k : string) (v : A) :
  Ini.aget d k = Some v -> In (k, v) d.
Proof.
  induction d as [|[k' v'] d IH]; simpl; [discriminate|].
  destruct (String.eqb k k') eqn:E; [|intros H; right; auto].
  apply String.eqb_eq in E. subst. intros H. injection H as <-. left. reflexivity.
Qed.






Lemma join_map_keys (m : list (string * list string)) : map fst (Ini.join_map m) = map fst m.
Proof. unfold Ini.join_map. rewrite map_map. reflexivity. Qed.





















(** ** Extra: text round trip, whole documents, options, fixed-width tails, INI keys *)

Lemma lstrip_by_keep (p : ascii -> bool) (l : list ascii) :
  match l with [] => True | c :: _ => p c = false end ->
  lstrip_by p (string_of_list_ascii l) = string_of_list_ascii l.
Proof. destruct l as [|c l]; simpl; [reflexivity|]. intros ->. reflexivity. Qed.

Lemma rstrip_nl_free (cur : list ascii) :
  Forall (fun c => is_nl c = false) cur ->
  rstrip_nl (string_of_list_ascii (List.rev cur)) = string_of_list_ascii (List.rev cur).
Proof.
  intros Hf. unfold rstrip_nl, rstrip_by, rev_str.
  rewrite list_ascii_of_string_of_list_ascii, rev_involutive.
  rewrite lstrip_by_keep.
  - rewrite list_ascii_of_string_of_list_ascii. reflexivity.
  - destruct cur as [|c cur]; [exact I|]. inversion Hf; assumption.
Qed.

Lemma rstrip_nl_line (cur : list ascii) :
  Forall (fun c => is_nl c = false) cur ->
  rstrip_nl (string_of_list_ascii (List.rev ("010"%char :: cur)))
  = string_of_list_ascii (List.rev cur).
Proof.
  intros Hf. unfold rstrip_nl, rstrip_by, rev_str.
  rewrite list_ascii_of_string_of_list_ascii, rev_involutive.
  cbn [string_of_list_ascii lstrip_by]. change (is_nl "010"%char) with true. cbn iota.
  rewrite lstrip_by_keep.
  - rewrite list_ascii_of_string_of_list_ascii. reflexivity.
  - destruct cur as [|c cur]; [exact I|]. inversion Hf; assumption.
Qed.

Lemma nl_fix_app_cons (l : list ascii) (c : ascii) (cs : list ascii) :
  nl_fix (app l (c :: cs)) = nl_fix (c :: cs).
Proof.
  unfold nl_fix. rewrite rev_app_distr. simpl.
  destruct (List.rev cs); simpl; reflexivity.
Qed.

Lemma text_join_lines (cur cs : list ascii) :
  Forall (fun c => is_nl c = false) cur ->
  list_ascii_of_string
    (concat_str (map (fun l => rstrip_nl l ++ String "010"%char EmptyString)
                     (split_lines_aux cur cs)))
  = app (List.rev cur) (app cs (nl_fix (app (List.rev cur) cs))).
Proof.
  revert cur. induction cs as [|c cs IH]; intros cur Hf.
  - destruct cur as [|c cur]; [reflexivity|].
    cbn [split_lines_aux map]. rewrite concat_str_cons, list_ascii_of_string_append.
    rewrite rstrip_nl_free by exact Hf.
    rewrite list_ascii_of_string_append, list_ascii_of_string_of_list_ascii.
    rewrite !app_nil_r. unfold nl_fix. rewrite rev_involutive.
    inversion Hf as [|? ? Hc _]; subst. rewrite Hc. reflexivity.
  - cbn [split_lines_aux]. destruct (is_nl c) eqn:Hc.
    + cbn [map]. rewrite concat_str_cons, list_ascii_of_string_append.
      assert (c = "010"%char) as ->.
      { unfold is_nl in Hc. apply Ascii.eqb_eq in Hc. exact Hc. }
      rewrite rstrip_nl_line by exact Hf.
      rewrite list_ascii_of_string_append, list_ascii_of_string_of_list_ascii.
      rewrite (IH [] (List.Forall_nil _)). cbn [List.rev app].
      rewrite nl_fix_app_cons.
      destruct cs as [|c' cs].
      * rewrite <- app_assoc. reflexivity.
      * rewrite <- app_assoc. cbn [app]. f_equal. f_equal. f_equal.
        change ("010"%char :: c' :: cs) with (app ["010"%char] (c' :: cs)).
        rewrite nl_fix_app_cons. reflexivity.
    + rewrite IH by (constructor; assumption).
      cbn [List.rev]. rewrite <- !app_assoc. reflexivity.
Qed.

Lemma text_join_number (i : nat) (lines : list string) :
  text_join (number_lines spec_line_record i lines)
  = concat_str (map (fun l => rstrip_nl l ++ String "010"%char EmptyString) lines).
Proof.
  revert i. induction lines as [|l ls IH]; intros i; [reflexivity|].
  cbn [number_lines]. unfold text_join in *. cbn [map]. rewrite !concat_str_cons, IH.
  reflexivity.
Qed.

Lemma text_join_split (s : string) :
  text_join (number_lines spec_line_record 1 (split_lines s)) = s ++ newline_end s.
Proof.
  rewrite text_join_number. unfold split_lines.
  rewrite <- (string_of_list_ascii_of_string (concat_str _)).
  rewrite (text_join_lines [] (list_ascii_of_string s) (List.Forall_nil _)).
  rewrite <- (string_of_list_ascii_of_string (s ++ newline_end s)).
  rewrite list_ascii_of_string_append. cbn [List.rev app]. f_equal. f_equal.
  unfold newline_end, nl_fix. destruct (List.rev (list_ascii_of_string s)) as [|c l]; [reflexivity|].
  destruct (is_nl c); reflexivity.
Qed.

Lemma drain_lines (m : meth) (st : store) (f : nat) delim sc :
  m = M_parse_text \/ m = M_parse_unknown ->
  drain st (mkgen m f delim sc) =
    match open_lines st f with
    | inl e => (st, inl e)
    | inr lines => (set_lines st f [], inr (number_lines spec_line_record 1 lines))
    end.
Proof. intros [-> | ->]; [apply drain_text | apply drain_unknown]. Qed.

(** Extra X9: an eager [text] (or [log], or unknown-format) parse of a
    readable file gives one record per line whose [text] fields, each
    followed by a newline, spell back the file's text as text mode reads
    it ("\r\n" and "\r" read as "\n"), with a newline added when that
    text does not end with one. *)
Theorem text_lines_roundtrip (self : FileParser) (fs : gmap string string) (st : store)
  (src : source) (fmt delim : option string) (sc : option (list (string * nat))) (m : meth) :
  parser_map (resolve_fmt st src fmt) = Some m -> m = M_parse_text \/ m = M_parse_unknown ->
  (forall p contents, src = SrcPath p -> fs !! p = Some contents ->
     exists recs, snd (parse self fs st src fmt delim sc false) = inr (OutList recs) /\
       text_join recs = universal_newlines contents ++ newline_end (universal_newlines contents)) /\
  (forall f h s, src = SrcStream f -> st !! f = Some h -> h_closed h = false ->
     h_lines h = split_lines s ->
     exists recs, parse self fs st src fmt delim sc false = (set_lines st f [], inr (OutList recs)) /\
       text_join recs = s ++ newline_end s).
Proof.
  intros Hm Ht. split.
  - intros p contents -> Hp. eexists. split; [|apply text_join_split].
    unfold parse. rewrite Hm. simpl. unfold _open_file. rewrite Hp.
    pose proof (drain_lines m (app st [{| h_lines := file_lines contents; h_closed := false;
                                         h_name := p |}]) (List.length st) delim sc Ht) as D.
    unfold mkgen in D. rewrite D, open_lines_new. reflexivity.
  - intros f h s -> Hf Hc Hl. eexists. split; [|apply text_join_split].
    unfold parse. rewrite Hm. simpl.
    pose proof (drain_lines m st f delim sc Ht) as D. unfold mkgen in D. rewrite D.
    unfold open_lines. rewrite Hf, Hc, Hl. reflexivity.
Qed.

Lemma text_lines_roundtrip_witness :
  exists recs,
    snd (parse {| encoding := None |}
           (<["n.log" := "a" ++ String "013"%char (String "010"%char (String "013"%char "b"))]> ∅)
           [] (SrcPath "n.log") None None None false) = inr (OutList recs) /\
    text_join recs = "a

b
".
Proof.
  assert (H1 : parser_map (resolve_fmt [] (SrcPath "n.log") None) = Some M_parse_text)
    by reflexivity.
  destruct (text_lines_roundtrip {| encoding := None |}
    (<["n.log" := "a" ++ String "013"%char (String "010"%char (String "013"%char "b"))]> ∅)
    [] (SrcPath "n.log") None None None M_parse_text H1 (or_introl eq_refl)) as [H _].
  destruct (H "n.log" _ eq_refl eq_refl) as [recs [E J]].
  exists recs. split; [exact E|]. rewrite J. vm_compute. reflexivity.
Defined.



Lemma gen_start_opts st g g' : same_used_opts g g' -> gen_start st g' = gen_start st g.
Proof.
  intros (Hm & Hf & _ & Hd & Hs). unfold gen_start. rewrite Hm, Hf.
  destruct (g_meth g); try reflexivity.
  - rewrite Hd by reflexivity. reflexivity.
  - rewrite Hs by reflexivity. reflexivity.
Qed.

Lemma with_state_opts g g' s :
  same_used_opts g g' -> same_used_opts (with_state g s) (with_state g' s).
Proof.
  intros (Hm & Hf & _ & Hd & Hs). unfold same_used_opts, with_state; cbn.
  repeat split; auto.
Qed.

Lemma resume_opts st g g' s :
  same_used_opts g g' ->
  let '(st1, g1, o1) := resume st g s in
  let '(st2, g2, o2) := resume st g' s in
  st2 = st1 /\ o2 = o1 /\ same_used_opts g1 g2.
Proof.
  intros H. pose proof H as (Hm & Hf & _ & _ & _).
  destruct s as [| ls p | p fin |]; cbn [resume].
  - repeat split; auto; apply with_state_opts; exact H.
  - destruct p as [|r rs].
    + rewrite Hf. destruct (open_lines st (g_f g)); [repeat split; auto; apply with_state_opts; exact H|].
      destruct (pull ls l) as [rest [e|[ls' [|r rs]]]].
      * repeat split; auto; apply with_state_opts; exact H.
      * destruct (lend ls'); repeat split; auto; apply with_state_opts; exact H.
      * repeat split; auto; apply with_state_opts; exact H.
    + repeat split; auto; apply with_state_opts; exact H.
  - destruct p as [|r rs]; [destruct fin|]; repeat split; auto; apply with_state_opts; exact H.
  - repeat split; auto; apply with_state_opts; exact H.
Qed.

Lemma gen_next_opts st g g' :
  same_used_opts g g' ->
  let '(st1, g1, o1) := gen_next st g in
  let '(st2, g2, o2) := gen_next st g' in
  st2 = st1 /\ o2 = o1 /\ same_used_opts g1 g2.
Proof.
  intros H. unfold gen_next. pose proof H as (_ & _ & Hs & _ & _). rewrite Hs.
  destruct (g_state g) eqn:E; try (apply resume_opts; exact H).
  rewrite (gen_start_opts st g g' H).
  destruct (gen_start st g) as [st' [e|s]].
  - refine (conj eq_refl (conj eq_refl _)). apply with_state_opts; exact H.
  - apply resume_opts; exact H.
Qed.

Lemma take_n_opts n st g g' :
  same_used_opts g g' -> run_view (take_n n st g') = run_view (take_n n st g).
Proof.
  revert st g g'. induction n as [|n IH]; intros st g g' H.
  - cbn. pose proof H as (_ & _ & Hs & _ & _). rewrite Hs. reflexivity.
  - cbn [take_n]. pose proof (gen_next_opts st g g' H) as N.
    destruct (gen_next st g) as [[st1 g1] o1], (gen_next st g') as [[st2 g2] o2].
    destruct N as (-> & -> & H12).
    destruct o1 as [r| |e].
    + specialize (IH st1 g1 g2 H12).
      destruct (take_n n st1 g1) as [[[a b] c] d], (take_n n st1 g2) as [[[a' b'] c'] d'].
      cbn in IH |- *. injection IH as -> -> -> ->. reflexivity.
    + pose proof H12 as (_ & _ & Hs & _ & _). cbn. rewrite Hs. reflexivity.
    + pose proof H12 as (_ & _ & Hs & _ & _). cbn. rewrite Hs. reflexivity.
Qed.

Lemma drain_opts st g g' : same_used_opts g g' -> drain st g' = drain st g.
Proof.
  intros H. pose proof H as (_ & Hf & Hs & _ & _). unfold drain. rewrite Hs.
  assert (D : forall st0 s, drain_from st0 g' s = drain_from st0 g s).
  { intros st0 s. unfold drain_from. rewrite Hf. reflexivity. }
  destruct (g_state g); rewrite ?D; try reflexivity.
  rewrite (gen_start_opts st g g' H). destruct (gen_start st g) as [st' [e|s]]; [reflexivity|].
  apply D.
Qed.

(** Extra X11: [csv_delimiter] is read by the [csv] decoder only and
    [fixed_schema] by the [fixed] decoder only: changing an option
    another decoder ignores changes neither the eager result nor any
    run of [next] on the returned generator. *)
Theorem options_scoped (self : FileParser) (fs : gmap string string) (st : store)
  (src : source) (fmt d1 d2 : option string) (sc1 sc2 : option (list (string * nat)))
  (m : meth) :
  parser_map (resolve_fmt st src fmt) = Some m ->
  (m = M_parse_csv -> d2 = d1) -> (m = M_parse_fixed_width -> sc2 = sc1) ->
  parse self fs st src fmt d2 sc2 false = parse self fs st src fmt d1 sc1 false /\
  match parse self fs st src fmt d1 sc1 true, parse self fs st src fmt d2 sc2 true with
  | (s1, inr (OutGen g1)), (s2, inr (OutGen g2)) =>
      s2 = s1 /\ forall n st', run_view (take_n n st' g2) = run_view (take_n n st' g1)
  | r1, r2 => r2 = r1
  end.
Proof.
  intros Hm Hd Hs. unfold parse. rewrite Hm.
  destruct (open_source self fs st src) as [e|[[st1 f] ca]]; [split; reflexivity|].
  set (g1 := {| g_meth := m; g_f := f; g_delim := d1; g_schema := sc1; g_state := GInit |}).
  set (g2 := {| g_meth := m; g_f := f; g_delim := d2; g_schema := sc2; g_state := GInit |}).
  assert (H : same_used_opts g1 g2) by (unfold same_used_opts; cbn; repeat split; auto).
  split.
  - rewrite (drain_opts st1 g1 g2 H). reflexivity.
  - split; [reflexivity|]. intros n st'. apply take_n_opts. exact H.
Qed.

Lemma options_scoped_witness :
  parse {| encoding := None |} (<["a.txt" := "x
"]> ∅) [] (SrcPath "a.txt") None (Some ";;") (Some [("a", 1)]) false
  = parse {| encoding := None |} (<["a.txt" := "x
"]> ∅) [] (SrcPath "a.txt") None None None false.
Proof.
  assert (H1 : parser_map (resolve_fmt [] (SrcPath "a.txt") None) = Some M_parse_text)
    by reflexivity.
  exact (proj1 (options_scoped {| encoding := None |} (<["a.txt" := "x
"]> ∅) [] (SrcPath "a.txt") None None (Some ";;") None (Some [("a", 1)]) M_parse_text H1
    ltac:(discriminate) ltac:(discriminate))).
Defined.



Lemma one_char_len (s : string) : String.length s <> 1 -> one_char s = None.
Proof. destruct s as [|c [|c' s]]; cbn; auto. intros H. exfalso. apply H. reflexivity. Qed.

Lemma drain_csv_bad (st : store) (f : nat) (s : string) sc lines :
  one_char s = None -> open_lines st f = inr lines ->
  drain st (mkgen M_parse_csv f (Some s) sc) = (st, inl delimiter_error).
Proof.
  intros Hs Ho. unfold drain, gen_start, csv_start, mkgen. cbn [g_meth g_f g_state g_delim].
  rewrite Ho, Hs. reflexivity.
Qed.

(** Extra X12: with format [csv] and a [csv_delimiter] that is not one
    character, an eager parse of a readable source raises
    [TypeError('"delimiter" must be a 1-character string')]; on a stream
    it reads no line, and the lazy generator raises it at its first
    [next]. *)
Theorem csv_bad_delimiter (self : FileParser) (fs : gmap string string) (st : store)
  (src : source) (fmt : option string) (s : string) (sc : option (list (string * nat))) :
  parser_map (resolve_fmt st src fmt) = Some M_parse_csv -> String.length s <> 1 ->
  (forall p contents, src = SrcPath p -> fs !! p = Some contents ->
     snd (parse self fs st src fmt (Some s) sc false) = inl delimiter_error) /\
  (forall f h, src = SrcStream f -> st !! f = Some h -> h_closed h = false ->
     parse self fs st src fmt (Some s) sc false = (st, inl delimiter_error) /\
     exists g, parse self fs st src fmt (Some s) sc true = (st, inr (OutGen g)) /\
       gen_next st g = (st, with_state g GDone, Raise delimiter_error)).
Proof.
  intros Hm Hl. pose proof (one_char_len s Hl) as Hs. split.
  - intros p contents -> Hp. unfold parse. rewrite Hm. simpl. unfold _open_file. rewrite Hp.
    pose proof (drain_csv_bad (app st [{| h_lines := file_lines contents; h_closed := false;
      h_name := p |}]) (List.length st) s sc (file_lines contents) Hs (open_lines_new _ _ _)) as D.
    unfold mkgen in D. rewrite D. reflexivity.
  - intros f h -> Hf Hc.
    assert (Ho : open_lines st f = inr (h_lines h)) by (unfold open_lines; rewrite Hf, Hc; reflexivity).
    split.
    + unfold parse. rewrite Hm. simpl.
      pose proof (drain_csv_bad st f s sc _ Hs Ho) as D. unfold mkgen in D. rewrite D. reflexivity.
    + eexists. split.
      * unfold parse. rewrite Hm. reflexivity.
      * unfold gen_next, gen_start, csv_start. cbn [g_meth g_f g_state g_delim].
        rewrite Ho, Hs. reflexivity.
Qed.

Lemma csv_bad_delimiter_witness :
  snd (parse {| encoding := None |} (<["t.csv" := "a;;b
1;;2
"]> ∅) [] (SrcPath "t.csv") None (Some ";;") None false) = inl delimiter_error.
Proof.
  assert (H1 : parser_map (resolve_fmt [] (SrcPath "t.csv") None) = Some M_parse_csv)
    by reflexivity.
  exact (proj1 (csv_bad_delimiter {| encoding := None |} (<["t.csv" := "a;;b
1;;2
"]> ∅) [] (SrcPath "t.csv") None ";;" None H1 ltac:(discriminate)) "t.csv" _ eq_refl eq_refl).
Defined.



Lemma substring_app_l (a w : nat) (s1 s2 : string) :
  a + w <= String.length s1 -> substring a w (s1 ++ s2) = substring a w s1.
Proof.
  revert a w. induction s1 as [|c s1 IH]; intros a w Hl.
  - cbn in Hl. assert (a = 0) as -> by lia. assert (w = 0) as -> by lia.
    destruct s2; reflexivity.
  - rewrite append_string_cons. destruct a as [|a].
    + destruct w as [|w]; [reflexivity|]. cbn [substring]. f_equal. apply IH. cbn in Hl. lia.
    + cbn [substring]. apply IH. cbn in Hl. lia.
Qed.

Lemma fixed_fields_prefix (raw1 raw2 : string) (pos : nat) (sc : list (string * nat)) rec :
  (forall a w, a + w <= pos + total_width sc -> pos <= a ->
     substring a w raw1 = substring a w raw2) ->
  fixed_fields raw1 pos sc rec = fixed_fields raw2 pos sc rec.
Proof.
  revert pos rec. induction sc as [|[name width] sc IH]; intros pos rec H; [reflexivity|].
  cbn [fixed_fields]. unfold slice. rewrite (H pos width).
  - apply IH. intros a w Ha Hp. apply H; unfold total_width in *; cbn in *; lia.
  - unfold total_width; cbn. lia.
  - lia.
Qed.

Lemma rstrip_nl_nonl (s : string) :
  ~ In "010"%char (list_ascii_of_string s) -> rstrip_nl s = s.
Proof.
  intros H. unfold rstrip_nl, rstrip_by, rev_str.
  destruct (List.rev (list_ascii_of_string s)) as [|c r] eqn:E.
  - cbn. apply (f_equal (@List.rev ascii)) in E. rewrite rev_involutive in E.
    rewrite <- (string_of_list_ascii_of_string s), E. reflexivity.
  - cbn [string_of_list_ascii lstrip_by].
    assert (Hc : is_nl c = false).
    { unfold is_nl. destruct (Ascii.eqb c "010"%char) eqn:Q; [|reflexivity].
      apply Ascii.eqb_eq in Q. subst c. exfalso. apply H. apply in_rev. rewrite E. left. reflexivity. }
    rewrite Hc. cbn [list_ascii_of_string]. rewrite list_ascii_of_string_of_list_ascii.
    rewrite <- E, rev_involutive. apply string_of_list_ascii_of_string.
Qed.

Lemma ljust_long (s : string) (n : nat) : n <= String.length s -> ljust s n = s.
Proof.
  intros H. unfold ljust. replace (n - String.length s) with 0 by lia. apply append_empty_r.
Qed.

Lemma length_append (s1 s2 : string) :
  String.length (s1 ++ s2) = String.length s1 + String.length s2.
Proof. induction s1 as [|c s1 IH]; [reflexivity|]. rewrite append_string_cons. cbn. lia. Qed.

(** Extra X13: a fixed-width record depends only on the first
    [total_width] characters of its line: text past them is ignored. *)
Theorem fixed_width_ignores_tail (sc : list (string * nat)) (i : nat) (l extra : string) :
  total_width sc <= String.length l ->
  ~ In "010"%char (list_ascii_of_string (l ++ extra)) ->
  fixed_record sc i (l ++ extra) = fixed_record sc i l.
Proof.
  intros Hw Hn.
  assert (Hl : ~ In "010"%char (list_ascii_of_string l)).
  { intros Hi. apply Hn. rewrite list_ascii_of_string_append. apply in_or_app. left. exact Hi. }
  unfold fixed_record. rewrite (rstrip_nl_nonl _ Hn), (rstrip_nl_nonl _ Hl).
  rewrite (ljust_long l) by exact Hw.
  rewrite (ljust_long (l ++ extra)) by (rewrite length_append; lia).
  f_equal. apply fixed_fields_prefix. intros a w Ha _. apply substring_app_l. lia.
Qed.

Lemma fixed_width_ignores_tail_witness :
  fixed_record [("id", 2); ("name", 3)] 1 ("07Bob" ++ "  trailing notes")
  = [(KStr "id", PStr "07"); (KStr "name", PStr "Bob"); (KStr "_line_no", PInt 1)].
Proof.
  rewrite (fixed_width_ignores_tail [("id", 2); ("name", 3)] 1 "07Bob" "  trailing notes").
  - vm_compute. reflexivity.
  - vm_compute. lia.
  - vm_compute. intuition discriminate.
Defined.



Lemma lower_char_idem (c : ascii) : lower_char (lower_char c) = lower_char c.
Proof. destruct c as [[] [] [] [] [] [] [] []]; reflexivity. Qed.

Lemma lower_idem (s : string) : lower (lower s) = lower s.
Proof. induction s as [|c s IH]; cbn; [reflexivity|]. rewrite lower_char_idem, IH. reflexivity. Qed.

Section Keys.
Variable P : string -> Prop.
Lemma Forall_aset_keys {A} (d : list (string * A)) (k : string) (v : A) :
  Forall P (map fst d) -> P k -> Forall P (map fst (Ini.aset d k v)).
Proof.
  intros H Hk. rewrite aset_keys. destruct (existsb _ _); [exact H|].
  apply Forall_app. split; [exact H|]. repeat constructor. exact Hk.
Qed.

Lemma Forall_aset_sect (d : list (string * list (string * list string))) n m :
  Forall (fun sm => Forall P (map fst (snd sm))) d -> Forall P (map fst m) ->
  Forall (fun sm => Forall P (map fst (snd sm))) (Ini.aset d n m).
Proof. intros H Hm. apply (Forall_aset (fun m => Forall P (map fst m))); assumption. Qed.

Lemma cur_map_keys st m : ini_keys P st -> Ini.cur_map st = Some m -> Forall P (map fst m).
Proof.
  intros (Hd & Hs & _). unfold Ini.cur_map. destruct (Ini.r_cursect st) as [[|n]|]; [| |discriminate].
  - intros H. injection H as <-. exact Hd.
  - intros H. apply aget_In in H. rewrite List.Forall_forall in Hs. exact (Hs _ H).
Qed.

Lemma put_cur_keys st m : ini_keys P st -> Forall P (map fst m) -> ini_keys P (Ini.put_cur st m).
Proof.
  intros (Hd & Hs & Ho) Hm. unfold Ini.put_cur. destruct (Ini.r_cursect st) as [[|n]|].
  - split; [exact Hm|split; assumption].
  - split; [exact Hd|split; [|exact Ho]]. apply Forall_aset_sect; assumption.
  - split; [|split]; assumption.
Qed.

Lemma nonempty_some o o' : Ini.nonempty o = Some o' -> o = Some o'.
Proof. destruct o as [[|c s]|]; cbn; congruence. Qed.

Lemma append_cur_keys st o v :
  ini_keys P st -> Ini.nonempty (Ini.r_optname st) = Some o -> ini_keys P (Ini.append_cur st o v).
Proof.
  intros H Ho. unfold Ini.append_cur. destruct (Ini.cur_map st) as [m|] eqn:E; [|exact H].
  apply put_cur_keys; [exact H|]. apply Forall_aset_keys; [exact (cur_map_keys _ _ H E)|].
  destruct H as (_ & _ & Hp). apply nonempty_some in Ho. rewrite Ho in Hp. exact Hp.
Qed.

Hypothesis P_lower : forall s, P (lower s).

Lemma read_line_keys st line st' :
  ini_keys P st -> Ini.read_line st line = inr st' -> ini_keys P st'.
Proof.
  intros H. unfold Ini.read_line. cbv zeta.
  destruct (String.eqb _ "").
  { destruct (negb _); [|intros E; injection E as <-; exact H].
    destruct (Ini.r_cursect st), (Ini.nonempty (Ini.r_optname st)) eqn:En;
      intros E; injection E as <-; try exact H. apply append_cur_keys; assumption. }
  destruct (match Ini.r_cursect st with Some _ => _ | None => None end) as [o|] eqn:Ec.
  { intros E. injection E as <-. apply append_cur_keys; [exact H|].
    destruct (Ini.r_cursect st); [|discriminate].
    destruct (Ini.nonempty (Ini.r_optname st)); [|discriminate].
    destruct (_ <? _); congruence. }
  destruct H as (Hd & Hs & Ho).
  destruct (Ini.sect_header _) as [h|].
  - destruct (Ini.amem _ h); [discriminate|].
    destruct (String.eqb h "DEFAULT"); intros E; injection E as <-.
    + split; [exact Hd|split; [exact Hs|exact I]].
    + split; [exact Hd|split; [|exact I]]. apply Forall_app. split; [exact Hs|]. repeat constructor.
  - destruct (Ini.r_cursect _); [|discriminate].
    destruct (Ini.opt_split _ _) as [[o v]|].
    + destruct (Ini.added_mem _ _); [discriminate|].
      destruct (Ini.cur_map _) as [m|] eqn:Em; intros E; injection E as <-.
      * match type of Em with Ini.cur_map ?s = _ =>
          assert (Hst : ini_keys P s) by (split; [exact Hd|split; [exact Hs|apply P_lower]]) end.
        apply put_cur_keys; [exact Hst|].
        apply Forall_aset_keys; [exact (cur_map_keys _ _ Hst Em)|apply P_lower].
      * split; [exact Hd|split; [exact Hs|apply P_lower]].
    + intros E. injection E as <-. split; [exact Hd|split; [exact Hs|exact Ho]].
Qed.

Lemma read_lines_keys st lines st' :
  ini_keys P st -> Ini.read_lines st lines = inr st' -> ini_keys P st'.
Proof.
  revert st. induction lines as [|l ls IH]; intros st H; simpl.
  - intros E. injection E as <-. exact H.
  - destruct (Ini.read_line st l) as [e|s1] eqn:E; [discriminate|].
    apply IH. exact (read_line_keys _ _ _ H E).
Qed.

Lemma read_file_keys lines c :
  Ini.read_file lines = inr c ->
  Forall P (map fst (Ini.c_defaults c)) /\
  Forall (fun sm => Forall P (map fst (snd sm))) (Ini.c_sections c).
Proof.
  unfold Ini.read_file. destruct (Ini.read_lines Ini.init_state lines) as [e|st] eqn:E;
    [discriminate|].
  assert (H : ini_keys P st).
  { apply (read_lines_keys Ini.init_state lines); [|exact E]. split; [constructor|split; [constructor|exact I]]. }
  destruct (Ini.r_err st); [discriminate|]. intros Ec. injection Ec as <-.
  destruct H as (Hd & Hs & _). split; simpl.
  - rewrite join_map_keys. exact Hd.
  - apply Forall_map. eapply Forall_impl; [exact Hs|]. intros sm Hm. simpl.
    rewrite join_map_keys. exact Hm.
Qed.

End Keys.

Lemma Forall_dict_set (Q : pykey -> Prop) (d : record) (k : pykey) (v : pyval) :
  Forall Q (keys d) -> Q k -> Forall Q (keys (dict_set d k v)).
Proof.
  intros H Hk. induction d as [|[k' v'] d IH]; cbn; [repeat constructor; exact Hk|].
  inversion H as [|? ? H1 H2]; subst.
  destruct (pykey_eqb k k'); cbn; constructor; auto.
Qed.

Lemma Forall_fold_set (Q : pykey -> Prop) (kvs : list (string * string)) (d : record) :
  Forall Q (keys d) -> Forall (fun kv => Q (KStr (fst kv))) kvs ->
  Forall Q (keys (fold_left (fun d kv => dict_set d (KStr (fst kv)) (PStr (snd kv))) kvs d)).
Proof.
  revert d. induction kvs as [|kv kvs IH]; intros d Hd Hk; [exact Hd|].
  inversion Hk as [|? ? H1 H2]; subst. cbn [fold_left]. apply IH; [|exact H2].
  apply Forall_dict_set; assumption.
Qed.

Lemma items_keys (c : Ini.config) (s : string) kvs :
  Ini.items c s = inr kvs -> map fst kvs = map fst (ini_merged c s).
Proof.
  unfold Ini.items. fold (ini_merged c s).
  set (m := ini_merged c s). clearbody m.
  generalize m at 2 3. intros ks. revert kvs.
  induction ks as [|[k v] ks IH]; intros kvs; [cbn; intros E; injection E as <-; reflexivity|].
  cbn -[Ini.interpolate]. destruct (Ini.interpolate _ _ _ _); [|discriminate].
  match goal with |- context [match ?x with inl _ => _ | inr _ => _ end] =>
    destruct x as [e|rest] eqn:Er end; [discriminate|].
  intros E. injection E as <-. cbn. f_equal. apply IH. reflexivity.
Qed.

Lemma fold_aset_keys (P : string -> Prop) (l d : list (string * string)) :
  Forall P (map fst d) -> Forall P (map fst l) ->
  Forall P (map fst (fold_left (fun d kv => Ini.aset d (fst kv) (snd kv)) l d)).
Proof.
  revert d. induction l as [|kv l IH]; intros d Hd Hl; [exact Hd|].
  inversion Hl as [|? ? H1 H2]; subst. cbn [fold_left]. apply IH; [|exact H2].
  apply Forall_aset_keys; assumption.
Qed.

Lemma ini_records_keys (P : string -> Prop) (c : Ini.config) (secs : list string) recs err :
  P "__section__" ->
  Forall P (map fst (Ini.c_defaults c)) ->
  Forall (fun sm => Forall P (map fst (snd sm))) (Ini.c_sections c) ->
  ini_records c secs = (recs, err) ->
  Forall (fun r => Forall (fun k => exists s, k = KStr s /\ P s) (keys r)) recs.
Proof.
  intros Hsec Hd Hs. revert recs err. induction secs as [|s ss IH]; intros recs err; cbn.
  - intros E. injection E as <- _. constructor.
  - destruct (Ini.items c s) as [e|kvs] eqn:Ei; [intros E; injection E as <- _; constructor|].
    destruct (ini_records c ss) as [rs e'] eqn:Er. intros E. injection E as <- _.
    constructor; [|apply (IH rs e'); reflexivity].
    apply Forall_fold_set.
    + repeat constructor. exists "__section__". split; [reflexivity|exact Hsec].
    + assert (Hk : Forall P (map fst kvs)).
      { rewrite (items_keys c s kvs Ei). unfold ini_merged. apply fold_aset_keys; [exact Hd|].
        destruct (Ini.aget (Ini.c_sections c) s) as [m|] eqn:Em; [|constructor].
        apply aget_In in Em. rewrite List.Forall_forall in Hs. exact (Hs _ Em). }
      eapply Forall_impl; [exact (proj1 (List.Forall_map fst P kvs) Hk)|]. intros kv Hkv. cbn.
      exists (fst kv). split; [reflexivity|exact Hkv].
Qed.

Lemma drain_ini_gen (st : store) (f : nat) delim sc :
  drain st (mkgen M_parse_ini f delim sc) =
    match open_lines st f with
    | inl e => (st, inl e)
    | inr lines =>
        match Ini.read_file lines with
        | inl e => (set_lines st f [], inl e)
        | inr c =>
            match ini_records c (Ini.sections c) with
            | (recs, None) => (set_lines st f [], inr recs)
            | (_, Some e) => (set_lines st f [], inl e)
            end
        end
    end.
Proof.
  unfold drain, gen_start, read_all. cbn [g_state g_meth g_f mkgen].
  destruct (open_lines st f) as [e|lines]; [reflexivity|].
  destruct (Ini.read_file lines) as [e|c]; [reflexivity|].
  destruct (ini_records c (Ini.sections c)) as [recs [e|]]; reflexivity.
Qed.

Lemma drain_ini_keys (st : store) (f : nat) delim sc st' recs :
  drain st (mkgen M_parse_ini f delim sc) = (st', inr recs) ->
  Forall (fun r => Forall (fun k => exists s, k = KStr s /\ lower s = s) (keys r)) recs.
Proof.
  rewrite drain_ini_gen. destruct (open_lines st f) as [e|lines]; [discriminate|].
  destruct (Ini.read_file lines) as [e|c] eqn:Ec; [discriminate|].
  destruct (ini_records c (Ini.sections c)) as [rs [e|]] eqn:Er; [discriminate|].
  intros E. injection E as _ <-.
  destruct (read_file_keys (fun s => lower s = s) (fun s => lower_idem s) lines c Ec) as [Hd Hs].
  exact (ini_records_keys (fun s => lower s = s) c _ rs None eq_refl Hd Hs Er).
Qed.

(** Extra X14: every key of every record of a successful eager [ini]
    parse is a string equal to its own lower-case form (option names
    pass through [optionxform], and [__section__] is lower case). *)
Theorem ini_keys_lowercase (self : FileParser) (fs : gmap string string) (st : store)
  (src : source) (fmt delim : option string) (sc : option (list (string * nat)))
  (recs : list record) :
  parser_map (resolve_fmt st src fmt) = Some M_parse_ini ->
  snd (parse self fs st src fmt delim sc false) = inr (OutList recs) ->
  Forall (fun r => Forall (fun k => exists s, k = KStr s /\ lower s = s) (keys r)) recs.
Proof.
  intros Hm. unfold parse. rewrite Hm.
  destruct (open_source self fs st src) as [e|[[st1 f] ca]]; [discriminate|].
  cbn -[drain]. pose proof (drain_ini_keys st1 f delim sc) as D. unfold mkgen in D.
  destruct (drain st1 _) as [st2 [e|l]]; [destruct ca; discriminate|].
  destruct ca; cbn; intros E; injection E as <-; exact (D _ _ eq_refl).
Qed.

Lemma ini_keys_lowercase_witness :
  snd (parse {| encoding := None |} (<["s.ini" := "[Server]
Host = a
PORT: 80
"]> ∅) [] (SrcPath "s.ini") None None None false)
    = inr (OutList [[(KStr "__section__", PStr "Server"); (KStr "host", PStr "a");
                     (KStr "port", PStr "80")]]) /\
  Forall (fun r => Forall (fun k => exists s, k = KStr s /\ lower s = s) (keys r))
    [[(KStr "__section__", PStr "Server"); (KStr "host", PStr "a"); (KStr "port", PStr "80")]].
Proof.
  assert (E : snd (parse {| encoding := None |} (<["s.ini" := "[Server]
Host = a
PORT: 80
"]> ∅) [] (SrcPath "s.ini") None None None false)
    = inr (OutList [[(KStr "__section__", PStr "Server"); (KStr "host", PStr "a");
                     (KStr "port", PStr "80")]])) by (vm_compute; reflexivity).
  split; [exact E|].
  exact (ini_keys_lowercase {| encoding := None |} (<["s.ini" := "[Server]
Host = a
PORT: 80
"]> ∅) [] (SrcPath "s.ini") None None None _ eq_refl E).
Defined.

(** ** Extra: INI reader errors *)

Lemma rev_str_app_list (l : list ascii) :
  rev_str (string_of_list_ascii l) = string_of_list_ascii (List.rev l).
Proof. unfold rev_str. rewrite list_ascii_of_string_of_list_ascii. reflexivity. Qed.

Lemma header_line_list (h : string) :
  list_ascii_of_string (header_line h)
  = "["%char :: app (list_ascii_of_string h) ["]"%char; "010"%char].
Proof.
  unfold header_line. cbn [list_ascii_of_string]. rewrite list_ascii_of_string_append. reflexivity.
Qed.

Lemma strip_header_line (h : string) :
  strip (header_line h)
  = string_of_list_ascii ("["%char :: app (list_ascii_of_string h) ["]"%char]).
Proof.
  unfold strip. unfold header_line at 1. cbn [lstrip_by]. change (is_space "["%char) with false.
  cbn iota. fold (header_line h).
  rewrite <- (string_of_list_ascii_of_string (header_line h)), header_line_list.
  unfold rstrip_by. rewrite rev_str_app_list.
  replace (List.rev ("["%char :: app (list_ascii_of_string h) ["]"%char; "010"%char]))
    with ("010"%char :: "]"%char :: app (List.rev (list_ascii_of_string h)) ["["%char]).
  2:{ cbn [List.rev]. rewrite rev_app_distr. reflexivity. }
  cbn [string_of_list_ascii lstrip_by]. change (is_space "010"%char) with true.
  change (is_space "]"%char) with false. cbn iota.
  change (String "]"%char (string_of_list_ascii (app (List.rev (list_ascii_of_string h)) ["["%char])))
    with (string_of_list_ascii ("]"%char :: app (List.rev (list_ascii_of_string h)) ["["%char])).
  rewrite rev_str_app_list. f_equal. cbn [List.rev]. rewrite rev_app_distr, rev_involutive.
  reflexivity.
Qed.

Lemma drop_to_bracket_rev (l : list ascii) :
  (fix drop_to_bracket (l : list ascii) : option (list ascii) :=
     match l with
     | [] => None
     | c :: l' => if Ascii.eqb c "]"%char then Some l' else drop_to_bracket l'
     end) ("]"%char :: l) = Some l.
Proof. reflexivity. Qed.

Lemma sect_header_of (h : string) :
  h <> "" ->
  Ini.sect_header (string_of_list_ascii ("["%char :: app (list_ascii_of_string h) ["]"%char]))
  = Some h.
Proof.
  intros Hh. unfold Ini.sect_header. rewrite list_ascii_of_string_of_list_ascii.
  rewrite rev_app_distr. cbn [List.rev app]. rewrite drop_to_bracket_rev.
  destruct (List.rev (list_ascii_of_string h)) as [|c r] eqn:E.
  - exfalso. apply Hh. apply (f_equal (@List.rev ascii)) in E. rewrite rev_involutive in E.
    rewrite <- (string_of_list_ascii_of_string h), E. reflexivity.
  - rewrite <- E, rev_involutive. rewrite string_of_list_ascii_of_string. reflexivity.
Qed.

Lemma read_line_header (st : Ini.rstate) (h : string) :
  h <> "" ->
  Ini.read_line st (header_line h)
  = if Ini.amem (Ini.r_sections st) h then inl (ConfigParserError "DuplicateSectionError")
    else if String.eqb h "DEFAULT"
    then inr (Ini.set_header (Ini.with_indent st 0) (Ini.r_sections st) Ini.CurDefault h)
    else inr (Ini.set_header (Ini.with_indent st 0) (app (Ini.r_sections st) [(h, [])])
                (Ini.CurSect h) h).
Proof.
  intros Hh. unfold Ini.read_line. rewrite strip_header_line. cbv zeta.
  cbn [string_of_list_ascii Ini.starts_with]. change (Ascii.eqb "#"%char "["%char) with false.
  change (Ascii.eqb ";"%char "["%char) with false. cbn [orb negb].
  cbn [String.eqb]. rewrite header_line_list. cbn [Ini.first_nonspace].
  change (is_space "["%char) with false. cbn iota.
  assert (Hc : match Ini.r_cursect st with
               | Some _ => match Ini.nonempty (Ini.r_optname st) with
                           | Some o => if Ini.r_indent st <? 0 then Some o else None
                           | None => None end
               | None => None end = None).
  { destruct (Ini.r_cursect st); [|reflexivity]. destruct (Ini.nonempty _); [|reflexivity].
    destruct (Ini.r_indent st <? 0) eqn:E; [apply Nat.ltb_lt in E; lia|reflexivity]. }
  rewrite Hc. fold (string_of_list_ascii ("["%char :: app (list_ascii_of_string h) ["]"%char])).
  change (String "["%char (string_of_list_ascii (app (list_ascii_of_string h) ["]"%char])))
    with (string_of_list_ascii ("["%char :: app (list_ascii_of_string h) ["]"%char])).
  rewrite sect_header_of by exact Hh. reflexivity.
Qed.

Lemma sections_extend_refl st : sections_extend st st.
Proof. exists []. rewrite app_nil_r. reflexivity. Qed.

Lemma sections_extend_trans a b c :
  sections_extend a b -> sections_extend b c -> sections_extend a c.
Proof. intros [e1 H1] [e2 H2]. exists (app e1 e2). rewrite H2, H1, app_assoc. reflexivity. Qed.

Lemma sections_same st st' : Ini.r_sections st' = Ini.r_sections st -> sections_extend st st'.
Proof. intros H. exists []. rewrite H, app_nil_r. reflexivity. Qed.

Lemma put_cur_sections st m : sections_extend st (Ini.put_cur st m).
Proof.
  unfold Ini.put_cur, sections_extend.
  destruct (Ini.r_cursect st) as [[|n]|]; cbn [Ini.r_sections];
    [exists []; rewrite app_nil_r; reflexivity| |exists []; rewrite app_nil_r; reflexivity].
  rewrite aset_keys. destruct (existsb _ _).
  - exists []. rewrite app_nil_r. reflexivity.
  - eexists. reflexivity.
Qed.

Lemma append_cur_sections st o v : sections_extend st (Ini.append_cur st o v).
Proof.
  unfold Ini.append_cur. destruct (Ini.cur_map st); [apply put_cur_sections|apply sections_extend_refl].
Qed.

Lemma read_line_sections st line st' :
  Ini.read_line st line = inr st' -> sections_extend st st'.
Proof.
  unfold Ini.read_line. cbv zeta.
  destruct (String.eqb _ "").
  { destruct (negb _); [|intros E; injection E as <-; (apply sections_same; reflexivity)].
    destruct (Ini.r_cursect st), (Ini.nonempty (Ini.r_optname st));
      intros E; injection E as <-; try (apply sections_same; reflexivity). apply append_cur_sections. }
  destruct (match Ini.r_cursect st with Some _ => _ | None => None end) as [o|].
  { intros E. injection E as <-. apply append_cur_sections. }
  destruct (Ini.sect_header _) as [h|].
  - destruct (Ini.amem _ h); [discriminate|].
    destruct (String.eqb h "DEFAULT"); intros E; injection E as <-.
    + (apply sections_same; reflexivity).
    + exists [h]. cbn. rewrite map_app. reflexivity.
  - destruct (Ini.r_cursect _); [|discriminate].
    destruct (Ini.opt_split _ _) as [[o v]|].
    + destruct (Ini.added_mem _ _); [discriminate|].
      destruct (Ini.cur_map _) as [m|] eqn:Em; intros E; injection E as <-.
      * eapply sections_extend_trans; [|apply put_cur_sections]. (apply sections_same; reflexivity).
      * (apply sections_same; reflexivity).
    + intros E. injection E as <-. (apply sections_same; reflexivity).
Qed.

Lemma read_lines_sections st lines st' :
  Ini.read_lines st lines = inr st' -> sections_extend st st'.
Proof.
  revert st. induction lines as [|l ls IH]; intros st; simpl.
  - intros E. injection E as <-. apply sections_extend_refl.
  - destruct (Ini.read_line st l) as [e|s1] eqn:E; [discriminate|].
    intros H. eapply sections_extend_trans; [exact (read_line_sections _ _ _ E)|exact (IH _ H)].
Qed.

Lemma read_lines_app st a b :
  Ini.read_lines st (app a b)
  = match Ini.read_lines st a with inl e => inl e | inr st' => Ini.read_lines st' b end.
Proof.
  revert st. induction a as [|l a IH]; intros st; [reflexivity|]. cbn.
  destruct (Ini.read_line st l); [reflexivity|]. apply IH.
Qed.

Lemma amem_In {A} (d : list (string * A)) (k : string) :
  Ini.amem d k = true <-> In k (map fst d).
Proof.
  unfold Ini.amem. induction d as [|[k' v'] d IH]; cbn; [split; [discriminate|tauto]|].
  destruct (String.eqb k k') eqn:E.
  - apply String.eqb_eq in E. subst. tauto.
  - rewrite IH. apply String.eqb_neq in E. split; [tauto|]. intros [H|H]; [congruence|exact H].
Qed.

Lemma read_file_duplicate (h : string) (pre mid post : list string) (st : Ini.rstate) :
  h <> "" -> h <> "DEFAULT" ->
  Ini.read_lines Ini.init_state (app pre (header_line h :: mid)) = inr st ->
  Ini.read_file (app pre (header_line h :: app mid (header_line h :: post)))
  = inl (ConfigParserError "DuplicateSectionError").
Proof.
  intros Hh Hd Hr. unfold Ini.read_file.
  replace (app pre (header_line h :: app mid (header_line h :: post)))
    with (app (app pre (header_line h :: mid)) (header_line h :: post))
    by (rewrite <- app_assoc; reflexivity).
  rewrite read_lines_app, Hr. cbn [Ini.read_lines].
  rewrite read_lines_app in Hr.
  destruct (Ini.read_lines Ini.init_state pre) as [e|s0]; [discriminate|].
  cbn [Ini.read_lines] in Hr. rewrite read_line_header in Hr by exact Hh.
  destruct (Ini.amem (Ini.r_sections s0) h); [discriminate|].
  apply String.eqb_neq in Hd. rewrite Hd in Hr.
  destruct (read_lines_sections _ _ _ Hr) as [ext He].
  rewrite read_line_header by exact Hh.
  assert (Hm : Ini.amem (Ini.r_sections st) h = true).
  { apply amem_In. rewrite He. apply in_or_app. left. cbn. rewrite map_app. apply in_or_app.
    right. left. reflexivity. }
  rewrite Hm. reflexivity.
Qed.

(** The lines [read_file] reads as [ls] raise [e]: so does an eager [ini]
    parse of a file or stream with those lines. *)
Lemma ini_parse_raises (self : FileParser) (fs : gmap string string) (st : store)
  (src : source) (fmt delim : option string) (sc : option (list (string * nat)))
  (ls : list string) (e : pyexc) :
  parser_map (resolve_fmt st src fmt) = Some M_parse_ini ->
  Ini.read_file ls = inl e ->
  (forall p contents, src = SrcPath p -> fs !! p = Some contents -> file_lines contents = ls ->
     snd (parse self fs st src fmt delim sc false) = inl e) /\
  (forall f h, src = SrcStream f -> st !! f = Some h -> h_closed h = false -> h_lines h = ls ->
     parse self fs st src fmt delim sc false = (set_lines st f [], inl e)).
Proof.
  intros Hm Hr. split.
  - intros p contents -> Hp Hl. unfold parse. rewrite Hm. simpl. unfold _open_file. rewrite Hp.
    pose proof (drain_ini_gen (app st [{| h_lines := file_lines contents; h_closed := false;
                                          h_name := p |}]) (List.length st) delim sc) as D.
    unfold mkgen in D. rewrite D, open_lines_new, Hl, Hr. reflexivity.
  - intros f h -> Hf Hc Hl. unfold parse. rewrite Hm. simpl.
    pose proof (drain_ini_gen st f delim sc) as D. unfold mkgen in D. rewrite D.
    unfold open_lines. rewrite Hf, Hc, Hl, Hr. reflexivity.
Qed.

(** Extra X15: in an [ini] file, a section header [[h]] (at the start
    of its line, [h] not [DEFAULT]) that occurs a second time makes the
    eager parse raise [DuplicateSectionError], once the lines before
    that second occurrence have been read without error (the lines of a file being those text mode reads ("\r\n" and "\r" end
    a line and read as "\n")). *)
Theorem ini_duplicate_section (self : FileParser) (fs : gmap string string) (st : store)
  (src : source) (fmt delim : option string) (sc : option (list (string * nat)))
  (h : string) (pre mid post : list string) (st0 : Ini.rstate) :
  parser_map (resolve_fmt st src fmt) = Some M_parse_ini ->
  h <> "" -> h <> "DEFAULT" ->
  Ini.read_lines Ini.init_state (app pre (header_line h :: mid)) = inr st0 ->
  let ls := app pre (header_line h :: app mid (header_line h :: post)) in
  (forall p contents, src = SrcPath p -> fs !! p = Some contents -> file_lines contents = ls ->
     snd (parse self fs st src fmt delim sc false)
     = inl (ConfigParserError "DuplicateSectionError")) /\
  (forall f hd, src = SrcStream f -> st !! f = Some hd -> h_closed hd = false -> h_lines hd = ls ->
     parse self fs st src fmt delim sc false
     = (set_lines st f [], inl (ConfigParserError "DuplicateSectionError"))).
Proof.
  intros Hm Hh Hd Hr ls.
  exact (ini_parse_raises self fs st src fmt delim sc ls _ Hm
           (read_file_duplicate h pre mid post st0 Hh Hd Hr)).
Qed.





Lemma ini_duplicate_section_witness :
  snd (parse {| encoding := None |} (<["d.ini" := "[a]
x = 1
[b]
[a]
y = 2
"]> ∅) [] (SrcPath "d.ini") None None None false)
  = inl (ConfigParserError "DuplicateSectionError").
Proof.
  assert (H1 : parser_map (resolve_fmt [] (SrcPath "d.ini") None) = Some M_parse_ini)
    by reflexivity.
  pose (st0 := match Ini.read_lines Ini.init_state (app [] (header_line "a" :: ["x = 1
"; "[b]
"])) with inr s => s | inl _ => Ini.init_state end).
  assert (H2 : Ini.read_lines Ini.init_state (app [] (header_line "a" :: ["x = 1
"; "[b]
"])) = inr st0) by (vm_compute; reflexivity).
  refine (proj1 (ini_duplicate_section {| encoding := None |} (<["d.ini" := "[a]
x = 1
[b]
[a]
y = 2
"]> ∅) [] (SrcPath "d.ini") None None None "a" [] ["x = 1
"; "[b]
"] ["y = 2
"] st0 H1 ltac:(discriminate) ltac:(discriminate) H2) "d.ini" _ eq_refl eq_refl _).
  vm_compute. reflexivity.
Defined.


(** ** Malformed schema widths and XML element text *)

(** Extra X17: in [main], once the parts before it have been read into a
    schema, a part [name:width] whose name has no colon and whose stripped
    width is not an integer literal ends the [--fixed-schema] block with the
    [ValueError] of [int()] on that literal, not with [return 2]. *)

Theorem fixed_schema_bad_width (a n w : string) (pre post : list string)
  (s0 : list (string * Z)) :
  a <> "" ->
  split_sep a ","%char = app pre ((n ++ String ":"%char w) :: post) ->
  schema_parts pre [] = SchemaOk (Some s0) ->
  ~ In ":"%char (list_ascii_of_string n) ->
  py_int (strip w) = None ->
  main_fixed_schema (Some a) = SchemaIntError (strip w).
Proof.
  intros Ha Hs Hp Hn Hw. unfold main_fixed_schema.
  destruct a as [|c a']; [congruence|]. rewrite Hs, schema_parts_app, Hp.
  cbn [schema_parts]. rewrite contains_char_mid. cbn [negb].
  rewrite split_once_first by exact Hn. rewrite Hw. reflexivity.
Qed.

Lemma fixed_schema_bad_width_witness :
  main_fixed_schema (Some "name:20,age: 3x") = SchemaIntError "3x".
Proof.
  exact (fixed_schema_bad_width "name:20,age: 3x" "age" " 3x" ["name:20"] [] [("name", 20%Z)]
           ltac:(discriminate) eq_refl eq_refl ltac:(cbn; intuition discriminate) eq_refl).
Defined.

Lemma dict_set_nonempty (d : record) (k : pykey) (v : pyval) : dict_set d k v <> [].
Proof. destruct d as [|[k' v'] d]; cbn; [discriminate|]. destruct (pykey_eqb k k'); discriminate. Qed.

Lemma attrib_fold_nonempty (attrib : list (string * string)) (d : record) :
  (d <> [] \/ attrib <> []) ->
  fold_left (fun d kv => dict_set d (KStr (fst kv)) (PStr (snd kv))) attrib d <> [].
Proof.
  revert d. induction attrib as [|kv attrib IH]; intros d H; cbn [fold_left].
  - destruct H as [H|H]; [exact H|congruence].
  - apply IH. left. apply dict_set_nonempty.
Qed.

Lemma kids_fold_nonempty (kids : list Xml.element) (rec : record) :
  (rec <> [] \/ kids <> []) ->
  fold_left
    (fun rec sub =>
       match sub with
       | Xml.Element stag _ stext _ =>
           match dict_get rec (KStr stag) with
           | Some (PList l) => dict_set rec (KStr stag) (PList (app l [text_of_sub stext]))
           | Some v => dict_set rec (KStr stag) (PList [v; text_of_sub stext])
           | None => dict_set rec (KStr stag) (text_of_sub stext)
           end
       end) kids rec <> [].
Proof.
  revert rec. induction kids as [|[stag sa stext sk] ks IH]; intros rec H; cbn [fold_left].
  - destruct H as [H|H]; [exact H|congruence].
  - apply IH. left. destruct (dict_get rec (KStr stag)) as [[]|]; apply dict_set_nonempty.
Qed.

(** Extra X18: in [_parse_xml], the record of a child that has attributes
    or sub-elements does not depend on the child's own text: the text only
    counts when the record would otherwise be empty. *)
Theorem xml_own_text_dropped (tag : string) (attrib : list (string * string))
  (text : option string) (kids : list Xml.element) :
  (attrib <> [] \/ kids <> []) ->
  xml_record (Xml.Element tag attrib text kids) = xml_record (Xml.Element tag attrib None kids).
Proof.
  intros H. cbv beta delta [xml_record] iota zeta.
  pose proof (kids_fold_nonempty kids
    (fold_left (fun d kv => dict_set d (KStr (fst kv)) (PStr (snd kv))) attrib []))
    as Hne.
  match type of Hne with
  | _ -> ?r <> [] => revert Hne; generalize r
  end.
  intros [|x r0] Hne.
  - exfalso. apply Hne; [|reflexivity].
    destruct H as [H|H]; [left; apply attrib_fold_nonempty; right; exact H|right; exact H].
  - cbv iota. reflexivity.
Qed.

Lemma xml_own_text_dropped_witness :
  xml_record (Xml.Element "item" [("id", "7")] (Some "note") [])
  = [(KStr "id", PStr "7")].
Proof.
  assert (Ha : [("id", "7")] <> @nil (string * string)) by discriminate.
  refine (eq_trans (xml_own_text_dropped "item" [("id", "7")] (Some "note") [] (or_introl Ha)) _).
  vm_compute. reflexivity.
Defined.

